(** * TCP_Chess: the session server ([chess_server.py])

    A shallow embedding of the server's connection handling, matchmaking and
    per-game message dispatch, and the properties of it that the
    specification states.

    Python objects that are shared between threads ([ClientHandler], [Game],
    the global [waiting_queue]) live in one store, the record [Server];
    references are indices into it.  A method is a state transformer that
    either returns a value or raises ([M]); [try ... except] is [try_pass].
    The rules engine [chess_logic] is not part of the server: it is the type
    class [RulesEngine].  The bodies of the handlers are taken one at a time
    (the order in which the threads run them is the list of events of a
    run). *)

From Stdlib Require Import List String Ascii Bool Arith ZArith Lia.
From Stdlib Require Import Decimal DecimalNat DecimalString.
Import ListNotations.
Open Scope bool_scope.
Open Scope string_scope.
Set Warnings "-register-all".

(** ** Python values *)

(** The Python values that [json.loads] can return; [VNone] is [None].  A
    float is its IEEE-754 binary64 bit pattern; a [dict] is the list of its
    items (keys are distinct). *)
Inductive value : Type :=
| VNone
| VBool (b : bool)
| VInt (z : Z)
| VFloat (bits : Z)
| VStr (s : string)
| VList (items : list value)
| VDict (items : list (string * value)).

(** [bool(v)] *)
Definition truthy (v : value) : bool :=
  match v with
  | VNone => false
  | VBool b => b
  | VInt z => negb (Z.eqb z 0)
  | VFloat bits => negb (Z.eqb (Z.land bits (Z.ones 63)) 0)
  | VStr s => negb (String.eqb s "")
  | VList items => match items with [] => false | _ => true end
  | VDict items => match items with [] => false | _ => true end
  end.

(** [isinstance(v, dict)] *)
Definition is_dict (v : value) : bool :=
  match v with VDict _ => true | _ => false end.

Fixpoint assoc (k : string) (items : list (string * value)) : option value :=
  match items with
  | [] => None
  | (k', v) :: rest => if String.eqb k k' then Some v else assoc k rest
  end.

(** [isinstance(v, str)], with the string *)
Definition as_str (v : value) : option string :=
  match v with VStr s => Some s | _ => None end.

(** [v == "lit"] for a decoded value [v] *)
Definition eq_str (v : value) (lit : string) : bool :=
  match v with VStr s => String.eqb s lit | _ => false end.

(** ** Strings *)

(** [str.isspace] on one character.  A character of a [string] is a code
    point below 256: the ASCII controls 9-13 and 28-31, the space, NEL
    (0x85) and the no-break space (0xA0). *)
Definition py_isspace (c : ascii) : bool :=
  let n := nat_of_ascii c in
  (((9 <=? n) && (n <=? 13)) || ((28 <=? n) && (n <=? 32))
   || (n =? 133) || (n =? 160))%nat.

Fixpoint lstrip (s : string) : string :=
  match s with
  | EmptyString => EmptyString
  | String c rest => if py_isspace c then lstrip rest else s
  end.

Fixpoint rstrip (s : string) : string :=
  match s with
  | EmptyString => EmptyString
  | String c rest =>
      match rstrip rest with
      | EmptyString => if py_isspace c then EmptyString else String c EmptyString
      | r => String c r
      end
  end.

(** [s.strip()] *)
Definition strip (s : string) : string := rstrip (lstrip s).

Fixpoint all_space (s : string) : bool :=
  match s with
  | EmptyString => true
  | String c rest => py_isspace c && all_space rest
  end.

(** Whether a string begins, and whether it ends, with whitespace *)
Definition starts_with_space (s : string) : bool :=
  match s with
  | EmptyString => false
  | String c _ => py_isspace c
  end.

Fixpoint ends_with_space (s : string) : bool :=
  match s with
  | EmptyString => false
  | String c EmptyString => py_isspace c
  | String _ rest => ends_with_space rest
  end.

(** [f"{i}"] for a non-negative [int] *)
Definition decimal (i : nat) : string :=
  NilEmpty.string_of_uint (Nat.to_uint i).

(** [x in taken] for a set of strings *)
Definition mem (x : string) (taken : list string) : bool :=
  existsb (String.eqb x) taken.

(** ** Messages *)

(** The text of a chat message: a literal of the server, or [str(v)] of a
    decoded value (the conversion is the Python runtime's, and is the
    identity on a [str]). *)
Inductive pytext : Type :=
| Text (s : string)
| StrOf (v : value).

(** The objects the server passes to [send], by their ["type"]. *)
Inductive message : Type :=
| Welcome (ok : bool)
| Queued (pos : nat)
| Start (color : string) (opponent : option string)
| State (fen : string) (turn : string) (check : bool)
| MoveOk (uci : string) (by_ : option string)
| Illegal (reason : string)
| Chat (from : option string) (text : pytext)
| OpponentLeft
| Result (outcome : string) (winner : option string).

(** ** Reading a line *)

(** What [json.loads(line.strip())] does on a line that was read. *)
Inductive parsed : Type :=
| Decoded (v : value)
| JSONDecodeError
| OtherError.

(** What [fd.readline()] does: the empty string at the end of the stream, an
    exception, or a line (with what decoding it gives). *)
Inductive read_outcome : Type :=
| EndOfStream
| ReadFailed
| Line (p : parsed).

Definition bad_json : value := VDict [("__bad_json__", VBool true)].

Definition recv_line (r : read_outcome) : value :=
  match r with
  | EndOfStream => VNone
  | Line (Decoded v) => v
  | Line JSONDecodeError => bad_json
  | Line OtherError => VNone
  | ReadFailed => VNone
  end.

Definition is_None (v : value) : bool :=
  match v with VNone => true | _ => false end.

(** ** The rules engine *)

(** What the server uses of [chess_logic]: [Board()], its attributes [turn]
    and [result], its methods, and [Move(uci)], which may raise. *)
Class RulesEngine : Type := {
  Board : Type;
  Move : Type;
  new_board : Board;
  board_turn : Board -> string;
  board_fen : Board -> string;
  board_result : Board -> option string;
  king_pos : Board -> string -> option (Z * Z);
  is_square_attacked_by : Board -> Z -> Z -> string -> bool;
  enemy : Board -> string -> string;
  new_move : string -> option Move;
  move_uci : Move -> string;
  make_move : Board -> Move -> (bool * string) * Board
}.

(** ** Sessions, games and the store *)

(** A [ClientHandler] with its connection: [writable] tells whether
    [conn.sendall] succeeds, [outbox] is what was written, [closed] whether
    [close] was called. *)
Record ClientHandler : Type := mkClient {
  writable : bool;
  outbox : list message;
  closed : bool;
  name : option string;
  in_game : bool;
  game : option nat;
  color : option string;
  alive : bool
}.

Definition set_outbox (o : list message) (c : ClientHandler) :=
  mkClient (writable c) o (closed c) (name c) (in_game c) (game c) (color c) (alive c).
Definition set_closed (b : bool) (c : ClientHandler) :=
  mkClient (writable c) (outbox c) b (name c) (in_game c) (game c) (color c) (alive c).
Definition set_name (n : option string) (c : ClientHandler) :=
  mkClient (writable c) (outbox c) (closed c) n (in_game c) (game c) (color c) (alive c).
Definition set_in_game (b : bool) (c : ClientHandler) :=
  mkClient (writable c) (outbox c) (closed c) (name c) b (game c) (color c) (alive c).
Definition set_game (g : option nat) (c : ClientHandler) :=
  mkClient (writable c) (outbox c) (closed c) (name c) (in_game c) g (color c) (alive c).
Definition set_color (k : option string) (c : ClientHandler) :=
  mkClient (writable c) (outbox c) (closed c) (name c) (in_game c) (game c) k (alive c).
Definition set_alive (b : bool) (c : ClientHandler) :=
  mkClient (writable c) (outbox c) (closed c) (name c) (in_game c) (game c) (color c) b.

(** The session's connection takes a write. *)
Definition accepts (cl : ClientHandler) : bool := writable cl && negb (closed cl).

Inductive exn : Type := OSError | AttributeError | IndexError.

Inductive result (A : Type) : Type :=
| Ok (a : A)
| Raise (e : exn).
Arguments Ok {A} a.
Arguments Raise {A} e.

Section Server.
Context {RE : RulesEngine}.

Record Game : Type := mkGame {
  white : nat;
  black : nat;
  board : Board;
  ended : bool
}.

Definition set_board (b : Board) (g : Game) := mkGame (white g) (black g) b (ended g).
Definition set_ended (e : bool) (g : Game) := mkGame (white g) (black g) (board g) e.

(** The objects of the process: the sessions and the games by index, the
    global [waiting_queue], and how many games were constructed. *)
Record Server : Type := mkServer {
  clients : nat -> ClientHandler;
  waiting_queue : list nat;
  games : nat -> Game;
  n_games : nat
}.

Definition upd_client (c : nat) (f : ClientHandler -> ClientHandler) (st : Server) : Server :=
  mkServer (fun c' => if Nat.eqb c' c then f (clients st c) else clients st c')
           (waiting_queue st) (games st) (n_games st).

Definition upd_game (g : nat) (f : Game -> Game) (st : Server) : Server :=
  mkServer (clients st) (waiting_queue st)
           (fun g' => if Nat.eqb g' g then f (games st g) else games st g')
           (n_games st).

Definition set_queue (q : list nat) (st : Server) : Server :=
  mkServer (clients st) q (games st) (n_games st).

(** ** Methods: state, results and exceptions *)

Definition M (A : Type) : Type := Server -> result A * Server.

Definition ret {A} (a : A) : M A := fun st => (Ok a, st).

Definition bind {A B} (m : M A) (k : A -> M B) : M B :=
  fun st =>
    match m st with
    | (Ok a, st') => k a st'
    | (Raise e, st') => (Raise e, st')
    end.

Definition raise {A} (e : exn) : M A := fun st => (Raise e, st).

Definition gets {A} (f : Server -> A) : M A := fun st => (Ok (f st), st).

Definition modify (f : Server -> Server) : M unit := fun st => (Ok tt, f st).

(** [try: m except Exception: pass] *)
Definition try_pass (m : M unit) : M unit :=
  fun st => (Ok tt, snd (m st)).

(** [try: m except Exception: h] *)
Definition try_except (m : M unit) (h : M unit) : M unit :=
  fun st =>
    match m st with
    | (Ok _, st') => (Ok tt, st')
    | (Raise _, st') => h st'
    end.

Definition exec {A} (m : M A) (st : Server) : Server := snd (m st).
Definition outcome {A} (m : M A) (st : Server) : result A := fst (m st).

End Server.

Notation "x <- m ;; k" := (bind m (fun x => k))
  (at level 61, m at next level, right associativity).
Notation "m ;; k" := (bind m (fun _ => k))
  (at level 61, right associativity).

Section Methods.
Context {RE : RulesEngine}.

(** [v.get(k)]: [AttributeError] unless [v] is a [dict]; [None] for a key
    that is absent. *)
Definition dict_get (v : value) (k : string) : M value :=
  match v with
  | VDict items =>
      match assoc k items with
      | Some x => ret x
      | None => ret VNone
      end
  | _ => raise AttributeError
  end.

(** [v.get(k, default)] *)
Definition dict_get_default (v : value) (k : string) (default : value) : M value :=
  match v with
  | VDict items =>
      match assoc k items with
      | Some x => ret x
      | None => ret default
      end
  | _ => raise AttributeError
  end.

(** *** ClientHandler *)

(** [ClientHandler.__init__] for the connection at index [c] *)
Definition ClientHandler_init (c : nat) : M unit :=
  modify (upd_client c (fun cl =>
    mkClient (writable cl) (outbox cl) (closed cl) None false None None true)).

(** [ClientHandler.send]: a failed write marks the session dead and
    raises. *)
Definition send (c : nat) (obj : message) : M unit :=
  fun st =>
    let cl := clients st c in
    if accepts cl
    then (Ok tt, upd_client c (set_outbox (outbox cl ++ [obj])) st)
    else (Raise OSError, upd_client c (set_alive false) st).

(** [ClientHandler.close] *)
Definition close (c : nat) : M unit :=
  modify (upd_client c (fun cl => set_alive false (set_closed true cl))).

(** *** Game *)

(** [Game.__init__]: the new game's index is returned. *)
Definition Game_init (a b : nat) : M nat :=
  g <- gets n_games;;
  modify (fun st =>
    mkServer (clients st) (waiting_queue st)
             (fun g' => if Nat.eqb g' g then mkGame a b new_board false else games st g')
             (S (n_games st)));;
  modify (upd_client a (set_in_game true));;
  modify (upd_client b (set_in_game true));;
  modify (upd_client a (set_game (Some g)));;
  modify (upd_client b (set_game (Some g)));;
  modify (upd_client a (set_color (Some "white")));;
  modify (upd_client b (set_color (Some "black")));;
  ret g.

Definition _in_check (b : Board) (color_char : string) : bool :=
  match king_pos b color_char with
  | None => false
  | Some (r, c) => is_square_attacked_by b r c (enemy b color_char)
  end.

(** ["white" if self.board.turn == 'w' else "black"] *)
Definition turn_color (b : Board) : string :=
  if String.eqb (board_turn b) "w" then "white" else "black".

Definition _send_state (g : nat) : M unit :=
  gm <- gets (fun st => games st g);;
  let b := board gm in
  let obj := State (board_fen b) (turn_color b) (_in_check b (board_turn b)) in
  try_pass (send (white gm) obj;; send (black gm) obj).

Definition _peer (gm : Game) (client : nat) : nat :=
  if Nat.eqb client (white gm) then black gm else white gm.

Definition _end_game (g : nat) : M unit :=
  modify (upd_game g (set_ended true));;
  gm <- gets (fun st => games st g);;
  modify (upd_client (white gm) (fun p => set_color None (set_game None (set_in_game false p))));;
  modify (upd_client (black gm) (fun p => set_color None (set_game None (set_in_game false p)))).

Definition _handle_disconnect (g : nat) (disconnected_client : nat) : M unit :=
  gm <- gets (fun st => games st g);;
  if ended gm then ret tt else
  let peer := _peer gm disconnected_client in
  try_pass (send peer OpponentLeft;;
            k <- gets (fun st => color (clients st peer));;
            send peer (Result "forfeit" k));;
  _end_game g.

Definition _handle_chat (g : nat) (sender : nat) (msg : value) : M unit :=
  v <- dict_get_default msg "text" (VStr "");;
  let text := StrOf v in
  gm <- gets (fun st => games st g);;
  let peer := _peer gm sender in
  from <- gets (fun st => name (clients st sender));;
  try_except (send peer (Chat from text)) (_handle_disconnect g peer).

Definition _handle_resign (g : nat) (sender : nat) : M unit :=
  gm <- gets (fun st => games st g);;
  if ended gm then ret tt else
  let peer := _peer gm sender in
  winner_color <- gets (fun st => color (clients st peer));;
  let outcome := "resign" in
  try_pass (send sender (Result outcome winner_color));;
  try_pass (send peer (Result outcome winner_color));;
  _end_game g.

(** The end of [_handle_move]: what follows a move that the board
    accepted. *)
Definition check_terminal (g : nat) : M unit :=
  gm <- gets (fun st => games st g);;
  match board_result (board gm) with
  | None => ret tt
  | Some r =>
      if String.eqb r "" then ret tt else
      let '(winner, outcome) :=
        if String.eqb r "1-0" then (Some "white", "checkmate")
        else if String.eqb r "0-1" then (Some "black", "checkmate")
        else (None, "stalemate") in
      try_pass (send (white gm) (Result outcome winner);;
                send (black gm) (Result outcome winner));;
      _end_game g
  end.

Definition _handle_move (g : nat) (sender : nat) (msg : value) : M unit :=
  uci <- dict_get msg "uci";;
  match as_str uci with
  | None => send sender (Illegal "bad move format")
  | Some uci =>
      gm <- gets (fun st => games st g);;
      let expected_color := turn_color (board gm) in
      sender_color <- gets (fun st => color (clients st sender));;
      if negb (match sender_color with
               | Some k => String.eqb k expected_color
               | None => false
               end)
      then send sender (Illegal "not your turn")
      else
        match new_move uci with
        | None => send sender (Illegal "bad uci")
        | Some mv =>
            let '((ok, reason), b') := make_move (board gm) mv in
            modify (upd_game g (set_board b'));;
            if negb ok then send sender (Illegal reason)
            else
              by_color <- gets (fun st => color (clients st sender));;
              try_pass (send (white gm) (MoveOk (move_uci mv) by_color);;
                        send (black gm) (MoveOk (move_uci mv) by_color));;
              _send_state g;;
              check_terminal g
        end
  end.

(** [Game.process_message], the body under [self.lock] *)
Definition process_message (g : nat) (sender : nat) (msg : value) : M unit :=
  gm <- gets (fun st => games st g);;
  if ended gm then ret tt else
  try_pass (
    mtype <- dict_get msg "type";;
    if eq_str mtype "move" then _handle_move g sender msg
    else if eq_str mtype "chat" then _handle_chat g sender msg
    else if eq_str mtype "resign" then _handle_resign g sender
    else if eq_str mtype "quit" then _handle_disconnect g sender
    else send sender (Illegal "unknown command")).

(** [Game.start]; the monitor thread it launches is [monitor_loop]. *)
Definition start (g : nat) : M unit :=
  gm <- gets (fun st => games st g);;
  try_pass (
    bn <- gets (fun st => name (clients st (black gm)));;
    send (white gm) (Start "white" bn);;
    wn <- gets (fun st => name (clients st (white gm)));;
    send (black gm) (Start "black" wn);;
    _send_state g).

(** One turn of the loop of [monitor_loop]: [true] when it sleeps and goes
    round again, [false] when it leaves the loop. *)
Definition monitor_loop (g : nat) : M bool :=
  gm <- gets (fun st => games st g);;
  if ended gm then ret false else
  wa <- gets (fun st => alive (clients st (white gm)));;
  if negb wa then _handle_disconnect g (white gm);; ret false else
  ba <- gets (fun st => alive (clients st (black gm)));;
  if negb ba then _handle_disconnect g (black gm);; ret false else
  ret true.

End Methods.

(** ** Matchmaking and the session thread *)

(** The loop of the handshake that makes a name unique:
    [while client.name in taken: i += 1; client.name = f"{original}_{i}"].
    [None] when [fuel] turns of the loop were not enough. *)
Fixpoint rename_loop (fuel : nat) (original : string) (taken : list string)
    (i : nat) (name : string) : option string :=
  if mem name taken then
    match fuel with
    | O => None
    | S fuel' =>
        rename_loop fuel' original taken (i + 1)
                    (original ++ "_" ++ decimal (i + 1))
    end
  else Some name.

(** The name after the loop.  The loop ends within [length taken] turns
    ([unique_name_spec]), so that the last case is never taken. *)
Definition unique_name (original : string) (taken : list string) : string :=
  match rename_loop (List.length taken) original taken 1 original with
  | Some name => name
  | None => original
  end.

(** [waiting_queue.index(client)] for a client that is in the queue *)
Fixpoint index (c : nat) (q : list nat) : nat :=
  match q with
  | [] => 0
  | x :: rest => if Nat.eqb x c then 0 else S (index c rest)
  end.

(** [waiting_queue.remove(client)]: the first occurrence goes. *)
Fixpoint remove_first (c : nat) (q : list nat) : list nat :=
  match q with
  | [] => []
  | x :: rest => if Nat.eqb x c then rest else x :: remove_first c rest
  end.

(** Whether a thread came to its end or waits (for a line, or for the queue
    to fill). *)
Inductive progress : Type := Waiting | Done.

(** How a turn of the read loop ends. *)
Inductive ctl : Type := Continue | Break.

Section Threads.
Context {RE : RulesEngine}.

(** [waiting_queue.pop(0)] *)
Definition pop0 : M nat :=
  fun st =>
    match waiting_queue st with
    | [] => (Raise IndexError, st)
    | x :: rest => (Ok x, set_queue rest st)
    end.

(** One turn of [matchmaking_thread]: it waits while fewer than two sessions
    are queued, else pairs the first two and starts their game, whose index
    it gives. *)
Definition matchmaking_thread : M (option nat) :=
  q <- gets waiting_queue;;
  if Nat.ltb (List.length q) 2 then ret None else
  a <- pop0;;
  b <- pop0;;
  g <- Game_init a b;;
  try_pass (start g);;
  ret (Some g).

(** The names of the queued sessions ([taken] of the handshake) *)
Definition taken_names (st : Server) : list string :=
  flat_map (fun c =>
              match name (clients st c) with
              | Some n => if String.eqb n "" then [] else [n]
              | None => []
              end)
           (waiting_queue st).

(** The body of [while client.alive] for one line read *)
Definition loop_body (c : nat) (r : read_outcome) : M ctl :=
  let msg := recv_line r in
  if is_None msg then
    modify (upd_client c (set_alive false));; ret Break
  else
    bad <- (if is_dict msg
            then v <- dict_get msg "__bad_json__";; ret (truthy v)
            else ret false);;
    if bad then send c (Illegal "bad json");; ret Continue
    else
      mtype <- dict_get msg "type";;
      ig <- gets (fun st => in_game (clients st c));;
      if negb ig then
        if eq_str mtype "quit" then
          send c (Welcome false);; close c;; ret Break
        else if eq_str mtype "chat" then
          send c (Chat (Some "server")
                       (Text "(lobby) message ignored; waiting for pairing"));;
          ret Continue
        else
          q <- gets waiting_queue;;
          send c (Queued (if existsb (Nat.eqb c) q then index c q + 1 else 0));;
          ret Continue
      else
        gm <- gets (fun st => game (clients st c));;
        match gm with
        | Some g => process_message g c msg;; ret Continue
        | None => send c (Illegal "no game yet");; ret Continue
        end.

(** The read loop on the lines that arrive; it waits when they are used up. *)
Fixpoint read_loop (c : nat) (inputs : list read_outcome) : M progress :=
  a <- gets (fun st => alive (clients st c));;
  if negb a then ret Done else
  match inputs with
  | [] => ret Waiting
  | r :: rest =>
      k <- loop_body c r;;
      match k with
      | Continue => read_loop c rest
      | Break => ret Done
      end
  end.

(** The handshake on the first line read: [true] when the session was
    queued, [false] when the thread returns. *)
Definition handshake (c : nat) (r : read_outcome) : M bool :=
  let hello := recv_line r in
  let expected_hello :=
    send c (Illegal "expected hello");; close c;; ret false in
  if negb (truthy hello) then expected_hello else
  if negb (is_dict hello) then expected_hello else
  t <- dict_get hello "type";;
  if negb (eq_str t "hello") then expected_hello else
  name <- dict_get hello "name";;
  match as_str name with
  | None => send c (Illegal "bad name");; close c;; ret false
  | Some name =>
      if negb (truthy (VStr (strip name)))
      then send c (Illegal "bad name");; close c;; ret false
      else
        modify (upd_client c (set_name (Some (strip name))));;
        taken <- gets taken_names;;
        modify (upd_client c (set_name (Some (unique_name (strip name) taken))));;
        modify (fun st => set_queue (waiting_queue st ++ [c]) st);;
        pos <- gets (fun st => List.length (waiting_queue st));;
        send c (Queued pos);;
        ret true
  end.

(** The [try] block of [client_thread] *)
Definition client_try (c : nat) (inputs : list read_outcome) : M progress :=
  send c (Welcome true);;
  match inputs with
  | [] => ret Waiting
  | r :: rest =>
      queued <- handshake c r;;
      if queued then read_loop c rest else ret Done
  end.

(** The [finally] block of [client_thread] *)
Definition client_finally (c : nat) : M unit :=
  q <- gets waiting_queue;;
  (if existsb (Nat.eqb c) q
   then modify (set_queue (remove_first c q))
   else ret tt);;
  ig <- gets (fun st => in_game (clients st c));;
  gm <- gets (fun st => game (clients st c));;
  (if ig then
     match gm with
     | Some g => try_pass (_handle_disconnect g c)
     | None => ret tt
     end
   else ret tt);;
  close c.

(** [client_thread] on the lines that its connection delivers: the thread
    either still waits for a line, or has run its [finally] block. *)
Definition client_thread (c : nat) (inputs : list read_outcome) : M progress :=
  ClientHandler_init c;;
  fun st =>
    match client_try c inputs st with
    | (Ok Waiting, st') => (Ok Waiting, st')
    | (_, st') => (client_finally c;; ret Done) st'
    end.

(** The process when [main] starts: no session has a name or a game, the
    queue is empty, no game was constructed. *)
Definition initial_server (conn_ok : nat -> bool) : Server :=
  mkServer (fun c => mkClient (conn_ok c) [] false None false None None true)
           []
           (fun _ => mkGame 0 0 new_board true)
           0.

End Threads.

(** ** A scripted engine

    A small instance of [RulesEngine], to run the server on concrete games:
    a move token is four characters, or five with a promotion piece; the
    board records the moves, gives the turn to the other side after each,
    refuses [e2e5], and reports a result after the last move of the fool's
    mate ([d8h4]), of the scholar's mate ([h5f7]) and after [g6g7]
    (stalemate). *)
Module Scripted.

Record board : Type := mkBoard {
  turn : string;
  result_ : option string;
  played : list string
}.

Definition promotion (c : ascii) : bool :=
  existsb (Ascii.eqb c) ["q"; "r"; "b"; "n"]%char.

Definition move (uci : string) : option string :=
  match uci with
  | String _ (String _ (String _ (String _ EmptyString))) => Some uci
  | String _ (String _ (String _ (String _ (String p EmptyString)))) =>
      if promotion p then Some uci else None
  | _ => None
  end.

Definition play (b : board) (mv : string) : (bool * string) * board :=
  if String.eqb mv "e2e5" then ((false, "illegal move"), b)
  else
    let r := if String.eqb mv "d8h4" then Some "0-1"
             else if String.eqb mv "h5f7" then Some "1-0"
             else if String.eqb mv "g6g7" then Some "1/2-1/2"
             else None in
    ((true, ""),
     mkBoard (if String.eqb (turn b) "w" then "b" else "w") r (played b ++ [mv])).

#[export] Instance engine : RulesEngine := {
  Board := board;
  Move := string;
  new_board := mkBoard "w" None [];
  board_turn := turn;
  board_fen := fun b => String.concat " " (played b);
  board_result := result_;
  king_pos := fun _ _ => None;
  is_square_attacked_by := fun _ _ _ _ => false;
  enemy := fun _ k => if String.eqb k "w" then "b" else "w";
  new_move := move;
  move_uci := fun mv => mv;
  make_move := play
}.

(** Two sessions, 0 and 1, whose connections work; [paired] is the process
    after both said hello (as Ann and Bob) and were paired. *)
Definition hello (name : string) : read_outcome :=
  Line (Decoded (VDict [("type", VStr "hello"); ("name", VStr name)])).

Definition in_move (uci : string) : value :=
  VDict [("type", VStr "move"); ("uci", VStr uci)].

Definition lobby : Server :=
  exec (client_thread 1 [hello "Bob"])
       (exec (client_thread 0 [hello "Ann"]) (initial_server (fun _ => true))).

Definition paired : Server := exec matchmaking_thread lobby.

End Scripted.

(** ** Runs

    What can happen to a game: a message of one of its sessions reaches
    [process_message], or the forfeit path [_handle_disconnect] is entered
    for a session (from [monitor_loop], or from the [finally] block of
    [client_thread]). *)
Inductive trigger : Type :=
| Message (sender : nat) (msg : value)
| Disconnected (client : nat).

(** What can happen in the lobby: a connection is accepted and its first
    line read, or the matchmaker takes a turn. *)
Inductive lobby_event : Type :=
| Connect (c : nat) (hello : read_outcome)
| Matchmake.

Section Runs.
Context {RE : RulesEngine}.

Definition fire (g : nat) (t : trigger) : M unit :=
  match t with
  | Message sender msg => process_message g sender msg
  | Disconnected client => _handle_disconnect g client
  end.

Fixpoint run (g : nat) (ts : list trigger) (st : Server) : Server :=
  match ts with
  | [] => st
  | t :: rest => run g rest (exec (fire g t) st)
  end.

(** The [ended] flag of game [g] after each trigger of a run *)
Fixpoint ended_after (g : nat) (ts : list trigger) (st : Server) : list bool :=
  match ts with
  | [] => []
  | t :: rest =>
      let st' := exec (fire g t) st in
      ended (games st' g) :: ended_after g rest st'
  end.

(** How often a flag goes from [false] to [true], and from [true] to
    [false], along its successive values *)
Fixpoint rises (prev : bool) (flags : list bool) : nat :=
  match flags with
  | [] => 0
  | b :: rest => (if negb prev && b then 1 else 0) + rises b rest
  end.

Fixpoint falls (prev : bool) (flags : list bool) : nat :=
  match flags with
  | [] => 0
  | b :: rest => (if prev && negb b then 1 else 0) + falls b rest
  end.

(** A resignation, a quit or a disconnect *)
Definition ends_game (t : trigger) : bool :=
  match t with
  | Message _ (VDict items) =>
      match assoc "type" items with
      | Some v => eq_str v "resign" || eq_str v "quit"
      | None => false
      end
  | Message _ _ => false
  | Disconnected _ => true
  end.

Definition lobby_step (e : lobby_event) (st : Server) : Server :=
  match e with
  | Connect c hello => exec (client_thread c [hello]) st
  | Matchmake => exec matchmaking_thread st
  end.

Fixpoint lobby_run (es : list lobby_event) (st : Server) : Server :=
  match es with
  | [] => st
  | e :: rest => lobby_run rest (lobby_step e st)
  end.

(** Every handshake of the run succeeds: its thread is left waiting for the
    next line, the session queued. *)
Fixpoint handshakes_succeed (es : list lobby_event) (st : Server) : Prop :=
  match es with
  | [] => True
  | e :: rest =>
      match e with
      | Connect c hello => outcome (client_thread c [hello]) st = Ok Waiting
      | Matchmake => True
      end /\ handshakes_succeed rest (lobby_step e st)
  end.

(** The sessions a run connects, in the order of their handshakes *)
Fixpoint connected (es : list lobby_event) : list nat :=
  match es with
  | [] => []
  | Connect c _ :: rest => c :: connected rest
  | Matchmake :: rest => connected rest
  end.

End Runs.

(** The [i]th name that the handshake tries for a requested name *)
Definition candidate (original : string) (i : nat) : string :=
  if Nat.eqb i 1 then original else original ++ "_" ++ decimal i.

(** What the read loop does with a value that [recv_line] gave it: it takes
    it for the end of the stream, for a malformed line, or for a message. *)
Inductive reading : Type := AsDisconnect | AsMalformed | AsMessage.

(** The tests of the read loop, [msg is None] and
    [isinstance(msg, dict) and msg.get("__bad_json__")] *)
Definition taken_as (msg : value) : reading :=
  if is_None msg then AsDisconnect
  else match msg with
       | VDict items =>
           match assoc "__bad_json__" items with
           | Some v => if truthy v then AsMalformed else AsMessage
           | None => AsMessage
           end
       | _ => AsMessage
       end.

(** What arrived: the end of the stream (or a failed read), a line that is
    not valid JSON, or a line that is. *)
Definition arrived (r : read_outcome) : reading :=
  match r with
  | EndOfStream => AsDisconnect
  | ReadFailed => AsDisconnect
  | Line (Decoded _) => AsMessage
  | Line JSONDecodeError => AsMalformed
  | Line OtherError => AsDisconnect
  end.

Section Effects.
Context {RE : RulesEngine}.

(** The state that [send c obj] leaves, whether the write succeeded or
    not *)
Definition deliver (c : nat) (obj : message) (st : Server) : Server :=
  let cl := clients st c in
  upd_client c (fun _ => if accepts cl then set_outbox (outbox cl ++ [obj]) cl
                         else set_alive false cl) st.

(** What [send] adds to the outbox of a session *)
Definition written (cl : ClientHandler) (objs : list message) : list message :=
  if accepts cl then objs else [].

(** [R] relates the state before a method to the state after it, whether it
    returns or raises. *)
Definition always (R : Server -> Server -> Prop) {A} (m : M A) : Prop :=
  forall st, R st (snd (m st)).

(** No game that has ended is live again. *)
Definition ended_kept (st st' : Server) : Prop :=
  forall g, ended (games st g) = true -> ended (games st' g) = true.

(** The state that [try: a.send(obj); b.send(obj) except: pass] leaves *)
Definition broadcast (a b : nat) (obj : message) (st : Server) : Server :=
  if accepts (clients st a) then deliver b obj (deliver a obj st)
  else deliver a obj st.

(** The state that [Game(a, b)] leaves *)
Definition paired_state (a b : nat) (st : Server) : Server :=
  snd (Game_init a b st).

(** What [start] leaves as it was: the games, the queue, and the colours
    of the sessions. *)
Definition same_but_sent (st st' : Server) : Prop :=
  games st' = games st /\ waiting_queue st' = waiting_queue st /\
  n_games st' = n_games st /\
  forall c, color (clients st' c) = color (clients st c).

(** While no game was constructed the queue holds the sessions that have
    connected, in their order; once one was, the first game is made of the
    first two of them. *)
Definition first_pair_inv (st : Server) (done : list nat) : Prop :=
  (n_games st = 0 /\ waiting_queue st = done) \/
  (0 < n_games st /\
   exists c1 c2 r, done = c1 :: c2 :: r /\
                   white (games st 0) = c1 /\ black (games st 0) = c2).

(** The state that the two lines of a refused handshake leave *)
Definition refused (c : nat) (reason : string) (st : Server) : Server :=
  let st1 := deliver c (Illegal reason) st in
  if accepts (clients st c)
  then upd_client c (fun cl => set_alive false (set_closed true cl)) st1
  else st1.

(** A hello whose name is not a string, or strips to nothing *)
Definition bad_name (items : list (string * value)) : Prop :=
  match assoc "name" items with
  | Some (VStr s) => strip s = ""
  | _ => True
  end.

(** The state that [_end_game g] leaves *)
Definition detach (g : nat) (st : Server) : Server := snd (_end_game g st).

(** From [st] to [st'] the one thing done is the write of [obj] to session
    [c]: its outbox gets it (when the connection takes the write), no other
    session changes, and games, boards and the queue are as they were. *)
Definition only_reply (c : nat) (obj : message) (st st' : Server) : Prop :=
  outbox (clients st' c) = (outbox (clients st c) ++ written (clients st c) [obj])%list /\
  (forall c', c' <> c -> clients st' c' = clients st c') /\
  games st' = games st /\
  waiting_queue st' = waiting_queue st.

End Effects.

(** The [result] message that the specification gives for the [result] of
    a board: none when the board reports no result. *)
Definition terminal_message (result : option string) : option message :=
  match result with
  | None => None
  | Some r =>
      if String.eqb r "" then None
      else if String.eqb r "1-0" then Some (Result "checkmate" (Some "white"))
      else if String.eqb r "0-1" then Some (Result "checkmate" (Some "black"))
      else Some (Result "stalemate" None)
  end.

(** ** What the claims leave out: definitions

    The rest of the session thread and of the game, and what is needed to
    state how the handlers compose over a run of the server. *)

(** The types that [process_message] knows *)
Definition known_type (mtype : value) : bool :=
  eq_str mtype "move" || eq_str mtype "chat" || eq_str mtype "resign" || eq_str mtype "quit".

(** [client_thread] from its read loop on: the loop on the lines that
    arrive, then (unless the thread still waits for a line) the [except]
    and [finally] blocks. *)
Definition client_resume `{RE : RulesEngine} (c : nat) (inputs : list read_outcome)
    : M progress :=
  fun st =>
    match read_loop c inputs st with
    | (Ok Waiting, st') => (Ok Waiting, st')
    | (_, st') => (client_finally c;; ret Done) st'
    end.

(** The state that [client.close()] leaves *)
Definition shut `{RE : RulesEngine} (c : nat) (st : Server) : Server :=
  upd_client c (fun cl => set_alive false (set_closed true cl)) st.

(** The position that a lobby session is told: [index + 1], 0 when it is
    not in the queue *)
Definition queue_pos (c : nat) (q : list nat) : nat :=
  if existsb (Nat.eqb c) q then index c q + 1 else 0.

(** The state that the first step of the [finally] block leaves: the
    session is out of the queue. *)
Definition dequeue `{RE : RulesEngine} (c : nat) (st : Server) : Server :=
  if existsb (Nat.eqb c) (waiting_queue st)
  then set_queue (remove_first c (waiting_queue st)) st else st.

(** The state that the [finally] block leaves *)
Definition departed `{RE : RulesEngine} (c : nat) (st : Server) : Server :=
  let st1 := dequeue c st in
  shut c (if in_game (clients st1 c)
          then match game (clients st1 c) with
               | Some g => exec (_handle_disconnect g c) st1
               | None => st1
               end
          else st1).

(** What a method of game [g] does to the state, one change at a time: it
    writes to a session, it puts a board in place of the board of [g], or
    it ends [g], which was live. *)
Inductive change `{RE : RulesEngine} (g : nat) (st : Server) : Server -> Prop :=
| change_write (c : nat) (obj : message) : change g st (deliver c obj st)
| change_board (b : Board) : change g st (upd_game g (set_board b) st)
| change_end : ended (games st g) = false -> change g st (detach g st).

Inductive changes `{RE : RulesEngine} (g : nat) : Server -> Server -> Prop :=
| changes_none (st : Server) : changes g st st
| changes_step (st st1 st2 : Server) :
    change g st st1 -> changes g st1 st2 -> changes g st st2.

(** Changes that leave the game as live as it was *)
Definition goes_on `{RE : RulesEngine} (g : nat) (st st' : Server) : Prop :=
  changes g st st' /\ ended (games st' g) = ended (games st g).

(** A method that, entered while [g] is live, makes changes of [g] only *)
Definition tame `{RE : RulesEngine} (g : nat) {A} (m : M A) : Prop :=
  forall st, ended (games st g) = false -> changes g st (snd (m st)).

(** What no change of a game does to a session: its outbox only grows, and
    not at all when its connection takes no write; its connection, its name
    and its being dead stay. *)
Definition session_kept `{RE : RulesEngine} (st st' : Server) : Prop :=
  forall c,
    (exists l, outbox (clients st' c) = (outbox (clients st c) ++ l)%list) /\
    (accepts (clients st c) = false -> outbox (clients st' c) = outbox (clients st c)) /\
    writable (clients st' c) = writable (clients st c) /\
    closed (clients st' c) = closed (clients st c) /\
    name (clients st' c) = name (clients st c) /\
    (alive (clients st c) = false -> alive (clients st' c) = false).

(** What no change of game [g] touches outside [g]: the queue, the other
    games, who plays in [g], and the sessions that do not *)
Definition lobby_kept `{RE : RulesEngine} (g : nat) (st st' : Server) : Prop :=
  waiting_queue st' = waiting_queue st /\
  n_games st' = n_games st /\
  (forall g', g' <> g -> games st' g' = games st g') /\
  white (games st' g) = white (games st g) /\
  black (games st' g) = black (games st g) /\
  (forall c, c <> white (games st g) -> c <> black (games st g) ->
             in_game (clients st' c) = in_game (clients st c) /\
             game (clients st' c) = game (clients st c) /\
             color (clients st' c) = color (clients st c)).

(** What the threads of the server do, one at a time: a session thread is
    started on an accepted connection and runs on the lines that have
    arrived, a session thread takes one more turn of its read loop, a
    session thread runs its [finally] block, the matchmaker takes a turn,
    the monitor of a game takes a turn. *)
Inductive event : Type :=
| Accept (c : nat) (inputs : list read_outcome)
| Turn (c : nat) (r : read_outcome)
| Leave (c : nat)
| Pair
| Monitor (g : nat).

Definition step `{RE : RulesEngine} (e : event) (st : Server) : Server :=
  match e with
  | Accept c inputs => exec (client_thread c inputs) st
  | Turn c r => exec (loop_body c r) st
  | Leave c => exec (client_finally c) st
  | Pair => exec matchmaking_thread st
  | Monitor g => exec (monitor_loop g) st
  end.

Fixpoint server_run `{RE : RulesEngine} (es : list event) (st : Server) : Server :=
  match es with
  | [] => st
  | e :: rest => server_run rest (step e st)
  end.

(** The connections that a run accepts *)
Fixpoint accepted (es : list event) : list nat :=
  match es with
  | [] => []
  | Accept c _ :: rest => c :: accepted rest
  | _ :: rest => accepted rest
  end.

(** A session that plays colour [k] in game [g] *)
Definition linked (g : nat) (k : string) (cl : ClientHandler) : Prop :=
  in_game cl = true /\ game cl = Some g /\ color cl = Some k.

(** No session is queued twice; a queued session is in no game; a live game
    was constructed, has two different players, and they are linked to it
    as white and black; a session that is in a game plays in a live game. *)
Definition well_formed `{RE : RulesEngine} (st : Server) : Prop :=
  NoDup (waiting_queue st) /\
  (forall c, In c (waiting_queue st) -> in_game (clients st c) = false) /\
  (forall g, ended (games st g) = false ->
     g < n_games st /\
     white (games st g) <> black (games st g) /\
     linked g "white" (clients st (white (games st g))) /\
     linked g "black" (clients st (black (games st g)))) /\
  (forall c, in_game (clients st c) = true ->
     exists g, ended (games st g) = false /\ game (clients st c) = Some g /\
               (c = white (games st g) \/ c = black (games st g))).

(** Two states with the same queue, games and links *)
Definition same_shape `{RE : RulesEngine} (st st' : Server) : Prop :=
  waiting_queue st' = waiting_queue st /\
  n_games st' = n_games st /\
  (forall g, ended (games st' g) = ended (games st g) /\
             white (games st' g) = white (games st g) /\
             black (games st' g) = black (games st g)) /\
  (forall c, in_game (clients st' c) = in_game (clients st c) /\
             game (clients st' c) = game (clients st c) /\
             color (clients st' c) = color (clients st c)).

(** The state is well formed, and the sessions that are queued or in a game
    are among [seen]. *)
Definition sound `{RE : RulesEngine} (seen : list nat) (st : Server) : Prop :=
  well_formed st /\
  forall c, In c (waiting_queue st) \/ in_game (clients st c) = true -> In c seen.

(** From a state where [P] holds, [m] leaves one where [Q] holds, whether
    it returns or raises. *)
Definition triple `{RE : RulesEngine} (P : Server -> Prop) {A} (m : M A)
    (Q : Server -> Prop) : Prop :=
  forall st, P st -> Q (snd (m st)).

(** A session that was just constructed: it is neither queued nor in a
    game. *)
Definition fresh_in `{RE : RulesEngine} (seen : list nat) (c : nat) (st : Server) : Prop :=
  sound (c :: seen) st /\ ~ In c (waiting_queue st) /\ in_game (clients st c) = false.

(** Whether the first line passes the test of the handshake, which refuses
    on [not hello or not isinstance(hello, dict) or hello.get("type") != "hello"] *)
Definition says_hello (hello : value) : bool :=
  truthy hello && is_dict hello &&
  match hello with
  | VDict items =>
      match assoc "type" items with
      | Some t => eq_str t "hello"
      | None => false
      end
  | _ => false
  end.

(** Two states that differ at most in whether session [c] is marked
    alive *)
Definition alike `{RE : RulesEngine} (c : nat) (st st' : Server) : Prop :=
  waiting_queue st' = waiting_queue st /\
  games st' = games st /\
  n_games st' = n_games st /\
  (forall x, x <> c -> clients st' x = clients st x) /\
  set_alive false (clients st' c) = set_alive false (clients st c).

(** ** The model at work *)

Example scripted_paired_queue :
  waiting_queue Scripted.paired = [] /\
  white (games Scripted.paired 0) = 0 /\ black (games Scripted.paired 0) = 1 /\
  outbox (clients Scripted.paired 1) =
    [Welcome true; Queued 2; Start "black" (Some "Ann"); State "" "white" false].
Proof. repeat split; reflexivity. Qed.

Example scripted_first_move :
  outbox (clients (exec (process_message 0 0 (Scripted.in_move "e2e4")) Scripted.paired) 1) =
    [Welcome true; Queued 2; Start "black" (Some "Ann"); State "" "white" false;
     MoveOk "e2e4" (Some "white"); State "e2e4" "black" false].
Proof. reflexivity. Qed.

(** * Properties *)

(** ** What a method leaves as it is *)

Section Always.
Context {RE : RulesEngine}.
Variable R : Server -> Server -> Prop.
Hypothesis R_refl : forall st, R st st.
Hypothesis R_trans : forall a b c, R a b -> R b c -> R a c.

Lemma always_ret {A} (a : A) : always R (ret a).
Proof. intro st. apply R_refl. Qed.

Lemma always_gets {A} (f : Server -> A) : always R (gets f).
Proof. intro st. apply R_refl. Qed.

Lemma always_raise {A} (e : exn) : always R (@raise _ A e).
Proof. intro st. apply R_refl. Qed.

Lemma always_modify (f : Server -> Server) :
  (forall st, R st (f st)) -> always R (modify f).
Proof. intros H st. apply H. Qed.

Lemma always_bind {A B} (m : M A) (k : A -> M B) :
  always R m -> (forall a, always R (k a)) -> always R (bind m k).
Proof.
  intros Hm Hk st. unfold bind.
  specialize (Hm st). destruct (m st) as [[a | e] st']; simpl in *.
  - eapply R_trans; [exact Hm | apply Hk].
  - exact Hm.
Qed.

Lemma always_try_pass (m : M unit) : always R m -> always R (try_pass m).
Proof. intros Hm st. apply Hm. Qed.

Lemma always_try_except (m h : M unit) :
  always R m -> always R h -> always R (try_except m h).
Proof.
  intros Hm Hh st. unfold try_except.
  specialize (Hm st). destruct (m st) as [[a | e] st']; simpl in *.
  - exact Hm.
  - eapply R_trans; [exact Hm | apply Hh].
Qed.

Lemma always_dict_get (v : value) (k : string) : always R (dict_get v k).
Proof.
  unfold dict_get. destruct v; try apply always_raise.
  destruct (assoc k items); apply always_ret.
Qed.

Lemma always_dict_get_default (v : value) (k : string) (d : value) :
  always R (dict_get_default v k d).
Proof.
  unfold dict_get_default. destruct v; try apply always_raise.
  destruct (assoc k items); apply always_ret.
Qed.

(** When [R] holds across every write to a session: *)
Hypothesis R_deliver : forall c obj st, R st (deliver c obj st).

Lemma always_send (c : nat) (obj : message) : always R (send c obj).
Proof.
  intro st. specialize (R_deliver c obj st). unfold send, deliver in *.
  destruct (accepts (clients st c)); exact R_deliver.
Qed.

Lemma always_send_state (g : nat) : always R (_send_state g).
Proof.
  unfold _send_state. apply always_bind; [apply always_gets | intro gm].
  apply always_try_pass, always_bind; [apply always_send | intro; apply always_send].
Qed.

Lemma always_start (g : nat) : always R (start g).
Proof.
  unfold start. apply always_bind; [apply always_gets | intro gm].
  apply always_try_pass.
  apply always_bind; [apply always_gets | intro bn].
  apply always_bind; [apply always_send | intros _].
  apply always_bind; [apply always_gets | intro wn].
  apply always_bind; [apply always_send | intros _].
  apply always_send_state.
Qed.

(** ... and across every other change to a session: *)
Hypothesis R_client : forall c f st, R st (upd_client c f st).

Lemma always_close (c : nat) : always R (close c).
Proof. apply always_modify. intro st. apply R_client. Qed.

(** ... and across the end of a game and a move on its board: *)
Hypothesis R_ended : forall g st, R st (upd_game g (set_ended true) st).
Hypothesis R_board : forall g b st, R st (upd_game g (set_board b) st).

Lemma always_end_game (g : nat) : always R (_end_game g).
Proof.
  unfold _end_game.
  apply always_bind; [apply always_modify, R_ended | intros _].
  apply always_bind; [apply always_gets | intro gm].
  apply always_bind; [apply always_modify; intro; apply R_client | intros _].
  apply always_modify; intro; apply R_client.
Qed.

Lemma always_handle_disconnect (g c : nat) : always R (_handle_disconnect g c).
Proof.
  unfold _handle_disconnect. apply always_bind; [apply always_gets | intro gm].
  destruct (ended gm); [apply always_ret | ].
  apply always_bind; [ | intros _; apply always_end_game].
  apply always_try_pass, always_bind; [apply always_send | intros _].
  apply always_bind; [apply always_gets | intro; apply always_send].
Qed.

Lemma always_handle_chat (g c : nat) (msg : value) : always R (_handle_chat g c msg).
Proof.
  unfold _handle_chat.
  apply always_bind; [apply always_dict_get_default | intro v].
  apply always_bind; [apply always_gets | intro gm].
  apply always_bind; [apply always_gets | intro from].
  apply always_try_except; [apply always_send | apply always_handle_disconnect].
Qed.

Lemma always_handle_resign (g c : nat) : always R (_handle_resign g c).
Proof.
  unfold _handle_resign. apply always_bind; [apply always_gets | intro gm].
  destruct (ended gm); [apply always_ret | ].
  apply always_bind; [apply always_gets | intro k].
  apply always_bind; [apply always_try_pass, always_send | intros _].
  apply always_bind; [apply always_try_pass, always_send | intros _].
  apply always_end_game.
Qed.

Lemma always_check_terminal (g : nat) : always R (check_terminal g).
Proof.
  unfold check_terminal. apply always_bind; [apply always_gets | intro gm].
  destruct (board_result (board gm)) as [r | ]; [ | apply always_ret].
  destruct (String.eqb r ""); [apply always_ret | ].
  destruct (if String.eqb r "1-0" then _ else _) as [winner outcome].
  apply always_bind; [ | intros _; apply always_end_game].
  apply always_try_pass, always_bind; [apply always_send | intros _; apply always_send].
Qed.

Lemma always_handle_move (g c : nat) (msg : value) : always R (_handle_move g c msg).
Proof.
  unfold _handle_move.
  apply always_bind; [apply always_dict_get | intro uci].
  destruct (as_str uci) as [s | ]; [ | apply always_send].
  apply always_bind; [apply always_gets | intro gm].
  apply always_bind; [apply always_gets | intro k].
  destruct (negb _); [apply always_send | ].
  destruct (new_move s) as [mv | ]; [ | apply always_send].
  destruct (make_move (board gm) mv) as [[ok reason] b'].
  apply always_bind; [apply always_modify; intro; apply R_board | intros _].
  destruct (negb ok); [apply always_send | ].
  apply always_bind; [apply always_gets | intro by_color].
  apply always_bind; [ | intros _].
  { apply always_try_pass, always_bind; [apply always_send | intros _; apply always_send]. }
  apply always_bind; [apply always_send_state | intros _; apply always_check_terminal].
Qed.

Lemma always_process_message (g c : nat) (msg : value) :
  always R (process_message g c msg).
Proof.
  unfold process_message. apply always_bind; [apply always_gets | intro gm].
  destruct (ended gm); [apply always_ret | ].
  apply always_try_pass, always_bind; [apply always_dict_get | intro mtype].
  destruct (eq_str mtype "move"); [apply always_handle_move | ].
  destruct (eq_str mtype "chat"); [apply always_handle_chat | ].
  destruct (eq_str mtype "resign"); [apply always_handle_resign | ].
  destruct (eq_str mtype "quit"); [apply always_handle_disconnect | ].
  apply always_send.
Qed.

Lemma always_fire (g : nat) (t : trigger) : always R (fire g t).
Proof.
  destruct t; [apply always_process_message | apply always_handle_disconnect].
Qed.

Lemma always_monitor_loop (g : nat) : always R (monitor_loop g).
Proof.
  unfold monitor_loop. apply always_bind; [apply always_gets | intro gm].
  destruct (ended gm); [apply always_ret | ].
  apply always_bind; [apply always_gets | intro wa].
  destruct (negb wa).
  { apply always_bind; [apply always_handle_disconnect | intros _; apply always_ret]. }
  apply always_bind; [apply always_gets | intro ba].
  destruct (negb ba); [ | apply always_ret].
  apply always_bind; [apply always_handle_disconnect | intros _; apply always_ret].
Qed.

End Always.

(** ** The [ended] flag *)

Section Ended.
Context {RE : RulesEngine}.

Lemma ended_kept_refl st : ended_kept st st.
Proof. intros g H; exact H. Qed.

Lemma ended_kept_trans a b c : ended_kept a b -> ended_kept b c -> ended_kept a c.
Proof. intros H1 H2 g H. apply H2, H1, H. Qed.

Lemma fire_keeps_ended (g : nat) (t : trigger) : always ended_kept (fire g t).
Proof.
  apply always_fire.
  - exact ended_kept_refl.
  - exact ended_kept_trans.
  - intros c obj st g' H. exact H.
  - intros c f st g' H. exact H.
  - intros g' st g'' H. simpl. destruct (Nat.eqb g'' g'); [reflexivity | exact H].
  - intros g' b st g'' H. simpl. destruct (Nat.eqb g'' g') eqn:Eg; [ | exact H].
    apply Nat.eqb_eq in Eg. subst g''. exact H.
Qed.

Lemma monitor_keeps_ended (g : nat) : always ended_kept (monitor_loop g).
Proof.
  apply always_monitor_loop.
  - exact ended_kept_refl.
  - exact ended_kept_trans.
  - intros c obj st g' H. exact H.
  - intros c f st g' H. exact H.
  - intros g' st g'' H. simpl. destruct (Nat.eqb g'' g'); [reflexivity | exact H].
Qed.

Lemma fire_ended_noop (g : nat) (t : trigger) (st : Server) :
  ended (games st g) = true -> fire g t st = (Ok tt, st).
Proof.
  intro H. destruct t; simpl.
  - unfold process_message, bind, gets. rewrite H. reflexivity.
  - unfold _handle_disconnect, bind, gets. rewrite H. reflexivity.
Qed.

Lemma bind_try_pass {B} (m : M unit) (k : unit -> M B) (st : Server) :
  bind (try_pass m) k st = k tt (snd (m st)).
Proof. reflexivity. Qed.

Lemma end_game_ended (g : nat) (st : Server) :
  ended (games (snd (_end_game g st)) g) = true.
Proof.
  unfold _end_game, bind, modify, gets. simpl. rewrite Nat.eqb_refl. reflexivity.
Qed.

Lemma handle_disconnect_ended (g c : nat) (st : Server) :
  ended (games (snd (_handle_disconnect g c st)) g) = true.
Proof.
  unfold _handle_disconnect, bind at 1, gets at 1.
  destruct (ended (games st g)) eqn:E; [exact E | ].
  rewrite bind_try_pass. apply end_game_ended.
Qed.

Lemma handle_resign_ended (g c : nat) (st : Server) :
  ended (games (snd (_handle_resign g c st)) g) = true.
Proof.
  unfold _handle_resign, bind at 1, gets at 1.
  destruct (ended (games st g)) eqn:E; [exact E | ].
  unfold bind at 1, gets at 1.
  rewrite bind_try_pass, bind_try_pass. apply end_game_ended.
Qed.

Lemma fire_ends (g : nat) (t : trigger) (st : Server) :
  ends_game t = true -> ended (games (exec (fire g t) st) g) = true.
Proof.
  intro Ht. destruct (ended (games st g)) eqn:E.
  { unfold exec. rewrite fire_ended_noop by exact E. exact E. }
  destruct t as [sender msg | c]; simpl in *.
  2: { apply handle_disconnect_ended. }
  destruct msg; try discriminate.
  destruct (assoc "type" items) as [v | ] eqn:Ea; [ | discriminate].
  unfold exec, process_message, bind at 1, gets at 1. rewrite E.
  unfold try_pass, bind at 1, dict_get. rewrite Ea. unfold ret at 1.
  destruct v; try discriminate. simpl in Ht.
  apply orb_true_iff in Ht. destruct Ht as [Ht | Ht];
    apply String.eqb_eq in Ht; subst s; simpl.
  - apply handle_resign_ended.
  - apply handle_disconnect_ended.
Qed.

Lemma ended_after_ended (g : nat) (ts : list trigger) (st : Server) :
  ended (games st g) = true ->
  run g ts st = st /\
  rises true (ended_after g ts st) = 0 /\ falls true (ended_after g ts st) = 0.
Proof.
  intro H. induction ts as [ | t rest IH]; simpl; [auto | ].
  unfold exec. rewrite fire_ended_noop by exact H. simpl. rewrite H. simpl.
  exact IH.
Qed.

Lemma rises_at_most_once (g : nat) (ts : list trigger) (st : Server) :
  rises (ended (games st g)) (ended_after g ts st) <= 1 /\
  falls (ended (games st g)) (ended_after g ts st) = 0.
Proof.
  revert st. induction ts as [ | t rest IH]; intro st; simpl; [auto | ].
  destruct (ended (games st g)) eqn:E.
  - assert (E' : ended (games (exec (fire g t) st) g) = true)
      by (apply (fire_keeps_ended g t st), E).
    rewrite E'. simpl.
    destruct (ended_after_ended g rest (exec (fire g t) st) E') as (_ & Hr & Hf).
    rewrite Hr, Hf. auto.
  - destruct (ended (games (exec (fire g t) st) g)) eqn:E'; simpl.
    + destruct (ended_after_ended g rest (exec (fire g t) st) E') as (_ & Hr & Hf).
      rewrite Hr, Hf. auto.
    + specialize (IH (exec (fire g t) st)). rewrite E' in IH. exact IH.
Qed.

Lemma rises_once (g : nat) (ts : list trigger) (st : Server) :
  ended (games st g) = false ->
  existsb ends_game ts = true ->
  rises false (ended_after g ts st) = 1 /\ ended (games (run g ts st) g) = true.
Proof.
  revert st. induction ts as [ | t rest IH]; intros st E Hex; simpl in *; [discriminate | ].
  destruct (ended (games (exec (fire g t) st) g)) eqn:E'; simpl.
  - destruct (ended_after_ended g rest (exec (fire g t) st) E') as (Hrun & Hr & _).
    rewrite Hr, Hrun. auto.
  - destruct (ends_game t) eqn:Ht.
    + rewrite (fire_ends g t st Ht) in E'. discriminate.
    + simpl in Hex. apply IH; assumption.
Qed.

End Ended.

(** C1. A game ends once.  When [ended] is true, [process_message] and the
    forfeit path [_handle_disconnect] return at once and leave the whole
    state (flag, board, sessions, what was sent) as it was, and the monitor
    leaves its loop without a change; nothing that can
    happen to any game sets the flag of an ended game back; along any run of
    triggers the flag goes from false to true at most once and never from
    true to false; and if the run holds a resignation, a quit or a
    disconnect, it goes to true exactly once and stays. *)
Theorem game_ends_exactly_once `{RE : RulesEngine}
    (g : nat) (ts : list trigger) (st : Server) :
  (forall t, ended (games st g) = true -> fire g t st = (Ok tt, st)) /\
  (ended (games st g) = true -> monitor_loop g st = (Ok false, st)) /\
  (forall g' t, ended (games st g) = true ->
                ended (games (exec (fire g' t) st) g) = true) /\
  rises (ended (games st g)) (ended_after g ts st) <= 1 /\
  falls (ended (games st g)) (ended_after g ts st) = 0 /\
  (ended (games st g) = false -> existsb ends_game ts = true ->
   rises false (ended_after g ts st) = 1 /\
   ended (games (run g ts st) g) = true).
Proof.
  split; [intros t H; apply fire_ended_noop, H | ].
  split; [intro H; unfold monitor_loop, bind, gets; rewrite H; reflexivity | ].
  split; [intros g' t H; apply (fire_keeps_ended g' t st), H | ].
  split; [apply rises_at_most_once | ].
  split; [apply rises_at_most_once | ].
  apply rises_once.
Qed.

Lemma game_ends_exactly_once_witness :
  let ts := [Message 0 (VDict [("type", VStr "resign")]);
             Message 1 (VDict [("type", VStr "quit")]);
             Disconnected 0] in
  ended (games Scripted.paired 0) = false /\
  existsb ends_game ts = true /\
  rises false (ended_after 0 ts Scripted.paired) = 1 /\
  ended (games (run 0 ts Scripted.paired) 0) = true.
Proof.
  intro ts. split; [reflexivity | ]. split; [reflexivity | ].
  apply (game_ends_exactly_once 0 ts Scripted.paired); reflexivity.
Defined.

(** ** What a send leaves behind *)

Section Sends.
Context {RE : RulesEngine}.

Lemma send_deliver c obj st :
  send c obj st =
    (if accepts (clients st c) then Ok tt else Raise OSError, deliver c obj st).
Proof.
  unfold send, deliver. destruct (accepts (clients st c)); reflexivity.
Qed.

Lemma try_send c obj st : try_pass (send c obj) st = (Ok tt, deliver c obj st).
Proof. unfold try_pass. now rewrite send_deliver. Qed.

Lemma bind_send {B} c obj (k : unit -> M B) st :
  bind (send c obj) k st =
    if accepts (clients st c) then k tt (deliver c obj st)
    else (Raise OSError, deliver c obj st).
Proof.
  unfold bind. rewrite send_deliver. destruct (accepts (clients st c)); reflexivity.
Qed.

Lemma games_deliver c obj st : games (deliver c obj st) = games st.
Proof. reflexivity. Qed.

Lemma queue_deliver c obj st : waiting_queue (deliver c obj st) = waiting_queue st.
Proof. reflexivity. Qed.

Lemma clients_deliver_other c obj st c' :
  c' <> c -> clients (deliver c obj st) c' = clients st c'.
Proof.
  intro H. unfold deliver. simpl. apply Nat.eqb_neq in H. rewrite H. reflexivity.
Qed.

Lemma outbox_deliver c obj st c' :
  outbox (clients (deliver c obj st) c') =
    if Nat.eqb c' c then (outbox (clients st c) ++ written (clients st c) [obj])%list
    else outbox (clients st c').
Proof.
  unfold deliver, written. simpl. destruct (Nat.eqb c' c); [ | reflexivity].
  destruct (accepts (clients st c)); simpl; [reflexivity | ].
  rewrite app_nil_r. reflexivity.
Qed.

Lemma accepts_deliver c obj st c' :
  accepts (clients (deliver c obj st) c') = accepts (clients st c').
Proof.
  unfold deliver. simpl. destruct (Nat.eqb c' c) eqn:E; [ | reflexivity].
  apply Nat.eqb_eq in E. subst c'.
  destruct (accepts (clients st c)) eqn:Ea; exact Ea.
Qed.

Lemma color_deliver c obj st c' :
  color (clients (deliver c obj st) c') = color (clients st c').
Proof.
  unfold deliver. simpl. destruct (Nat.eqb c' c) eqn:E; [ | reflexivity].
  apply Nat.eqb_eq in E. subst c'.
  destruct (accepts (clients st c)); reflexivity.
Qed.

Lemma name_deliver c obj st c' :
  name (clients (deliver c obj st) c') = name (clients st c').
Proof.
  unfold deliver. simpl. destruct (Nat.eqb c' c) eqn:E; [ | reflexivity].
  apply Nat.eqb_eq in E. subst c'.
  destruct (accepts (clients st c)); reflexivity.
Qed.

Lemma closed_deliver c obj st c' :
  closed (clients (deliver c obj st) c') = closed (clients st c').
Proof.
  unfold deliver. simpl. destruct (Nat.eqb c' c) eqn:E; [ | reflexivity].
  apply Nat.eqb_eq in E. subst c'.
  destruct (accepts (clients st c)); reflexivity.
Qed.

Lemma alive_deliver c obj st c' :
  alive (clients (deliver c obj st) c') =
    if Nat.eqb c' c then alive (clients st c) && accepts (clients st c)
    else alive (clients st c').
Proof.
  unfold deliver. simpl. destruct (Nat.eqb c' c); [ | reflexivity].
  destruct (accepts (clients st c)); simpl;
    [rewrite andb_true_r | rewrite andb_false_r]; reflexivity.
Qed.

Lemma end_game_detach g st : _end_game g st = (Ok tt, detach g st).
Proof. reflexivity. Qed.

Lemma outbox_detach g st c : outbox (clients (detach g st) c) = outbox (clients st c).
Proof.
  unfold detach, _end_game, bind, modify, gets. simpl.
  repeat match goal with
         | |- context [Nat.eqb ?a ?b] =>
             let E := fresh "E" in
             destruct (Nat.eqb a b) eqn:E;
             [apply Nat.eqb_eq in E; try rewrite <- E | ]
         end; reflexivity.
Qed.

Lemma ended_detach g st : ended (games (detach g st) g) = true.
Proof. apply end_game_ended. Qed.

Lemma board_detach g st g' : board (games (detach g st) g') = board (games st g').
Proof.
  unfold detach, _end_game, bind, modify, gets. simpl.
  destruct (Nat.eqb g' g) eqn:E; [ | reflexivity].
  apply Nat.eqb_eq in E. subst g'. reflexivity.
Qed.

Lemma peer_differs (gm : Game) (c : nat) :
  white gm <> black gm -> _peer gm c <> c.
Proof.
  intro H. unfold _peer. destruct (Nat.eqb c (white gm)) eqn:E.
  - apply Nat.eqb_eq in E. congruence.
  - apply Nat.eqb_neq in E. congruence.
Qed.

(** The forfeit path on a game that has not ended *)
Lemma handle_disconnect_live (g d : nat) (st : Server) :
  ended (games st g) = false ->
  let peer := _peer (games st g) d in
  exec (_handle_disconnect g d) st =
    detach g (if accepts (clients st peer)
              then deliver peer (Result "forfeit" (color (clients st peer)))
                     (deliver peer OpponentLeft st)
              else deliver peer OpponentLeft st).
Proof.
  intros E peer. unfold exec, _handle_disconnect, bind at 1, gets at 1.
  rewrite E. rewrite bind_try_pass. fold peer. rewrite end_game_detach. simpl.
  f_equal. rewrite bind_send. destruct (accepts (clients st peer)); [ | reflexivity].
  unfold bind, gets. rewrite send_deliver, color_deliver. reflexivity.
Qed.

(** [monitor_loop] enters the forfeit path for the session that it finds
    dead, white first, and leaves its loop. *)
Lemma monitor_loop_forfeits (g : nat) (st : Server) :
  ended (games st g) = false ->
  let gm := games st g in
  (alive (clients st (white gm)) = false ->
   monitor_loop g st = (Ok false, exec (_handle_disconnect g (white gm)) st)) /\
  (alive (clients st (white gm)) = true ->
   alive (clients st (black gm)) = false ->
   monitor_loop g st = (Ok false, exec (_handle_disconnect g (black gm)) st)) /\
  (alive (clients st (white gm)) = true ->
   alive (clients st (black gm)) = true ->
   monitor_loop g st = (Ok true, st)).
Proof.
  intros E gm.
  assert (Hok : forall c, fst (_handle_disconnect g c st) = Ok tt).
  { intro c. unfold _handle_disconnect, bind at 1, gets at 1. rewrite E.
    rewrite bind_try_pass. reflexivity. }
  unfold exec. subst gm. repeat split.
  - intro Hw. specialize (Hok (white (games st g))).
    unfold monitor_loop, bind, gets, ret. rewrite E. simpl. rewrite Hw. simpl.
    destruct (_handle_disconnect g (white (games st g)) st) as [r st']. simpl in *.
    rewrite Hok. reflexivity.
  - intros Hw Hb. specialize (Hok (black (games st g))).
    unfold monitor_loop, bind, gets, ret. rewrite E. simpl. rewrite Hw. simpl.
    rewrite Hb. simpl.
    destruct (_handle_disconnect g (black (games st g)) st) as [r st']. simpl in *.
    rewrite Hok. reflexivity.
  - intros Hw Hb.
    unfold monitor_loop, bind, gets, ret. rewrite E. simpl. rewrite Hw. simpl.
    rewrite Hb. reflexivity.
Qed.

End Sends.

(** C4. On a game that has not ended, the forfeit path for a disconnected
    session writes to the other session of the game, the survivor, an
    [opponent_left] message followed by a [result] message with outcome
    "forfeit" and the survivor's colour as winner (both are written when the
    survivor's connection takes writes); no other session, and so not the
    disconnected one, is sent anything; and the game has ended. *)
Theorem forfeit_notifies_survivor `{RE : RulesEngine}
    (g d : nat) (st : Server) :
  ended (games st g) = false ->
  white (games st g) <> black (games st g) ->
  let peer := _peer (games st g) d in
  let st' := exec (_handle_disconnect g d) st in
  outbox (clients st' peer) =
    (outbox (clients st peer) ++
     written (clients st peer)
       [OpponentLeft; Result "forfeit" (color (clients st peer))])%list /\
  (forall c, c <> peer -> outbox (clients st' c) = outbox (clients st c)) /\
  outbox (clients st' d) = outbox (clients st d) /\
  ended (games st' g) = true.
Proof.
  intros E Hwb peer st'.
  assert (Hd : d <> peer) by (apply not_eq_sym, peer_differs, Hwb).
  assert (Hst := handle_disconnect_live g d st E). simpl in Hst. fold peer st' in Hst.
  assert (Hothers : forall c, c <> peer -> outbox (clients st' c) = outbox (clients st c)).
  { intros c Hc. rewrite Hst, outbox_detach. apply Nat.eqb_neq in Hc.
    destruct (accepts (clients st peer)); rewrite ?outbox_deliver, Hc; reflexivity. }
  repeat split; auto.
  - rewrite Hst, outbox_detach. unfold written.
    destruct (accepts (clients st peer)) eqn:Ea.
    + rewrite !outbox_deliver, Nat.eqb_refl. unfold written.
      rewrite accepts_deliver, Ea, <- app_assoc. reflexivity.
    + rewrite outbox_deliver, Nat.eqb_refl. unfold written. rewrite Ea. reflexivity.
  - rewrite Hst. apply ended_detach.
Qed.

Lemma forfeit_notifies_survivor_witness :
  let st' := exec (_handle_disconnect 0 0) Scripted.paired in
  outbox (clients st' 1) =
    (outbox (clients Scripted.paired 1) ++
     [OpponentLeft; Result "forfeit" (Some "black")])%list /\
  outbox (clients st' 0) = outbox (clients Scripted.paired 0) /\
  ended (games st' 0) = true.
Proof.
  destruct (forfeit_notifies_survivor 0 0 Scripted.paired) as (H1 & _ & H3 & H4).
  - reflexivity.
  - intro H. vm_compute in H. discriminate H.
  - exact (conj H1 (conj H3 H4)).
Defined.

(** ** Dispatch *)

Section Dispatch.
Context {RE : RulesEngine}.

Lemma process_message_live (g sender : nat) (items : list (string * value))
    (mtype : value) (st : Server) :
  ended (games st g) = false ->
  assoc "type" items = Some mtype ->
  exec (process_message g sender (VDict items)) st =
    exec (if eq_str mtype "move" then _handle_move g sender (VDict items)
          else if eq_str mtype "chat" then _handle_chat g sender (VDict items)
          else if eq_str mtype "resign" then _handle_resign g sender
          else if eq_str mtype "quit" then _handle_disconnect g sender
          else send sender (Illegal "unknown command")) st.
Proof.
  intros E Ht. unfold exec, process_message, bind at 1, gets at 1. rewrite E.
  unfold try_pass, bind at 1, dict_get. rewrite Ht. reflexivity.
Qed.

Lemma handle_resign_live (g sender : nat) (st : Server) :
  ended (games st g) = false ->
  let peer := _peer (games st g) sender in
  let r := Result "resign" (color (clients st peer)) in
  exec (_handle_resign g sender) st = detach g (deliver peer r (deliver sender r st)).
Proof.
  intros E peer r. unfold exec, _handle_resign, bind at 1, gets at 1. rewrite E.
  unfold bind at 1, gets at 1. rewrite !bind_try_pass, !send_deliver. reflexivity.
Qed.

Lemma deliver_only_reply c obj st : only_reply c obj st (deliver c obj st).
Proof.
  repeat split.
  - rewrite outbox_deliver, Nat.eqb_refl. reflexivity.
  - intros c' H. apply clients_deliver_other, H.
Qed.

Lemma exec_send c obj st : exec (send c obj) st = deliver c obj st.
Proof. unfold exec. rewrite send_deliver. reflexivity. Qed.

Lemma handle_move_not_str g sender items st :
  (forall s, assoc "uci" items <> Some (VStr s)) ->
  exec (_handle_move g sender (VDict items)) st =
    deliver sender (Illegal "bad move format") st.
Proof.
  intro H. unfold exec, _handle_move, bind at 1, dict_get.
  destruct (assoc "uci" items) as [v | ] eqn:Ev; unfold ret.
  - destruct v; try (simpl; rewrite send_deliver; reflexivity).
    exfalso. apply (H s). reflexivity.
  - simpl. rewrite send_deliver. reflexivity.
Qed.

Lemma handle_move_wrong_turn g sender items uci st :
  assoc "uci" items = Some (VStr uci) ->
  color (clients st sender) <> Some (turn_color (board (games st g))) ->
  exec (_handle_move g sender (VDict items)) st =
    deliver sender (Illegal "not your turn") st.
Proof.
  intros Hu Hc. unfold exec, _handle_move, bind at 1, dict_get. rewrite Hu.
  unfold ret. simpl. unfold bind at 1, gets at 1. unfold bind at 1, gets at 1.
  destruct (color (clients st sender)) as [k | ] eqn:Ek.
  - destruct (String.eqb k (turn_color (board (games st g)))) eqn:Eq.
    + apply String.eqb_eq in Eq. subst k. congruence.
    + simpl. rewrite send_deliver. reflexivity.
  - simpl. rewrite send_deliver. reflexivity.
Qed.

Lemma handle_move_bad_uci g sender items uci st :
  assoc "uci" items = Some (VStr uci) ->
  color (clients st sender) = Some (turn_color (board (games st g))) ->
  new_move uci = None ->
  exec (_handle_move g sender (VDict items)) st =
    deliver sender (Illegal "bad uci") st.
Proof.
  intros Hu Hc Hm. unfold exec, _handle_move, bind at 1, dict_get. rewrite Hu.
  unfold ret. simpl. unfold bind at 1, gets at 1. unfold bind at 1, gets at 1.
  rewrite Hc, String.eqb_refl. simpl. rewrite Hm, send_deliver. reflexivity.
Qed.

End Dispatch.

(** C5. A resignation on a game that has not ended makes the sender's peer
    the winner, whatever the position: the sender and the peer are each
    written a [result] message with outcome "resign" and the peer's colour
    as winner (each connection that takes writes gets it), no third session
    is sent anything, and the game has ended.  The sender's peer is the
    other session of the game. *)
Theorem resign_declares_peer_winner `{RE : RulesEngine}
    (g sender : nat) (items : list (string * value)) (st : Server) :
  ended (games st g) = false ->
  assoc "type" items = Some (VStr "resign") ->
  white (games st g) <> black (games st g) ->
  let peer := _peer (games st g) sender in
  let r := Result "resign" (color (clients st peer)) in
  let st' := exec (process_message g sender (VDict items)) st in
  outbox (clients st' sender) =
    (outbox (clients st sender) ++ written (clients st sender) [r])%list /\
  outbox (clients st' peer) =
    (outbox (clients st peer) ++ written (clients st peer) [r])%list /\
  (forall c, c <> sender -> c <> peer ->
             outbox (clients st' c) = outbox (clients st c)) /\
  ended (games st' g) = true /\
  (sender = white (games st g) -> peer = black (games st g)) /\
  (sender = black (games st g) -> peer = white (games st g)).
Proof.
  intros E Ht Hwb peer r st'.
  assert (Hp : peer <> sender) by (apply peer_differs, Hwb).
  assert (Hst : st' = detach g (deliver peer r (deliver sender r st))).
  { subst st'. rewrite (process_message_live g sender items _ st E Ht). simpl.
    apply handle_resign_live, E. }
  rewrite Hst. repeat split.
  - rewrite outbox_detach, !outbox_deliver.
    apply Nat.eqb_neq in Hp. rewrite Nat.eqb_sym in Hp. rewrite Hp, Nat.eqb_refl.
    reflexivity.
  - rewrite outbox_detach, !outbox_deliver, Nat.eqb_refl.
    rewrite (clients_deliver_other sender r st peer Hp).
    apply Nat.eqb_neq in Hp. rewrite Hp. reflexivity.
  - intros c Hs Hc. rewrite outbox_detach, !outbox_deliver.
    apply Nat.eqb_neq in Hs, Hc. rewrite Hs, Hc. reflexivity.
  - apply ended_detach.
  - intro H. unfold peer, _peer. rewrite H, Nat.eqb_refl. reflexivity.
  - intro H. unfold peer, _peer. rewrite H.
    destruct (Nat.eqb (black (games st g)) (white (games st g))) eqn:Eb; [ | reflexivity].
    apply Nat.eqb_eq in Eb. congruence.
Qed.

Lemma resign_declares_peer_winner_witness :
  let st' := exec (process_message 0 1 (VDict [("type", VStr "resign")]))
                  Scripted.paired in
  outbox (clients st' 1) =
    (outbox (clients Scripted.paired 1) ++ [Result "resign" (Some "white")])%list /\
  outbox (clients st' 0) =
    (outbox (clients Scripted.paired 0) ++ [Result "resign" (Some "white")])%list /\
  ended (games st' 0) = true.
Proof.
  destruct (resign_declares_peer_winner 0 1 [("type", VStr "resign")] Scripted.paired)
    as (H1 & H2 & _ & H4 & _).
  - reflexivity.
  - reflexivity.
  - intro H. vm_compute in H. discriminate H.
  - exact (conj H1 (conj H2 H4)).
Defined.

(** C6. A move message with a string for its move field, from a session
    whose colour is not the side to move of the board, is answered to the
    sender alone with [illegal], reason "not your turn"; nothing else
    changes: the board and the [ended] flag of every game, the other
    sessions (no [state] or other message goes to anyone else) and the
    queue are as before. *)
Theorem out_of_turn_move_rejected `{RE : RulesEngine}
    (g sender : nat) (items : list (string * value)) (uci : string) (st : Server) :
  ended (games st g) = false ->
  assoc "type" items = Some (VStr "move") ->
  assoc "uci" items = Some (VStr uci) ->
  color (clients st sender) <> Some (turn_color (board (games st g))) ->
  only_reply sender (Illegal "not your turn") st
             (exec (process_message g sender (VDict items)) st).
Proof.
  intros E Ht Hu Hc.
  rewrite (process_message_live g sender items _ st E Ht). simpl.
  rewrite (handle_move_wrong_turn g sender items uci st Hu Hc).
  apply deliver_only_reply.
Qed.

Lemma out_of_turn_move_rejected_witness :
  only_reply 1 (Illegal "not your turn") Scripted.paired
             (exec (process_message 0 1 (Scripted.in_move "e7e5")) Scripted.paired).
Proof.
  apply (out_of_turn_move_rejected 0 1 _ "e7e5"); try reflexivity.
  intro H. vm_compute in H. discriminate H.
Defined.

(** C2, as the code has it.  A move message whose move field is absent or
    is not a string is answered to the sender alone with [illegal], reason
    "bad move format".  A move field that is a string is never refused for
    its format at that point: when it comes from the side to move and
    [Move(uci)] raises on it (it does not parse as a move), the sender alone
    is answered [illegal] with reason "bad uci".  In both cases the board
    and the [ended] flag of every game, the other sessions and the queue
    are as before: no [state] message goes to either peer. *)
Theorem bad_move_field_rejected `{RE : RulesEngine}
    (g sender : nat) (items : list (string * value)) (st : Server) :
  ended (games st g) = false ->
  assoc "type" items = Some (VStr "move") ->
  let st' := exec (process_message g sender (VDict items)) st in
  ((forall s, assoc "uci" items <> Some (VStr s)) ->
   only_reply sender (Illegal "bad move format") st st') /\
  (forall uci, assoc "uci" items = Some (VStr uci) ->
               color (clients st sender) = Some (turn_color (board (games st g))) ->
               new_move uci = None ->
               only_reply sender (Illegal "bad uci") st st').
Proof.
  intros E Ht st'. subst st'.
  rewrite (process_message_live g sender items _ st E Ht). simpl. split.
  - intro H. rewrite (handle_move_not_str g sender items st H).
    apply deliver_only_reply.
  - intros uci Hu Hc Hm. rewrite (handle_move_bad_uci g sender items uci st Hu Hc Hm).
    apply deliver_only_reply.
Qed.

Lemma bad_move_field_rejected_witness :
  let st := exec (process_message 0 0 (Scripted.in_move "e2e4")) Scripted.paired in
  only_reply 1 (Illegal "bad move format") st
    (exec (process_message 0 1 (VDict [("type", VStr "move"); ("uci", VInt 5)])) st) /\
  only_reply 1 (Illegal "bad uci") st
    (exec (process_message 0 1 (Scripted.in_move "e7e5x")) st).
Proof.
  intro st. split.
  - apply (bad_move_field_rejected 0 1 [("type", VStr "move"); ("uci", VInt 5)] st).
    + reflexivity.
    + reflexivity.
    + intros s H. discriminate H.
  - apply (bad_move_field_rejected 0 1 [("type", VStr "move"); ("uci", VStr "e7e5x")] st)
      with (uci := "e7e5x"); reflexivity.
Defined.


(** C2 as the specification states it fails on a string: after white's
    [e2e4], black's move token [e7e5x], which is not a move, is answered
    "bad uci", and sent out of turn it is answered "not your turn"; neither
    answer is "bad move format". *)
Lemma bad_move_format_counterexample :
  let st := exec (process_message 0 0 (Scripted.in_move "e2e4")) Scripted.paired in
  let st' := exec (process_message 0 1 (Scripted.in_move "e7e5x")) st in
  let st0' := exec (process_message 0 1 (Scripted.in_move "e7e5x")) Scripted.paired in
  @new_move Scripted.engine "e7e5x" = None /\
  outbox (clients st' 1) = (outbox (clients st 1) ++ [Illegal "bad uci"])%list /\
  ~ only_reply 1 (Illegal "bad move format") st st' /\
  outbox (clients st0' 1) =
    (outbox (clients Scripted.paired 1) ++ [Illegal "not your turn"])%list /\
  ~ only_reply 1 (Illegal "bad move format") Scripted.paired st0'.
Proof.
  intros st st' st0'. split; [reflexivity | ].
  split; [vm_compute; reflexivity | ].
  split; [ | split; [vm_compute; reflexivity | ] ].
  - intros [H _]. vm_compute in H. discriminate H.
  - intros [H _]. vm_compute in H. discriminate H.
Qed.

(** ** Accepted moves *)

Section Moves.
Context {RE : RulesEngine}.

Lemma try_broadcast a b obj st :
  try_pass (send a obj;; send b obj) st = (Ok tt, broadcast a b obj st).
Proof.
  unfold try_pass, broadcast. rewrite bind_send.
  destruct (accepts (clients st a)); [ | reflexivity].
  rewrite send_deliver. reflexivity.
Qed.

Lemma snd_broadcast a b obj st :
  snd ((send a obj;; send b obj) st) = broadcast a b obj st.
Proof. change (snd (try_pass (send a obj;; send b obj) st) = broadcast a b obj st).
  rewrite try_broadcast. reflexivity. Qed.

Lemma games_broadcast a b obj st : games (broadcast a b obj st) = games st.
Proof. unfold broadcast. destruct (accepts (clients st a)); reflexivity. Qed.

Lemma accepts_broadcast a b obj st c :
  accepts (clients (broadcast a b obj st) c) = accepts (clients st c).
Proof.
  unfold broadcast. destruct (accepts (clients st a));
    rewrite ?accepts_deliver; reflexivity.
Qed.

Lemma color_broadcast a b obj st c :
  color (clients (broadcast a b obj st) c) = color (clients st c).
Proof.
  unfold broadcast. destruct (accepts (clients st a));
    rewrite ?color_deliver; reflexivity.
Qed.

(** Both connections take writes: each of the two gets the object once. *)
Lemma outbox_broadcast a b obj st c :
  a <> b ->
  accepts (clients st a) = true -> accepts (clients st b) = true ->
  outbox (clients (broadcast a b obj st) c) =
    (outbox (clients st c) ++
     (if Nat.eqb c a || Nat.eqb c b then [obj] else []))%list.
Proof.
  intros Hab Ha Hb. unfold broadcast. rewrite Ha, !outbox_deliver.
  unfold written. rewrite accepts_deliver, Ha, Hb.
  destruct (Nat.eqb c b) eqn:Ecb.
  - apply Nat.eqb_eq in Ecb. subst c.
    assert (E : Nat.eqb b a = false) by (apply Nat.eqb_neq; congruence).
    rewrite E. reflexivity.
  - rewrite orb_false_r. destruct (Nat.eqb c a) eqn:Eca.
    + apply Nat.eqb_eq in Eca. subst c. reflexivity.
    + rewrite app_nil_r. reflexivity.
Qed.

Lemma send_state_broadcast g st :
  _send_state g st =
    (Ok tt,
     broadcast (white (games st g)) (black (games st g))
       (State (board_fen (board (games st g))) (turn_color (board (games st g)))
              (_in_check (board (games st g)) (board_turn (board (games st g)))))
       st).
Proof. unfold _send_state, bind at 1, gets at 1. apply try_broadcast. Qed.

Lemma check_terminal_spec g st :
  exec (check_terminal g) st =
    match terminal_message (board_result (board (games st g))) with
    | Some obj => detach g (broadcast (white (games st g)) (black (games st g)) obj st)
    | None => st
    end.
Proof.
  unfold exec, check_terminal, bind at 1, gets at 1, terminal_message.
  destruct (board_result (board (games st g))) as [r | ]; [ | reflexivity].
  destruct (String.eqb r ""); [reflexivity | ].
  destruct (String.eqb r "1-0"); [ | destruct (String.eqb r "0-1")];
    cbv iota beta; rewrite bind_try_pass, snd_broadcast; reflexivity.
Qed.

Lemma handle_move_accepted g sender items uci mv reason b' st :
  assoc "uci" items = Some (VStr uci) ->
  color (clients st sender) = Some (turn_color (board (games st g))) ->
  new_move uci = Some mv ->
  make_move (board (games st g)) mv = ((true, reason), b') ->
  let w := white (games st g) in
  let b := black (games st g) in
  exec (_handle_move g sender (VDict items)) st =
    exec (check_terminal g)
      (broadcast w b (State (board_fen b') (turn_color b') (_in_check b' (board_turn b')))
         (broadcast w b (MoveOk (move_uci mv) (color (clients st sender)))
            (upd_game g (set_board b') st))).
Proof.
  intros Hu Hc Hm Hmk w b. unfold exec, _handle_move, bind at 1, dict_get. rewrite Hu.
  unfold ret. simpl. unfold bind at 1, gets at 1. unfold bind at 1, gets at 1.
  rewrite Hc, String.eqb_refl. simpl. rewrite Hm, Hmk.
  unfold bind at 1, modify at 1. simpl.
  unfold bind at 1, gets at 1. rewrite bind_try_pass, snd_broadcast. simpl.
  unfold bind at 1. rewrite send_state_broadcast. simpl.
  rewrite games_broadcast. simpl. rewrite Nat.eqb_refl. simpl. rewrite Hc. reflexivity.
Qed.

End Moves.

(** C7. After a move that the board accepted: if the board reports a
    result, the game has ended, and both peers (in a game whose two
    connections take writes) were written [move_ok], the new [state] and
    then the [result] message that [terminal_message] gives for the result
    ("1-0": checkmate, winner white; "0-1": checkmate, winner black; any
    other result: stalemate, no winner); if the board reports no result,
    the game has not ended and no [result] message follows [move_ok] and
    [state]. *)
Theorem terminal_result_ends_game `{RE : RulesEngine}
    (g sender : nat) (items : list (string * value)) (uci : string)
    (mv : Move) (reason : string) (b' : Board) (st : Server) :
  ended (games st g) = false ->
  assoc "type" items = Some (VStr "move") ->
  assoc "uci" items = Some (VStr uci) ->
  color (clients st sender) = Some (turn_color (board (games st g))) ->
  new_move uci = Some mv ->
  make_move (board (games st g)) mv = ((true, reason), b') ->
  let w := white (games st g) in
  let b := black (games st g) in
  let st' := exec (process_message g sender (VDict items)) st in
  let accepted :=
    [MoveOk (move_uci mv) (color (clients st sender));
     State (board_fen b') (turn_color b') (_in_check b' (board_turn b'))] in
  let both_take_writes :=
    w <> b /\ accepts (clients st w) = true /\ accepts (clients st b) = true in
  board (games st' g) = b' /\
  match terminal_message (board_result b') with
  | Some res =>
      ended (games st' g) = true /\
      (both_take_writes ->
       outbox (clients st' w) = (outbox (clients st w) ++ accepted ++ [res])%list /\
       outbox (clients st' b) = (outbox (clients st b) ++ accepted ++ [res])%list)
  | None =>
      ended (games st' g) = false /\
      (both_take_writes ->
       outbox (clients st' w) = (outbox (clients st w) ++ accepted)%list /\
       outbox (clients st' b) = (outbox (clients st b) ++ accepted)%list)
  end.
Proof.
  intros E Ht Hu Hc Hm Hmk w b st' accepted both_take_writes.
  set (st1 := upd_game g (set_board b') st).
  set (st2 := broadcast w b (MoveOk (move_uci mv) (color (clients st sender))) st1).
  set (st3 := broadcast w b (State (board_fen b') (turn_color b')
                                   (_in_check b' (board_turn b'))) st2).
  assert (Hg3 : games st3 g = set_board b' (games st g)).
  { unfold st3, st2. rewrite !games_broadcast. simpl. rewrite Nat.eqb_refl. reflexivity. }
  assert (Hst : st' = exec (check_terminal g) st3).
  { unfold st'. rewrite (process_message_live g sender items _ st E Ht). simpl.
    apply (handle_move_accepted g sender items uci mv reason b' st); assumption. }
  assert (Ho3 : both_take_writes ->
            forall c, outbox (clients st3 c) =
              (outbox (clients st c) ++
               (if Nat.eqb c w || Nat.eqb c b then accepted else []))%list).
  { intros (Hwb & Hw & Hb) c.
    assert (Hw2 : accepts (clients st2 w) = true)
      by (unfold st2; rewrite accepts_broadcast; exact Hw).
    assert (Hb2 : accepts (clients st2 b) = true)
      by (unfold st2; rewrite accepts_broadcast; exact Hb).
    unfold st3. rewrite (outbox_broadcast w b _ st2 c Hwb Hw2 Hb2).
    unfold st2. rewrite (outbox_broadcast w b _ st1 c Hwb Hw Hb). simpl.
    rewrite <- app_assoc. destruct (Nat.eqb c w || Nat.eqb c b); reflexivity. }
  rewrite Hst, check_terminal_spec, Hg3. simpl.
  destruct (terminal_message (board_result b')) as [res | ].
  - split; [rewrite board_detach, games_broadcast, Hg3; reflexivity | ].
    split; [apply ended_detach | ].
    intro Hboth. specialize (Ho3 Hboth). destruct Hboth as (Hwb & Hw & Hb).
    assert (Hbw : Nat.eqb b w = false) by (apply Nat.eqb_neq; congruence).
    assert (Hw3 : accepts (clients st3 w) = true)
      by (unfold st3, st2; rewrite !accepts_broadcast; exact Hw).
    assert (Hb3 : accepts (clients st3 b) = true)
      by (unfold st3, st2; rewrite !accepts_broadcast; exact Hb).
    rewrite !outbox_detach.
    rewrite !(outbox_broadcast (white (games st g)) (black (games st g)) res st3 _ Hwb Hw3 Hb3).
    rewrite !Ho3. fold w b. rewrite Nat.eqb_refl, Hbw, Nat.eqb_refl. simpl.
    rewrite <- !app_assoc. split; reflexivity.
  - split; [rewrite Hg3; reflexivity | ].
    split; [rewrite Hg3; exact E | ].
    intro Hboth. specialize (Ho3 Hboth). destruct Hboth as (Hwb & Hw & Hb).
    assert (Hbw : Nat.eqb b w = false) by (apply Nat.eqb_neq; congruence).
    rewrite !Ho3, Nat.eqb_refl, Hbw, Nat.eqb_refl. simpl. split; reflexivity.
Qed.

Lemma terminal_result_ends_game_witness :
  let st := run 0 [Message 0 (Scripted.in_move "f2f3");
                   Message 1 (Scripted.in_move "e7e5");
                   Message 0 (Scripted.in_move "g2g4")] Scripted.paired in
  let st' := exec (process_message 0 1 (Scripted.in_move "d8h4")) st in
  let b' := Scripted.mkBoard "w" (Some "0-1") ["f2f3"; "e7e5"; "g2g4"; "d8h4"] in
  let accepted := [MoveOk "d8h4" (Some "black");
                   State "f2f3 e7e5 g2g4 d8h4" "white" false] in
  board (games st' 0) = b' /\
  outbox (clients st' 0) =
    (outbox (clients st 0) ++ accepted ++ [Result "checkmate" (Some "black")])%list /\
  outbox (clients st' 1) =
    (outbox (clients st 1) ++ accepted ++ [Result "checkmate" (Some "black")])%list /\
  ended (games st' 0) = true.
Proof.
  intros st st' b' accepted.
  pose proof (terminal_result_ends_game (RE := Scripted.engine) 0 1
                [("type", VStr "move"); ("uci", VStr "d8h4")] "d8h4" "d8h4" "" b' st) as H.
  vm_compute in H. vm_compute.
  destruct H as (Hb & He & Ho); try reflexivity.
  destruct Ho as (Ho0 & Ho1).
  - split; [intro H0; discriminate H0 | split; reflexivity].
  - exact (conj Hb (conj Ho0 (conj Ho1 He))).
Defined.

(** ** The lobby *)

Section Lobby.
Context {RE : RulesEngine}.

Lemma start_same_but_sent (g : nat) : always same_but_sent (start g).
Proof.
  apply always_start.
  - intro st. repeat split.
  - intros a b c (Hg & Hq & Hn & Hc) (Hg' & Hq' & Hn' & Hc'). repeat split; try congruence.
  - intros c obj st. repeat split. intro x. apply color_deliver.
Qed.

Lemma matchmaking_waits (st : Server) :
  List.length (waiting_queue st) < 2 -> matchmaking_thread st = (Ok None, st).
Proof.
  intro H. unfold matchmaking_thread, bind at 1, gets at 1.
  apply Nat.ltb_lt in H. rewrite H. reflexivity.
Qed.

Lemma bind_ok {A B} (m : M A) (k : A -> M B) (st : Server) (a : A) (st' : Server) :
  m st = (Ok a, st') -> bind m k st = k a st'.
Proof. intro H. unfold bind. rewrite H. reflexivity. Qed.

Lemma pop0_cons (st : Server) (x : nat) (rest : list nat) :
  waiting_queue st = x :: rest -> pop0 st = (Ok x, set_queue rest st).
Proof. intro H. unfold pop0. rewrite H. reflexivity. Qed.

Lemma Game_init_ok (a b : nat) (st : Server) :
  Game_init a b st = (Ok (n_games st), paired_state a b st).
Proof. reflexivity. Qed.

Lemma matchmaking_pairs (st : Server) (a b : nat) (rest : list nat) :
  waiting_queue st = a :: b :: rest ->
  let g := n_games st in
  let st' := snd (matchmaking_thread st) in
  fst (matchmaking_thread st) = Ok (Some g) /\
  waiting_queue st' = rest /\
  n_games st' = S g /\
  white (games st' g) = a /\ black (games st' g) = b /\
  ended (games st' g) = false /\
  (forall g', g' <> g -> games st' g' = games st g') /\
  color (clients st' b) = Some "black" /\
  (a <> b -> color (clients st' a) = Some "white").
Proof.
  intros Hq g st'.
  assert (Hm : matchmaking_thread st =
               (Ok (Some g),
                snd (start g (paired_state a b (set_queue rest (set_queue (b :: rest) st)))))).
  { unfold matchmaking_thread.
    rewrite (bind_ok (gets waiting_queue) _ st (waiting_queue st) st) by reflexivity.
    rewrite Hq.
    change (Nat.ltb (List.length (a :: b :: rest)) 2) with false. cbv iota.
    rewrite (bind_ok pop0 _ st a (set_queue (b :: rest) st)) by (apply pop0_cons, Hq).
    rewrite (bind_ok pop0 _ _ b (set_queue rest (set_queue (b :: rest) st)))
      by (apply pop0_cons; reflexivity).
    rewrite (bind_ok (Game_init a b) _ _ _ _ (Game_init_ok a b _)).
    rewrite bind_try_pass. reflexivity. }
  set (st1 := paired_state a b (set_queue rest (set_queue (b :: rest) st))) in *.
  assert (Hs : st' = snd (start g st1)) by (subst st'; rewrite Hm; reflexivity).
  assert (Hf : fst (matchmaking_thread st) = Ok (Some g)) by (rewrite Hm; reflexivity).
  rewrite Hf, Hs. clear Hs Hf Hm st'.
  destruct (start_same_but_sent g st1) as (Hg & Hq' & Hn & Hc).
  rewrite Hg, Hq', Hn, !Hc. subst st1.
  unfold paired_state, Game_init, bind, gets, modify, ret. simpl. fold g.
  rewrite !Nat.eqb_refl.
  repeat split; auto.
  - intros g' Hne. apply Nat.eqb_neq in Hne. rewrite Hne. reflexivity.
  - intro Hab. apply Nat.eqb_neq in Hab. rewrite Hab. reflexivity.
Qed.
Lemma dict_get_pure (v : value) (k : string) (st : Server) (res : result value) (st' : Server) :
  dict_get v k st = (res, st') -> st' = st.
Proof.
  unfold dict_get. destruct v; try destruct (assoc k items);
    unfold ret, raise; intro H; inversion H; reflexivity.
Qed.

(** What the handshake does to the queue and the games *)
Lemma handshake_queue (c : nat) (r : read_outcome) (st : Server)
    (res : result bool) (st' : Server) :
  handshake c r st = (res, st') ->
  games st' = games st /\
  n_games st' = n_games st /\
  (res = Ok true -> waiting_queue st' = (waiting_queue st ++ [c])%list).
Proof.
  assert (Hfail : forall reason,
            (send c (Illegal reason);; close c;; ret false) st = (res, st') ->
            games st' = games st /\ n_games st' = n_games st /\
            (res = Ok true -> waiting_queue st' = (waiting_queue st ++ [c])%list)).
  { intros reason H. rewrite bind_send in H.
    destruct (accepts (clients st c)); inversion H; subst; simpl;
      repeat split; auto; discriminate. }
  unfold handshake.
  destruct (negb (truthy (recv_line r))); [apply Hfail | ].
  destruct (negb (is_dict (recv_line r))); [apply Hfail | ].
  unfold bind at 1. destruct (dict_get (recv_line r) "type" st) as [[t | e] st1] eqn:Et;
    apply dict_get_pure in Et; subst st1.
  2: { intro H. inversion H; subst. repeat split; auto; discriminate. }
  destruct (negb (eq_str t "hello")); [apply Hfail | ].
  unfold bind at 1. destruct (dict_get (recv_line r) "name" st) as [[nm | e] st1] eqn:En;
    apply dict_get_pure in En; subst st1.
  2: { intro H. inversion H; subst. repeat split; auto; discriminate. }
  destruct (as_str nm) as [s | ]; [ | apply Hfail].
  destruct (negb (truthy (VStr (strip s)))); [apply Hfail | ].
  unfold bind at 1, modify at 1. unfold bind at 1, gets at 1.
  unfold bind at 1, modify at 1. unfold bind at 1, modify at 1.
  unfold bind at 1, gets at 1. rewrite bind_send.
  match goal with |- context [accepts ?x] => destruct (accepts x) end;
    intro H; inversion H; subst; simpl; repeat split; auto; discriminate.
Qed.

Lemma finally_done (c : nat) (st : Server) :
  fst ((client_finally c;; ret Done) st) <> Ok Waiting.
Proof.
  unfold bind at 1. destruct (client_finally c st) as [[u | e] st']; simpl; discriminate.
Qed.

(** A session thread that is left waiting after its first line has put
    its session at the end of the queue, and touched no game. *)
Lemma client_thread_queued (c : nat) (r : read_outcome) (st st' : Server) :
  client_thread c [r] st = (Ok Waiting, st') ->
  waiting_queue st' = (waiting_queue st ++ [c])%list /\
  games st' = games st /\ n_games st' = n_games st.
Proof.
  unfold client_thread, bind at 1, ClientHandler_init, modify.
  set (st0 := upd_client c _ st).
  destruct (client_try c [r] st0) as [res st1] eqn:Et.
  assert (Hres : res = Ok Waiting ->
                 waiting_queue st1 = (waiting_queue st ++ [c])%list /\
                 games st1 = games st /\ n_games st1 = n_games st).
  { intro Hw. subst res. unfold client_try in Et. rewrite bind_send in Et.
    destruct (accepts (clients st0 c)); [ | discriminate Et].
    unfold bind at 1 in Et.
    destruct (handshake c r (deliver c (Welcome true) st0)) as [hres st2] eqn:Eh.
    apply handshake_queue in Eh. destruct Eh as (Hg & Hn & Hq).
    destruct hres as [[ | ] | e]; try discriminate Et.
    simpl in Et. unfold bind at 1, gets at 1 in Et.
    destruct (negb (alive (clients st2 c))); inversion Et; subst st1.
    rewrite Hg, Hn, (Hq eq_refl). auto. }
  destruct res as [[ | ] | e].
  - intro H. inversion H; subst st1. apply Hres. reflexivity.
  - intro H. exfalso. apply (finally_done c st1). rewrite H. reflexivity.
  - intro H. exfalso. apply (finally_done c st1). rewrite H. reflexivity.
Qed.

Lemma lobby_step_inv (e : lobby_event) (st : Server) (done : list nat) :
  first_pair_inv st done ->
  match e with
  | Connect c hello => outcome (client_thread c [hello]) st = Ok Waiting
  | Matchmake => True
  end ->
  first_pair_inv (lobby_step e st) (done ++ connected [e]).
Proof.
  intros Hinv He. destruct e as [c hello | ]; simpl.
  - unfold outcome, exec in *.
    destruct (client_thread c [hello] st) as [res st'] eqn:Ec. simpl in *. subst res.
    destruct (client_thread_queued c hello st st' Ec) as (Hq & Hg & Hn).
    destruct Hinv as [[H0 Hd] | (Hpos & c1 & c2 & r & Hd & Hw & Hb)].
    + left. split; congruence.
    + right. split; [lia | ]. exists c1, c2, (r ++ [c])%list. subst done.
      rewrite Hg. auto.
  - rewrite app_nil_r. unfold exec.
    destruct (waiting_queue st) as [ | a [ | b rest]] eqn:Eq.
    + rewrite matchmaking_waits by (rewrite Eq; simpl; lia). exact Hinv.
    + rewrite matchmaking_waits by (rewrite Eq; simpl; lia). exact Hinv.
    + destruct (matchmaking_pairs st a b rest Eq) as (_ & _ & Hn & Hw & Hb & _ & Hold & _).
      right. split; [lia | ].
      destruct Hinv as [[H0 Hd] | (Hpos & c1 & c2 & r & Hd & Hw' & Hb')].
      * exists a, b, rest. rewrite H0 in Hw, Hb. repeat split; auto. congruence.
      * exists c1, c2, r. rewrite Hold by lia. auto.
Qed.

Lemma lobby_run_inv (es : list lobby_event) :
  forall (st : Server) (done : list nat),
    first_pair_inv st done -> handshakes_succeed es st ->
    first_pair_inv (lobby_run es st) (done ++ connected es).
Proof.
  induction es as [ | e rest IH]; intros st done Hinv Hs; simpl in *.
  - rewrite app_nil_r. exact Hinv.
  - destruct Hs as [He Hrest].
    specialize (IH (lobby_step e st) (done ++ connected [e])%list
                   (lobby_step_inv e st done Hinv He) Hrest).
    rewrite <- app_assoc in IH. destruct e; exact IH.
Qed.
End Lobby.

(** C3. Matchmaking is first in, first out.  With fewer than two sessions
    queued the matchmaker waits and changes nothing.  With two or more, it
    takes the two oldest entries of the queue, in their order, into a new
    game: the first is white, the second black (and they are given these
    colours), and the queue that remains is the old one without its first
    two entries, in the same order.  Hence, in any run of the process from
    its start in which every handshake succeeds, however the matchmaker's
    turns fall between them, the first game, once there is one, is made of
    the first two sessions that connected, white the first. *)
Theorem matchmaking_is_fifo `{RE : RulesEngine}
    (st : Server) (conn_ok : nat -> bool) (es : list lobby_event) :
  (List.length (waiting_queue st) < 2 -> matchmaking_thread st = (Ok None, st)) /\
  (2 <= List.length (waiting_queue st) ->
   let g := n_games st in
   let st' := exec matchmaking_thread st in
   outcome matchmaking_thread st = Ok (Some g) /\
   nth_error (waiting_queue st) 0 = Some (white (games st' g)) /\
   nth_error (waiting_queue st) 1 = Some (black (games st' g)) /\
   waiting_queue st' = skipn 2 (waiting_queue st) /\
   color (clients st' (black (games st' g))) = Some "black" /\
   (white (games st' g) <> black (games st' g) ->
    color (clients st' (white (games st' g))) = Some "white")) /\
  (handshakes_succeed es (initial_server conn_ok) ->
   let final := lobby_run es (initial_server conn_ok) in
   0 < n_games final ->
   exists c1 c2 rest,
     connected es = c1 :: c2 :: rest /\
     white (games final 0) = c1 /\ black (games final 0) = c2).
Proof.
  split; [apply matchmaking_waits | ]. split.
  - intros Hlen g st'.
    destruct (waiting_queue st) as [ | a [ | b rest]] eqn:Eq; simpl in Hlen; try lia.
    destruct (matchmaking_pairs st a b rest Eq)
      as (Hf & Hq & _ & Hw & Hb & _ & _ & Hcb & Hca).
    fold g in Hf, Hw, Hb. unfold outcome. subst st'. unfold exec.
    rewrite Hw, Hb, Hq. simpl. repeat split; auto.
  - intros Hs final Hpos.
    assert (Hinv : first_pair_inv final ([] ++ connected es)).
    { apply lobby_run_inv; [ | exact Hs]. left. split; reflexivity. }
    destruct Hinv as [[H0 _] | (_ & c1 & c2 & r & Hd & Hw & Hb)]; [lia | ].
    exists c1, c2, r. auto.
Qed.

Lemma matchmaking_is_fifo_witness :
  let es := [Connect 0 (Scripted.hello "Ann"); Connect 1 (Scripted.hello "Bob");
             Matchmake; Connect 2 (Scripted.hello "Cy"); Matchmake] in
  let final := lobby_run (RE := Scripted.engine) es (initial_server (fun _ => true)) in
  let st' := exec matchmaking_thread Scripted.lobby in
  (2 <= List.length (waiting_queue Scripted.lobby) /\
   nth_error (waiting_queue Scripted.lobby) 0 = Some (white (games st' 0)) /\
   nth_error (waiting_queue Scripted.lobby) 1 = Some (black (games st' 0)) /\
   waiting_queue st' = skipn 2 (waiting_queue Scripted.lobby)) /\
  (exists c1 c2 rest,
     connected es = c1 :: c2 :: rest /\
     white (games final 0) = c1 /\ black (games final 0) = c2).
Proof.
  intros es final st'.
  destruct (matchmaking_is_fifo Scripted.lobby (fun _ => true) es) as (_ & HA & HB).
  split.
  - assert (Hlen : 2 <= List.length (waiting_queue Scripted.lobby))
      by (vm_compute; lia).
    destruct (HA Hlen) as (_ & H2 & H3 & H4 & _).
    exact (conj Hlen (conj H2 (conj H3 H4))).
  - apply HB.
    + vm_compute. repeat split.
    + vm_compute. lia.
Defined.

(** ** Names *)

Lemma all_space_app (a b : string) :
  all_space (a ++ b) = all_space a && all_space b.
Proof.
  induction a as [ | c a IH]; simpl; [reflexivity | ].
  rewrite IH, andb_assoc. reflexivity.
Qed.

Lemma lstrip_spec (s : string) :
  exists l, s = l ++ lstrip s /\ all_space l = true /\
            starts_with_space (lstrip s) = false.
Proof.
  induction s as [ | c s (l & Hs & Hl & Hst)]; simpl.
  - exists "". auto.
  - destruct (py_isspace c) eqn:E.
    + exists (String c l). simpl. rewrite E, Hl, <- Hs. auto.
    + exists "". simpl. auto.
Qed.

Lemma rstrip_spec (s : string) :
  exists r, s = rstrip s ++ r /\ all_space r = true /\
            ends_with_space (rstrip s) = false.
Proof.
  induction s as [ | c s (r & Hs & Hr & He)]; simpl.
  - exists "". auto.
  - destruct (rstrip s) as [ | a t] eqn:Et.
    + simpl in Hs. subst r. destruct (py_isspace c) eqn:E.
      * exists (String c s). simpl. rewrite E, Hr. auto.
      * exists s. simpl. rewrite E. auto.
    + exists r. simpl. rewrite Hs at 1. auto.
Qed.

Lemma rstrip_keeps_start (s : string) :
  starts_with_space s = false -> starts_with_space (rstrip s) = false.
Proof.
  destruct s as [ | c s]; simpl; [auto | ]. intro H.
  destruct (rstrip s); [rewrite H | ]; simpl; auto.
Qed.

Lemma lstrip_all_space (s : string) : all_space s = true -> lstrip s = "".
Proof.
  induction s as [ | c s IH]; simpl; [reflexivity | ].
  intro H. apply andb_true_iff in H. destruct H as [Hc Hs]. rewrite Hc. auto.
Qed.

(** [strip] takes the whitespace off both ends, and nothing else. *)
Lemma strip_spec (s : string) :
  exists l r, s = l ++ strip s ++ r /\
              all_space l = true /\ all_space r = true /\
              starts_with_space (strip s) = false /\
              ends_with_space (strip s) = false.
Proof.
  destruct (lstrip_spec s) as (l & Hs & Hl & Hst).
  destruct (rstrip_spec (lstrip s)) as (r & Hm & Hr & He).
  exists l, r. unfold strip. rewrite <- Hm. repeat split; auto.
  apply rstrip_keeps_start, Hst.
Qed.

Lemma strip_empty (s : string) : strip s = "" <-> all_space s = true.
Proof.
  split.
  - intro H. destruct (strip_spec s) as (l & r & Hs & Hl & Hr & _).
    rewrite H in Hs. simpl in Hs. rewrite Hs, all_space_app, Hl, Hr. reflexivity.
  - intro H. unfold strip. rewrite (lstrip_all_space s H). reflexivity.
Qed.

Lemma decimal_inj (i j : nat) : decimal i = decimal j -> i = j.
Proof.
  unfold decimal. intro H. apply Unsigned.to_uint_inj.
  assert (E : NilEmpty.uint_of_string (NilEmpty.string_of_uint (Nat.to_uint i)) =
              NilEmpty.uint_of_string (NilEmpty.string_of_uint (Nat.to_uint j)))
    by (rewrite H; reflexivity).
  rewrite !NilEmpty.usu in E. inversion E. reflexivity.
Qed.

Lemma append_inj_l (p s1 s2 : string) : p ++ s1 = p ++ s2 -> s1 = s2.
Proof.
  induction p as [ | c p IH]; simpl; intro H; [exact H | ].
  inversion H. apply IH. assumption.
Qed.

Lemma append_not_self (p : string) (c : ascii) (s : string) : p <> p ++ String c s.
Proof.
  induction p as [ | a p IH]; simpl; intro H; [discriminate H | ].
  inversion H. apply IH. assumption.
Qed.

Lemma candidate_succ (original : string) (i : nat) :
  1 <= i -> candidate original (i + 1) = original ++ "_" ++ decimal (i + 1).
Proof.
  intro H. unfold candidate. destruct (Nat.eqb (i + 1) 1) eqn:E; [ | reflexivity].
  apply Nat.eqb_eq in E. lia.
Qed.

Lemma candidate_inj (original : string) (i j : nat) :
  1 <= i -> 1 <= j -> candidate original i = candidate original j -> i = j.
Proof.
  intros Hi Hj. unfold candidate.
  destruct (Nat.eqb i 1) eqn:Ei, (Nat.eqb j 1) eqn:Ej;
    try apply Nat.eqb_eq in Ei; try apply Nat.eqb_eq in Ej; intro H.
  - congruence.
  - exfalso. exact (append_not_self original "_" (decimal j) H).
  - exfalso. symmetry in H. exact (append_not_self original "_" (decimal i) H).
  - apply append_inj_l in H. inversion H. apply decimal_inj. assumption.
Qed.

Lemma mem_In (x : string) (taken : list string) : mem x taken = true <-> In x taken.
Proof.
  unfold mem. rewrite existsb_exists. split.
  - intros (y & Hy & E). apply String.eqb_eq in E. subst y. exact Hy.
  - intro H. exists x. split; [exact H | apply String.eqb_refl].
Qed.

(** The candidates tried so far are distinct names of [taken]: there are
    no more of them than [taken] has names. *)
Lemma candidates_bounded (original : string) (taken : list string) (i : nat) :
  (forall j, 1 <= j <= i -> mem (candidate original j) taken = true) ->
  i <= List.length taken.
Proof.
  intro H.
  assert (Hnd : NoDup (map (candidate original) (seq 1 i))).
  { apply NoDup_map_NoDup_ForallPairs; [ | apply seq_NoDup].
    intros x y Hx Hy. apply in_seq in Hx, Hy. apply candidate_inj; lia. }
  assert (Hincl : incl (map (candidate original) (seq 1 i)) taken).
  { intros n Hn. apply in_map_iff in Hn. destruct Hn as (j & <- & Hj).
    apply in_seq in Hj. apply mem_In, H. lia. }
  pose proof (NoDup_incl_length Hnd Hincl) as L.
  rewrite length_map, length_seq in L. exact L.
Qed.

Lemma rename_loop_eq fuel original taken i name :
  rename_loop fuel original taken i name =
    if mem name taken then
      match fuel with
      | O => None
      | S fuel' => rename_loop fuel' original taken (i + 1)
                               (original ++ "_" ++ decimal (i + 1))
      end
    else Some name.
Proof. destruct fuel; reflexivity. Qed.

Lemma rename_loop_spec (original : string) (taken : list string) :
  forall fuel i,
    1 <= i ->
    (forall j, 1 <= j < i -> mem (candidate original j) taken = true) ->
    List.length taken < fuel + i ->
    exists k, i <= k /\
      rename_loop fuel original taken i (candidate original i) =
        Some (candidate original k) /\
      mem (candidate original k) taken = false /\
      (forall j, 1 <= j < k -> mem (candidate original j) taken = true).
Proof.
  induction fuel as [ | fuel IH]; intros i Hi Hbelow Hlen.
  - rewrite rename_loop_eq. destruct (mem (candidate original i) taken) eqn:E.
    + exfalso. assert (i <= List.length taken); [ | lia].
      apply (candidates_bounded original). intros j Hj.
      destruct (Nat.eq_dec j i) as [-> | Hne]; [exact E | apply Hbelow; lia].
    + exists i. repeat split; auto.
  - rewrite rename_loop_eq. destruct (mem (candidate original i) taken) eqn:E.
    + rewrite <- (candidate_succ original i Hi).
      destruct (IH (i + 1)) as (k & Hk & Hr & Hf & Hb); try lia.
      * intros j Hj. destruct (Nat.eq_dec j i) as [-> | Hne]; [exact E | apply Hbelow; lia].
      * exists k. repeat split; auto. lia.
    + exists i. repeat split; auto.
Qed.

Lemma unique_name_spec (original : string) (taken : list string) :
  exists k, 1 <= k /\
    rename_loop (List.length taken) original taken 1 original =
      Some (candidate original k) /\
    unique_name original taken = candidate original k /\
    mem (candidate original k) taken = false /\
    (forall j, 1 <= j < k -> mem (candidate original j) taken = true).
Proof.
  assert (H0 : forall j, 1 <= j < 1 -> mem (candidate original j) taken = true)
    by (intros; lia).
  destruct (rename_loop_spec original taken (List.length taken) 1 (le_n 1) H0)
    as (k & Hk & Hr & Hf & Hb); [lia | ].
  change (candidate original 1) with original in Hr.
  exists k. unfold unique_name. rewrite Hr. auto.
Qed.


Section Handshake.
Context {RE : RulesEngine}.

Lemma taken_names_upd (c : nat) (f : ClientHandler -> ClientHandler) (st : Server) :
  ~ In c (waiting_queue st) -> taken_names (upd_client c f st) = taken_names st.
Proof.
  unfold taken_names. simpl. induction (waiting_queue st) as [ | x q IH]; intro H; simpl.
  - reflexivity.
  - destruct (Nat.eqb x c) eqn:E.
    + apply Nat.eqb_eq in E. subst x. exfalso. apply H. left. reflexivity.
    + rewrite IH; [reflexivity | ]. intro Hin. apply H. right. exact Hin.
Qed.

Lemma refuse_spec (c : nat) (reason : string) (st : Server) :
  (send c (Illegal reason);; close c;; ret false) st =
    (if accepts (clients st c) then Ok false else Raise OSError, refused c reason st).
Proof.
  rewrite bind_send. unfold refused. destruct (accepts (clients st c)); reflexivity.
Qed.

Lemma dict_get_found (items : list (string * value)) (k : string) (v : value)
    (st : Server) :
  assoc k items = Some v -> dict_get (VDict items) k st = (Ok v, st).
Proof. intro H. unfold dict_get. rewrite H. reflexivity. Qed.

Lemma dict_get_absent (items : list (string * value)) (k : string) (st : Server) :
  assoc k items = None -> dict_get (VDict items) k st = (Ok VNone, st).
Proof. intro H. unfold dict_get. rewrite H. reflexivity. Qed.

(** The handshake on a [dict] whose type is "hello": what is left of it *)
Lemma handshake_hello (c : nat) (items : list (string * value)) (st : Server) :
  assoc "type" items = Some (VStr "hello") ->
  handshake c (Line (Decoded (VDict items))) st =
    (name <- dict_get (VDict items) "name";;
     match as_str name with
     | None => send c (Illegal "bad name");; close c;; ret false
     | Some name =>
         if negb (truthy (VStr (strip name)))
         then send c (Illegal "bad name");; close c;; ret false
         else
           modify (upd_client c (set_name (Some (strip name))));;
           taken <- gets taken_names;;
           modify (upd_client c (set_name (Some (unique_name (strip name) taken))));;
           modify (fun st => set_queue (waiting_queue st ++ [c]) st);;
           pos <- gets (fun st => List.length (waiting_queue st));;
           send c (Queued pos);;
           ret true
     end) st.
Proof.
  intro Ht. unfold handshake. cbv zeta.
  change (recv_line (Line (Decoded (VDict items)))) with (VDict items).
  assert (Htr : truthy (VDict items) = true).
  { destruct items; [discriminate Ht | reflexivity]. }
  rewrite Htr. cbn [negb is_dict].
  rewrite (bind_ok _ _ st _ st (dict_get_found items "type" _ st Ht)).
  reflexivity.
Qed.

Lemma handshake_bad_name (c : nat) (items : list (string * value)) (st : Server) :
  assoc "type" items = Some (VStr "hello") ->
  bad_name items ->
  handshake c (Line (Decoded (VDict items))) st =
    (if accepts (clients st c) then Ok false else Raise OSError,
     refused c "bad name" st).
Proof.
  intros Ht Hn. rewrite (handshake_hello c items st Ht). unfold bad_name in Hn.
  destruct (assoc "name" items) as [v | ] eqn:En.
  - rewrite (bind_ok _ _ st _ st (dict_get_found items "name" _ st En)).
    destruct v; try apply refuse_spec. cbn [as_str].
    change (truthy (VStr (strip s))) with (negb (String.eqb (strip s) "")).
    rewrite Hn. apply refuse_spec.
  - rewrite (bind_ok _ _ st _ st (dict_get_absent items "name" st En)).
    apply refuse_spec.
Qed.

Lemma handshake_named_state (c : nat) (items : list (string * value)) (s : string)
    (st : Server) :
  assoc "type" items = Some (VStr "hello") ->
  assoc "name" items = Some (VStr s) ->
  strip s <> "" ->
  ~ In c (waiting_queue st) ->
  accepts (clients st c) = true ->
  handshake c (Line (Decoded (VDict items))) st =
    (Ok true,
     deliver c (Queued (S (List.length (waiting_queue st))))
       (set_queue (waiting_queue st ++ [c])
          (upd_client c (set_name (Some (unique_name (strip s) (taken_names st))))
             (upd_client c (set_name (Some (strip s))) st)))).
Proof.
  intros Ht Hn Hs Hc Ha.
  rewrite (handshake_hello c items st Ht).
  rewrite (bind_ok _ _ st _ st (dict_get_found items "name" _ st Hn)).
  cbn [as_str].
  change (truthy (VStr (strip s))) with (negb (String.eqb (strip s) "")).
  assert (Hne : String.eqb (strip s) "" = false) by (apply String.eqb_neq; exact Hs).
  rewrite Hne. cbn [negb].
  unfold bind at 1, modify at 1. unfold bind at 1, gets at 1.
  rewrite (taken_names_upd c _ st Hc).
  unfold bind at 1, modify at 1. unfold bind at 1, modify at 1.
  unfold bind at 1, gets at 1. rewrite bind_send.
  match goal with |- context [accepts ?x] =>
    replace (accepts x) with true by (simpl; rewrite Nat.eqb_refl; symmetry; exact Ha)
  end.
  unfold ret. cbn [waiting_queue set_queue]. rewrite length_app, Nat.add_1_r.
  reflexivity.
Qed.

Lemma handshake_named (c : nat) (items : list (string * value)) (s : string) (st : Server) :
  assoc "type" items = Some (VStr "hello") ->
  assoc "name" items = Some (VStr s) ->
  strip s <> "" ->
  ~ In c (waiting_queue st) ->
  accepts (clients st c) = true ->
  let st' := exec (handshake c (Line (Decoded (VDict items)))) st in
  outcome (handshake c (Line (Decoded (VDict items)))) st = Ok true /\
  name (clients st' c) = Some (unique_name (strip s) (taken_names st)) /\
  waiting_queue st' = (waiting_queue st ++ [c])%list /\
  outbox (clients st' c) =
    (outbox (clients st c) ++ [Queued (S (List.length (waiting_queue st)))])%list.
Proof.
  intros Ht Hn Hs Hc Ha st'. subst st'. unfold outcome, exec.
  rewrite (handshake_named_state c items s st Ht Hn Hs Hc Ha). cbn [fst snd].
  rewrite name_deliver, queue_deliver, outbox_deliver.
  simpl. rewrite !Nat.eqb_refl. simpl. unfold written, accepts. simpl.
  unfold accepts in Ha. rewrite Ha. repeat split.
Qed.
End Handshake.

(** C8. The loop that makes a name unique ends (within as many turns as
    there are queued names), and the name it leaves collides with no queued
    name.  A name that collides with none is left as it is; one that
    collides becomes the requested name with "_" and a number appended, the
    number being the first of 2, 3, ... whose name is free: a second
    "Alice" is stored as "Alice_2", a third as "Alice_3".  In a handshake
    that succeeds, the name stored for the session is this name for the
    stripped name of the hello and the names of the queued sessions. *)
Theorem handshake_name_unique `{RE : RulesEngine}
    (original : string) (taken : list string)
    (c : nat) (items : list (string * value)) (s : string) (st : Server) :
  let n := unique_name original taken in
  (exists n', rename_loop (List.length taken) original taken 1 original = Some n') /\
  mem n taken = false /\
  (mem original taken = false -> n = original) /\
  (mem original taken = true ->
   exists i, 2 <= i /\ n = original ++ "_" ++ decimal i /\
     forall j, 2 <= j < i -> mem (original ++ "_" ++ decimal j) taken = true) /\
  unique_name "Alice" ["Alice"] = "Alice_2" /\
  unique_name "Alice" ["Alice"; "Alice_2"] = "Alice_3" /\
  (assoc "type" items = Some (VStr "hello") ->
   assoc "name" items = Some (VStr s) ->
   strip s <> "" ->
   ~ In c (waiting_queue st) ->
   accepts (clients st c) = true ->
   name (clients (exec (handshake c (Line (Decoded (VDict items)))) st) c) =
     Some (unique_name (strip s) (taken_names st))).
Proof.
  intro n. destruct (unique_name_spec original taken) as (k & Hk & Hr & Hn & Hf & Hb).
  fold n in Hn. split; [eauto | ]. split; [rewrite Hn; exact Hf | ].
  split; [ | split; [ | split; [reflexivity | split; [reflexivity | ] ] ] ].
  - intro H. destruct (Nat.eq_dec k 1) as [-> | Hne]; [exact Hn | ].
    specialize (Hb 1 ltac:(lia)). change (candidate original 1) with original in Hb.
    congruence.
  - intro H. destruct (Nat.eq_dec k 1) as [-> | Hne].
    + change (candidate original 1) with original in Hf. congruence.
    + exists k. split; [lia | ]. split.
      * rewrite Hn. unfold candidate. destruct (Nat.eqb k 1) eqn:E; [ | reflexivity].
        apply Nat.eqb_eq in E. lia.
      * intros j Hj. specialize (Hb j ltac:(lia)). unfold candidate in Hb.
        destruct (Nat.eqb j 1) eqn:E; [apply Nat.eqb_eq in E; lia | exact Hb].
  - intros Ht Hname Hs Hc Ha.
    apply (handshake_named c items s st Ht Hname Hs Hc Ha).
Qed.

Lemma handshake_name_unique_witness :
  let st := exec (client_thread 1 [Scripted.hello "Alice"])
              (exec (client_thread 0 [Scripted.hello "Alice"])
                    (initial_server (RE := Scripted.engine) (fun _ => true))) in
  let hello := [("type", VStr "hello"); ("name", VStr "  Alice ")] in
  mem "Alice" (taken_names st) = true /\
  (exists i, 2 <= i /\
     unique_name "Alice" (taken_names st) = "Alice" ++ "_" ++ decimal i /\
     forall j, 2 <= j < i -> mem ("Alice" ++ "_" ++ decimal j) (taken_names st) = true) /\
  name (clients (exec (handshake 2 (Line (Decoded (VDict hello)))) st) 2) =
    Some "Alice_3".
Proof.
  intros st hello.
  destruct (handshake_name_unique "Alice" (taken_names st) 2 hello "  Alice " st)
    as (_ & _ & _ & Hcol & _ & _ & Hname).
  assert (Hm : mem "Alice" (taken_names st) = true) by (vm_compute; reflexivity).
  split; [exact Hm | ]. split; [exact (Hcol Hm) | ].
  rewrite Hname.
  - vm_compute. reflexivity.
  - reflexivity.
  - reflexivity.
  - vm_compute. discriminate.
  - vm_compute. intros [H | [H | H]]; try discriminate H; exact H.
  - vm_compute. reflexivity.
Defined.

(** ** A refused handshake *)

Section Refusal.
Context {RE : RulesEngine}.

Lemma existsb_not_in (c : nat) (q : list nat) :
  ~ In c q -> existsb (Nat.eqb c) q = false.
Proof.
  intro H. destruct (existsb (Nat.eqb c) q) eqn:E; [ | reflexivity].
  apply existsb_exists in E. destruct E as (x & Hx & Ex).
  apply Nat.eqb_eq in Ex. subst x. contradiction.
Qed.

(** The [finally] block for a session that is neither queued nor in a
    game: it closes the connection. *)
Lemma client_finally_idle (c : nat) (st : Server) :
  ~ In c (waiting_queue st) ->
  in_game (clients st c) = false ->
  client_finally c st =
    (Ok tt, upd_client c (fun cl => set_alive false (set_closed true cl)) st).
Proof.
  intros Hq Hg. unfold client_finally.
  rewrite (bind_ok (gets waiting_queue) _ st (waiting_queue st) st) by reflexivity.
  rewrite (existsb_not_in c _ Hq).
  rewrite (bind_ok (ret tt) _ st tt st) by reflexivity.
  rewrite (bind_ok (gets _) _ st (in_game (clients st c)) st) by reflexivity.
  rewrite (bind_ok (gets _) _ st (game (clients st c)) st) by reflexivity.
  rewrite Hg.
  rewrite (bind_ok (ret tt) _ st tt st) by reflexivity.
  reflexivity.
Qed.

Lemma in_game_deliver c obj st c' :
  in_game (clients (deliver c obj st) c') = in_game (clients st c').
Proof.
  unfold deliver. simpl. destruct (Nat.eqb c' c) eqn:E; [ | reflexivity].
  apply Nat.eqb_eq in E. subst c'.
  destruct (accepts (clients st c)); reflexivity.
Qed.

Lemma refused_fields (c : nat) (reason : string) (st : Server) (c' : nat) :
  in_game (clients (refused c reason st) c') = in_game (clients st c') /\
  name (clients (refused c reason st) c') = name (clients st c') /\
  outbox (clients (refused c reason st) c') =
    outbox (clients (deliver c (Illegal reason) st) c') /\
  (c' <> c -> clients (refused c reason st) c' = clients st c') /\
  waiting_queue (refused c reason st) = waiting_queue st /\
  games (refused c reason st) = games st.
Proof.
  unfold refused. destruct (accepts (clients st c)) eqn:Ea.
  - simpl. destruct (Nat.eqb c' c) eqn:E.
    + apply Nat.eqb_eq in E. subst c'. rewrite Nat.eqb_refl, Ea. simpl.
      repeat split. intro H. congruence.
    + repeat split.
  - rewrite in_game_deliver, name_deliver. repeat split.
    intro H. apply clients_deliver_other, H.
Qed.

(** [client_thread] on a hello with a bad name *)
Lemma client_thread_bad_name (c : nat) (items : list (string * value))
    (rest : list read_outcome) (st : Server) :
  assoc "type" items = Some (VStr "hello") ->
  bad_name items ->
  ~ In c (waiting_queue st) ->
  let st' := exec (client_thread c (Line (Decoded (VDict items)) :: rest)) st in
  outcome (client_thread c (Line (Decoded (VDict items)) :: rest)) st = Ok Done /\
  outbox (clients st' c) =
    (outbox (clients st c) ++
     written (clients st c) [Welcome true; Illegal "bad name"])%list /\
  closed (clients st' c) = true /\
  alive (clients st' c) = false /\
  name (clients st' c) = None /\
  (forall c', c' <> c -> clients st' c' = clients st c') /\
  waiting_queue st' = waiting_queue st /\
  games st' = games st.
Proof.
  intros Ht Hn Hq st'.
  set (st0 := upd_client c (fun cl => mkClient (writable cl) (outbox cl) (closed cl)
                                        None false None None true) st).
  assert (Ha0 : accepts (clients st0 c) = accepts (clients st c)).
  { unfold st0. simpl. rewrite Nat.eqb_refl. reflexivity. }
  assert (Hi0 : in_game (clients st0 c) = false).
  { unfold st0. simpl. rewrite Nat.eqb_refl. reflexivity. }
  assert (Hn0 : name (clients st0 c) = None).
  { unfold st0. simpl. rewrite Nat.eqb_refl. reflexivity. }
  assert (Ho0 : outbox (clients st0 c) = outbox (clients st c)).
  { unfold st0. simpl. rewrite Nat.eqb_refl. reflexivity. }
  assert (Hc0 : forall c', c' <> c -> clients st0 c' = clients st c').
  { intros c' H. unfold st0. simpl. apply Nat.eqb_neq in H. rewrite H. reflexivity. }
  set (st1 := deliver c (Welcome true) st0).
  set (fin := fun s1 : Server =>
                upd_client c (fun cl => set_alive false (set_closed true cl)) s1).
  assert (Hrun : client_thread c (Line (Decoded (VDict items)) :: rest) st =
                 (Ok Done,
                  fin (if accepts (clients st c)
                       then refused c "bad name" st1 else st1))).
  { unfold client_thread.
    rewrite (bind_ok (ClientHandler_init c) _ st tt st0) by reflexivity.
    unfold client_try. rewrite bind_send, Ha0. fold st1.
    destruct (accepts (clients st c)) eqn:Ea.
    - unfold bind at 1. rewrite (handshake_bad_name c items _ Ht Hn).
      unfold st1 at 1. rewrite accepts_deliver, Ha0. cbv iota beta.
      unfold ret at 1. cbv iota beta.
      rewrite (bind_ok (client_finally c) _ _ tt (fin (refused c "bad name" st1)));
        [reflexivity | ].
      destruct (refused_fields c "bad name" st1 c) as (Hi & _ & _ & _ & Hw & _).
      apply client_finally_idle.
      + rewrite Hw. exact Hq.
      + rewrite Hi. unfold st1. rewrite in_game_deliver. exact Hi0.
    - rewrite (bind_ok (client_finally c) _ _ tt (fin st1)); [reflexivity | ].
      apply client_finally_idle; [exact Hq | ].
      unfold st1. rewrite in_game_deliver. exact Hi0. }
  subst st'. unfold outcome, exec. rewrite Hrun. cbn [fst snd].
  split; [reflexivity | ].
  assert (Hfin : forall X,
            outbox (clients (fin X) c) = outbox (clients X c) /\
            closed (clients (fin X) c) = true /\
            alive (clients (fin X) c) = false /\
            name (clients (fin X) c) = name (clients X c) /\
            (forall c', c' <> c -> clients (fin X) c' = clients X c') /\
            waiting_queue (fin X) = waiting_queue X /\ games (fin X) = games X).
  { intro X. unfold fin. simpl. rewrite Nat.eqb_refl. repeat split.
    intros c' H. apply Nat.eqb_neq in H. rewrite H. reflexivity. }
  match goal with |- context [fin ?X] =>
    destruct (Hfin X) as (Ho & Hcl & Hal & Hnm & Hot & Hwq & Hgm)
  end.
  rewrite Ho, Hcl, Hal, Hnm, Hwq, Hgm. unfold written.
  destruct (accepts (clients st c)) eqn:Ea.
  - cbv iota in *.
    destruct (refused_fields c "bad name" st1 c) as (_ & Hrn & Hro & _ & Hrw & Hrg).
    rewrite Hrn, Hro, Hrw, Hrg.
    assert (Hothers : forall c', c' <> c ->
              clients (fin (refused c "bad name" st1)) c' = clients st c').
    { intros c' H. rewrite (Hot c' H).
      destruct (refused_fields c "bad name" st1 c') as (_ & _ & _ & Hrc & _).
      rewrite (Hrc H). unfold st1. rewrite (clients_deliver_other _ _ _ _ H).
      apply Hc0, H. }
    unfold st1.
    rewrite !outbox_deliver, Nat.eqb_refl, name_deliver. unfold written.
    rewrite accepts_deliver, Ha0, Ho0, <- app_assoc. repeat split; auto.
  - cbv iota in *.
    assert (Hothers : forall c', c' <> c -> clients (fin st1) c' = clients st c').
    { intros c' H. rewrite (Hot c' H). unfold st1.
      rewrite (clients_deliver_other _ _ _ _ H). apply Hc0, H. }
    unfold st1. rewrite outbox_deliver, Nat.eqb_refl, name_deliver. unfold written.
    rewrite Ha0, Ho0. repeat split; auto.
Qed.
End Refusal.

(** C10. The name of a hello is stripped: [strip] takes the whitespace off
    both ends of the name and nothing else, it leaves the empty string
    exactly when the name is all whitespace, and a handshake that succeeds
    stores the stripped name (made unique against the queue).  A hello
    whose name is absent, is not a string, or is a string of whitespace
    only fails the handshake: the session is not queued, and when its
    thread is over the client was written [welcome] and then [illegal]
    with reason "bad name" (when its connection takes writes), the
    connection is closed, no name was stored, and the queue, the games and
    the other sessions are as they were. *)
Theorem bad_name_fails_handshake `{RE : RulesEngine}
    (c : nat) (items : list (string * value)) (s : string)
    (rest : list read_outcome) (st : Server) :
  let hello := Line (Decoded (VDict items)) in
  (exists l r, s = l ++ strip s ++ r /\
               all_space l = true /\ all_space r = true /\
               starts_with_space (strip s) = false /\
               ends_with_space (strip s) = false) /\
  (strip s = "" <-> all_space s = true) /\
  (assoc "type" items = Some (VStr "hello") ->
   assoc "name" items = Some (VStr s) ->
   strip s <> "" ->
   ~ In c (waiting_queue st) ->
   accepts (clients st c) = true ->
   name (clients (exec (handshake c hello) st) c) =
     Some (unique_name (strip s) (taken_names st))) /\
  (assoc "type" items = Some (VStr "hello") ->
   bad_name items ->
   ~ In c (waiting_queue st) ->
   let st' := exec (client_thread c (hello :: rest)) st in
   outcome (handshake c hello) st <> Ok true /\
   waiting_queue (exec (handshake c hello) st) = waiting_queue st /\
   outcome (client_thread c (hello :: rest)) st = Ok Done /\
   outbox (clients st' c) =
     (outbox (clients st c) ++
      written (clients st c) [Welcome true; Illegal "bad name"])%list /\
   closed (clients st' c) = true /\
   alive (clients st' c) = false /\
   name (clients st' c) = None /\
   (forall c', c' <> c -> clients st' c' = clients st c') /\
   waiting_queue st' = waiting_queue st /\
   games st' = games st).
Proof.
  intro hello. split; [apply strip_spec | ]. split; [apply strip_empty | ]. split.
  - intros Ht Hname Hs Hc Ha. apply (handshake_named c items s st Ht Hname Hs Hc Ha).
  - intros Ht Hbad Hq st'. split; [ | split].
    + unfold outcome, hello. rewrite (handshake_bad_name c items st Ht Hbad).
      destruct (accepts (clients st c)); discriminate.
    + unfold exec, hello. rewrite (handshake_bad_name c items st Ht Hbad).
      apply (refused_fields c "bad name" st c).
    + apply (client_thread_bad_name c items rest st Ht Hbad Hq).
Qed.

Lemma bad_name_fails_handshake_witness :
  let st := initial_server (RE := Scripted.engine) (fun _ => true) in
  let blank := [("type", VStr "hello"); ("name", VStr "  ")] in
  let number := [("type", VStr "hello"); ("name", VInt 7)] in
  (outbox (clients (exec (client_thread 0 [Line (Decoded (VDict blank))]) st) 0) =
     [Welcome true; Illegal "bad name"] /\
   waiting_queue (exec (client_thread 0 [Line (Decoded (VDict blank))]) st) = []) /\
  (outbox (clients (exec (client_thread 0 [Line (Decoded (VDict number))]) st) 0) =
     [Welcome true; Illegal "bad name"] /\
   closed (clients (exec (client_thread 0 [Line (Decoded (VDict number))]) st) 0) = true).
Proof.
  intros st blank number. split.
  - destruct (bad_name_fails_handshake 0 blank "  " [] st) as (_ & _ & _ & H).
    destruct H as (_ & _ & _ & Ho & _ & _ & _ & _ & Hq & _).
    + reflexivity.
    + reflexivity.
    + intros [].
    + exact (conj Ho Hq).
  - destruct (bad_name_fails_handshake 0 number "" [] st) as (_ & _ & _ & H).
    destruct H as (_ & _ & _ & Ho & Hc & _).
    + reflexivity.
    + exact I.
    + intros [].
    + exact (conj Ho Hc).
Defined.

(** ** The read loop *)

Section Reading.
Context {RE : RulesEngine}.

Lemma loop_body_disconnect (c : nat) (r : read_outcome) (st : Server) :
  taken_as (recv_line r) = AsDisconnect ->
  loop_body c r st = (Ok Break, upd_client c (set_alive false) st).
Proof.
  unfold taken_as, loop_body. cbv zeta. destruct (is_None (recv_line r)) eqn:E.
  - intros _. reflexivity.
  - destruct (recv_line r); try discriminate.
    destruct (assoc "__bad_json__" items) as [v | ]; [destruct (truthy v) | ]; discriminate.
Qed.

Lemma loop_body_malformed (c : nat) (r : read_outcome) (st : Server) :
  taken_as (recv_line r) = AsMalformed ->
  loop_body c r st = (send c (Illegal "bad json");; ret Continue) st.
Proof.
  unfold taken_as, loop_body. cbv zeta. destruct (is_None (recv_line r)) eqn:E.
  - discriminate.
  - destruct (recv_line r); try discriminate. cbn [is_dict].
    destruct (assoc "__bad_json__" items) as [v | ] eqn:Ea; [ | discriminate].
    destruct (truthy v) eqn:Et; [ | discriminate]. intros _.
    rewrite (bind_ok _ _ st true st); [reflexivity | ].
    rewrite (bind_ok _ _ st v st (dict_get_found items _ v st Ea)).
    unfold ret. rewrite Et. reflexivity.
Qed.

Lemma read_loop_step (c : nat) (r : read_outcome) (rest : list read_outcome)
    (st st' : Server) :
  alive (clients st c) = true ->
  loop_body c r st = (Ok Continue, st') ->
  read_loop c (r :: rest) st = read_loop c rest st'.
Proof.
  intros Ha Hb. simpl.
  rewrite (bind_ok (gets _) _ st (alive (clients st c)) st) by reflexivity.
  rewrite Ha. cbn [negb]. rewrite (bind_ok _ _ st Continue st' Hb). reflexivity.
Qed.

End Reading.

(** C9, as the code has it.  The end of the stream gives [None], the
    disconnect sentinel; a line that is not valid JSON gives the marker
    [{"__bad_json__": True}], which is not the sentinel; a line that is
    valid JSON gives its decoded value.  The loop takes the sentinel for a
    disconnect and the marker for a malformed line, and it takes a decoded
    object for a message when the object has no true ["__bad_json__"]
    entry.  On an outcome that it takes for malformed, the loop answers the
    sender alone with [illegal], reason "bad json", leaves the connection
    open and, the write done, goes on with the next line. *)
Theorem malformed_line_is_answered `{RE : RulesEngine}
    (c : nat) (r : read_outcome) (rest : list read_outcome) (st : Server) :
  (recv_line EndOfStream = VNone /\
   recv_line (Line JSONDecodeError) = bad_json /\
   bad_json <> VNone /\
   forall v, recv_line (Line (Decoded v)) = v) /\
  (taken_as (recv_line EndOfStream) = AsDisconnect /\
   taken_as (recv_line (Line JSONDecodeError)) = AsMalformed /\
   forall items,
     (forall v, assoc "__bad_json__" items = Some v -> truthy v = false) ->
     taken_as (recv_line (Line (Decoded (VDict items)))) = AsMessage) /\
  (taken_as (recv_line r) = AsMalformed ->
   let st' := exec (loop_body c r) st in
   only_reply c (Illegal "bad json") st st' /\
   closed (clients st' c) = closed (clients st c) /\
   (accepts (clients st c) = true ->
    outcome (loop_body c r) st = Ok Continue /\
    alive (clients st' c) = alive (clients st c) /\
    (alive (clients st c) = true ->
     read_loop c (r :: rest) st = read_loop c rest st'))).
Proof.
  split; [repeat split; discriminate | ]. split.
  - repeat split. intros items H. unfold taken_as. simpl.
    destruct (assoc "__bad_json__" items) as [v | ]; [ | reflexivity].
    rewrite (H v eq_refl). reflexivity.
  - intros Hm st'.
    assert (Hb : loop_body c r st =
                 (if accepts (clients st c) then Ok Continue else Raise OSError,
                  deliver c (Illegal "bad json") st)).
    { rewrite (loop_body_malformed c r st Hm), bind_send.
      destruct (accepts (clients st c)); reflexivity. }
    assert (Hst : st' = deliver c (Illegal "bad json") st)
      by (unfold st', exec; rewrite Hb; reflexivity).
    rewrite Hst. split; [apply deliver_only_reply | ]. split; [apply closed_deliver | ].
    intro Ha. rewrite Ha in Hb. split; [unfold outcome; rewrite Hb; reflexivity | ].
    split.
    + rewrite alive_deliver, Nat.eqb_refl, Ha, andb_true_r. reflexivity.
    + intro Hal. apply read_loop_step; assumption.
Qed.

Lemma malformed_line_is_answered_witness :
  let st := Scripted.lobby in
  let st' := exec (loop_body 0 (Line JSONDecodeError)) st in
  only_reply 0 (Illegal "bad json") st st' /\
  outcome (loop_body 0 (Line JSONDecodeError)) st = Ok Continue /\
  read_loop 0 [Line JSONDecodeError; Line JSONDecodeError] st =
    read_loop 0 [Line JSONDecodeError] st'.
Proof.
  intros st st'.
  destruct (malformed_line_is_answered 0 (Line JSONDecodeError) [Line JSONDecodeError] st)
    as (_ & _ & H).
  destruct (H eq_refl) as (Hr & _ & Ha).
  destruct Ha as (Ho & _ & Hl); [reflexivity | ].
  exact (conj Hr (conj Ho (Hl eq_refl))).
Defined.

(** C9 as the specification states it fails: what arrives and what the
    loop takes it for do not always agree.  The valid line [null] decodes
    to [None], the sentinel of the end of the stream, and the loop stops
    reading; the valid line [{"__bad_json__": true}] decodes to the marker
    of a malformed line and is answered "bad json". *)
Lemma three_outcomes_counterexample :
  ~ (forall r, taken_as (recv_line r) = arrived r) /\
  arrived (Line (Decoded VNone)) = AsMessage /\
  taken_as (recv_line (Line (Decoded VNone))) = AsDisconnect /\
  recv_line (Line (Decoded VNone)) = recv_line EndOfStream /\
  outcome (loop_body 0 (Line (Decoded VNone))) Scripted.lobby = Ok Break /\
  arrived (Line (Decoded bad_json)) = AsMessage /\
  taken_as (recv_line (Line (Decoded bad_json))) = AsMalformed /\
  recv_line (Line (Decoded bad_json)) = recv_line (Line JSONDecodeError) /\
  outbox (clients (exec (loop_body 0 (Line (Decoded bad_json))) Scripted.lobby) 0) =
    (outbox (clients Scripted.lobby 0) ++ [Illegal "bad json"])%list.
Proof.
  split.
  - intro H. specialize (H (Line (Decoded VNone))). discriminate H.
  - repeat split; vm_compute; reflexivity.
Qed.


(** * Further properties

    What the code does where the claims do not look: the other branches of
    the dispatch and of the read loop, the end of a session thread, the
    start of a game, and what holds over every run of the server. *)

(** A closed fact about a concrete state, by evaluation *)
Ltac by_computation :=
  vm_compute;
  first [ reflexivity
        | discriminate
        | split; reflexivity
        | left; reflexivity
        | right; reflexivity
        | let H := fresh in
          intro H; repeat (destruct H as [H | H]; try discriminate H);
          solve [discriminate H | contradiction] ].

(** ** In a game: the other branches of the dispatch *)

Section InGame.
Context {RE : RulesEngine}.

Lemma process_message_no_type (g sender : nat) (items : list (string * value)) (st : Server) :
  ended (games st g) = false ->
  assoc "type" items = None ->
  exec (process_message g sender (VDict items)) st =
    deliver sender (Illegal "unknown command") st.
Proof.
  intros E Ht. unfold exec, process_message, bind at 1, gets at 1. rewrite E.
  unfold try_pass, bind at 1, dict_get. rewrite Ht. unfold ret at 1.
  cbn [eq_str]. rewrite send_deliver. reflexivity.
Qed.

Lemma handle_chat_spec (g sender : nat) (items : list (string * value)) (st : Server) :
  let peer := _peer (games st g) sender in
  let text := match assoc "text" items with Some v => v | None => VStr "" end in
  let obj := Chat (name (clients st sender)) (StrOf text) in
  exec (_handle_chat g sender (VDict items)) st =
    if accepts (clients st peer) then deliver peer obj st
    else exec (_handle_disconnect g peer) (deliver peer obj st).
Proof.
  intros peer text obj. unfold exec, _handle_chat, bind at 1, dict_get_default.
  assert (Hv : (match assoc "text" items with
                | Some x => ret x
                | None => ret (VStr "")
                end) st = (Ok text, st)).
  { unfold text. destruct (assoc "text" items); reflexivity. }
  rewrite Hv. unfold bind at 1, gets at 1. unfold bind at 1, gets at 1.
  fold peer. fold obj. unfold try_except. rewrite send_deliver.
  destruct (accepts (clients st peer)); reflexivity.
Qed.

(** What the forfeit path leaves on a game that has not ended *)
Lemma forfeit_effect (g d : nat) (st : Server) :
  ended (games st g) = false ->
  let peer := _peer (games st g) d in
  let st' := exec (_handle_disconnect g d) st in
  outbox (clients st' peer) =
    (outbox (clients st peer) ++
     written (clients st peer)
       [OpponentLeft; Result "forfeit" (color (clients st peer))])%list /\
  (forall c, c <> peer -> outbox (clients st' c) = outbox (clients st c)) /\
  ended (games st' g) = true.
Proof.
  intros E peer st'.
  assert (Hst := handle_disconnect_live g d st E). simpl in Hst. fold peer st' in Hst.
  rewrite Hst. repeat split.
  - rewrite outbox_detach. unfold written.
    destruct (accepts (clients st peer)) eqn:Ea.
    + rewrite !outbox_deliver, Nat.eqb_refl. unfold written.
      rewrite accepts_deliver, Ea, <- app_assoc. reflexivity.
    + rewrite outbox_deliver, Nat.eqb_refl. unfold written. rewrite Ea. reflexivity.
  - intros c Hc. rewrite outbox_detach. apply Nat.eqb_neq in Hc.
    destruct (accepts (clients st peer)); rewrite ?outbox_deliver, Hc; reflexivity.
  - apply ended_detach.
Qed.

Lemma handle_move_rejected g sender items uci mv reason b' st :
  assoc "uci" items = Some (VStr uci) ->
  color (clients st sender) = Some (turn_color (board (games st g))) ->
  new_move uci = Some mv ->
  make_move (board (games st g)) mv = ((false, reason), b') ->
  exec (_handle_move g sender (VDict items)) st =
    deliver sender (Illegal reason) (upd_game g (set_board b') st).
Proof.
  intros Hu Hc Hm Hmk. unfold exec, _handle_move, bind at 1, dict_get. rewrite Hu.
  unfold ret. simpl. unfold bind at 1, gets at 1. unfold bind at 1, gets at 1.
  rewrite Hc, String.eqb_refl. simpl. rewrite Hm, Hmk.
  unfold bind at 1, modify at 1. simpl. rewrite send_deliver. reflexivity.
Qed.

Lemma alive_detach g st c : alive (clients (detach g st) c) = alive (clients st c).
Proof.
  unfold detach, _end_game, bind, modify, gets. simpl.
  repeat match goal with
         | |- context [Nat.eqb ?a ?b] =>
             let E := fresh "E" in
             destruct (Nat.eqb a b) eqn:E;
             [apply Nat.eqb_eq in E; try rewrite <- E | ]
         end; reflexivity.
Qed.

Lemma broadcast_refused a b obj st :
  accepts (clients st a) = false -> broadcast a b obj st = deliver a obj st.
Proof. intro H. unfold broadcast. rewrite H. reflexivity. Qed.

End InGame.

(** X1. A message that reaches a live game with a type that is none of
    [move], [chat], [resign] and [quit], or with no type at all, is answered
    to its sender with [illegal], reason "unknown command": the sender's
    outbox gets that message (when its connection takes the write), and no
    other session, no game and not the queue change. *)
Theorem unknown_command_answered `{RE : RulesEngine}
    (g sender : nat) (items : list (string * value))
    (st : Server) :
  ended (games st g) = false ->
  match assoc "type" items with
  | Some mtype => known_type mtype = false
  | None => True
  end ->
  only_reply sender (Illegal "unknown command") st
             (exec (process_message g sender (VDict items)) st).
Proof.
  intros E Ht. destruct (assoc "type" items) as [mtype | ] eqn:Ea.
  - rewrite (process_message_live g sender items mtype st E Ea).
    unfold known_type in Ht. apply orb_false_iff in Ht. destruct Ht as [Ht Hq].
    apply orb_false_iff in Ht. destruct Ht as [Ht Hr].
    apply orb_false_iff in Ht. destruct Ht as [Hm Hc].
    rewrite Hm, Hc, Hr, Hq, exec_send. apply deliver_only_reply.
  - rewrite (process_message_no_type g sender items st E Ea). apply deliver_only_reply.
Qed.

Lemma unknown_command_answered_witness :
  let msg := [("type", VStr "draw")] in
  only_reply 0 (Illegal "unknown command") Scripted.paired
             (exec (process_message 0 0 (VDict msg)) Scripted.paired).
Proof.
  intro msg.
  exact (unknown_command_answered 0 0 msg Scripted.paired
           ltac:(by_computation) ltac:(by_computation)).
Defined.

(** X2. A [chat] message in a live game goes to the peer of the sender
    when the peer's connection takes the write: the peer is written a [chat]
    message with the sender's name and the text of the message (the empty
    string when it has none), and nothing else changes. *)
Theorem chat_forwarded `{RE : RulesEngine}
    (g sender : nat) (items : list (string * value)) (st : Server) :
  ended (games st g) = false ->
  assoc "type" items = Some (VStr "chat") ->
  let peer := _peer (games st g) sender in
  let text := match assoc "text" items with Some v => v | None => VStr "" end in
  accepts (clients st peer) = true ->
  let st' := exec (process_message g sender (VDict items)) st in
  only_reply peer (Chat (name (clients st sender)) (StrOf text)) st st' /\
  outbox (clients st' peer) =
    (outbox (clients st peer) ++ [Chat (name (clients st sender)) (StrOf text)])%list.
Proof.
  intros E Ht peer text Ha st'.
  assert (Hst : st' = deliver peer (Chat (name (clients st sender)) (StrOf text)) st).
  { unfold st'. rewrite (process_message_live g sender items _ st E Ht). simpl.
    rewrite handle_chat_spec. fold peer. rewrite Ha. reflexivity. }
  rewrite Hst. split; [apply deliver_only_reply | ].
  rewrite outbox_deliver, Nat.eqb_refl. unfold written. rewrite Ha. reflexivity.
Qed.

Lemma chat_forwarded_witness :
  let msg := [("type", VStr "chat"); ("text", VStr "hi")] in
  let st' := exec (process_message 0 0 (VDict msg)) Scripted.paired in
  only_reply 1 (Chat (Some "Ann") (StrOf (VStr "hi"))) Scripted.paired st' /\
  outbox (clients st' 1) =
    (outbox (clients Scripted.paired 1) ++ [Chat (Some "Ann") (StrOf (VStr "hi"))])%list.
Proof.
  intros msg st'.
  exact (chat_forwarded 0 0 msg Scripted.paired
           ltac:(by_computation) ltac:(by_computation) ltac:(by_computation)).
Defined.

(** X3. A [chat] message to a peer whose connection takes no write
    forfeits the game for that peer: the sender is written [opponent_left]
    and the [result] of a forfeit that it won, the peer is written nothing,
    and the game has ended. *)
Theorem chat_to_dead_peer_forfeits `{RE : RulesEngine}
    (g sender : nat) (items : list (string * value))
    (st : Server) :
  ended (games st g) = false ->
  assoc "type" items = Some (VStr "chat") ->
  white (games st g) <> black (games st g) ->
  sender = white (games st g) \/ sender = black (games st g) ->
  let peer := _peer (games st g) sender in
  accepts (clients st peer) = false ->
  let st' := exec (process_message g sender (VDict items)) st in
  outbox (clients st' sender) =
    (outbox (clients st sender) ++
     written (clients st sender)
       [OpponentLeft; Result "forfeit" (color (clients st sender))])%list /\
  outbox (clients st' peer) = outbox (clients st peer) /\
  ended (games st' g) = true.
Proof.
  intros E Ht Hwb Hs peer Ha st'.
  set (obj := Chat (name (clients st sender))
                   (StrOf (match assoc "text" items with Some v => v | None => VStr "" end))).
  set (st1 := deliver peer obj st).
  assert (Hst : st' = exec (_handle_disconnect g peer) st1).
  { unfold st'. rewrite (process_message_live g sender items _ st E Ht). simpl.
    rewrite handle_chat_spec. fold peer. rewrite Ha. reflexivity. }
  assert (Hpp : _peer (games st1 g) peer = sender).
  { unfold st1. rewrite games_deliver. unfold peer, _peer.
    destruct Hs as [-> | ->].
    - rewrite Nat.eqb_refl.
      destruct (Nat.eqb (black (games st g)) (white (games st g))) eqn:Eb; [ | reflexivity].
      apply Nat.eqb_eq in Eb. congruence.
    - destruct (Nat.eqb (black (games st g)) (white (games st g))) eqn:Eb.
      + apply Nat.eqb_eq in Eb. congruence.
      + rewrite Nat.eqb_refl. reflexivity. }
  assert (Hne : sender <> peer) by (apply not_eq_sym, peer_differs, Hwb).
  destruct (forfeit_effect g peer st1) as (Ho & Hothers & He).
  { unfold st1. rewrite games_deliver. exact E. }
  rewrite Hpp in Ho, Hothers. rewrite Hst. split; [ | split; [ | exact He] ].
  - rewrite Ho. unfold st1.
    rewrite (clients_deliver_other peer obj st sender Hne). reflexivity.
  - rewrite (Hothers peer (not_eq_sym Hne)). unfold st1.
    rewrite outbox_deliver, Nat.eqb_refl. unfold written. rewrite Ha.
    apply app_nil_r.
Qed.

Lemma chat_to_dead_peer_forfeits_witness :
  let st := upd_client 1 (set_closed true) Scripted.paired in
  let st' := exec (process_message 0 0 (VDict [("type", VStr "chat")])) st in
  outbox (clients st' 0) =
    (outbox (clients st 0) ++ [OpponentLeft; Result "forfeit" (Some "white")])%list /\
  outbox (clients st' 1) = outbox (clients st 1) /\
  ended (games st' 0) = true.
Proof.
  intros st st'.
  exact (chat_to_dead_peer_forfeits 0 0 [("type", VStr "chat")] st
           ltac:(by_computation) ltac:(by_computation) ltac:(by_computation)
           ltac:(by_computation) ltac:(by_computation)).
Defined.

(** X4. A move that the board refuses is answered to the sender alone,
    with the reason that the board gave.  The board that [make_move] left
    is the board of the game; the other sessions, the other games and the
    queue are as they were. *)
Theorem engine_rejection_forwarded `{RE : RulesEngine}
    (g sender : nat) (items : list (string * value))
    (uci : string) (mv : Move) (reason : string) (b' : Board) (st : Server) :
  ended (games st g) = false ->
  assoc "type" items = Some (VStr "move") ->
  assoc "uci" items = Some (VStr uci) ->
  color (clients st sender) = Some (turn_color (board (games st g))) ->
  new_move uci = Some mv ->
  make_move (board (games st g)) mv = ((false, reason), b') ->
  let st' := exec (process_message g sender (VDict items)) st in
  outbox (clients st' sender) =
    (outbox (clients st sender) ++ written (clients st sender) [Illegal reason])%list /\
  (forall c, c <> sender -> clients st' c = clients st c) /\
  games st' g = set_board b' (games st g) /\
  (forall g', g' <> g -> games st' g' = games st g') /\
  waiting_queue st' = waiting_queue st.
Proof.
  intros E Ht Hu Hc Hm Hmk st'.
  assert (Hst : st' = deliver sender (Illegal reason) (upd_game g (set_board b') st)).
  { unfold st'. rewrite (process_message_live g sender items _ st E Ht). simpl.
    apply (handle_move_rejected g sender items uci mv reason b' st); assumption. }
  rewrite Hst. repeat split.
  - rewrite outbox_deliver, Nat.eqb_refl. reflexivity.
  - intros c H. rewrite (clients_deliver_other _ _ _ _ H). reflexivity.
  - simpl. rewrite Nat.eqb_refl. reflexivity.
  - intros g' H. simpl. apply Nat.eqb_neq in H. rewrite H. reflexivity.
Qed.

Lemma engine_rejection_forwarded_witness :
  let st := Scripted.paired in
  let st' := exec (process_message 0 0
                     (VDict [("type", VStr "move"); ("uci", VStr "e2e5")])) st in
  outbox (clients st' 0) = (outbox (clients st 0) ++ [Illegal "illegal move"])%list /\
  (forall c, c <> 0 -> clients st' c = clients st c) /\
  board (games st' 0) = Scripted.mkBoard "w" None [] /\
  ended (games st' 0) = false.
Proof.
  intros st st'.
  destruct (engine_rejection_forwarded (RE := Scripted.engine) 0 0
              [("type", VStr "move"); ("uci", VStr "e2e5")] "e2e5" "e2e5" "illegal move"
              (Scripted.mkBoard "w" None []) st
              ltac:(by_computation) ltac:(by_computation) ltac:(by_computation)
              ltac:(by_computation) ltac:(by_computation) ltac:(by_computation))
    as (H1 & H2 & H3 & _).
  fold st' in H1, H2, H3.
  split; [exact H1 | ]. split; [exact H2 | ]. rewrite H3. split; reflexivity.
Defined.

(** X5. When white's connection takes no write, an accepted move is
    announced to nobody: each broadcast writes to white first, and the
    failure of that write skips the write to black.  The board has the move
    all the same, white is marked dead, and the game has ended exactly when
    the board reports a result. *)
Theorem dead_white_hides_move `{RE : RulesEngine}
    (g sender : nat) (items : list (string * value))
    (uci : string) (mv : Move) (reason : string) (b' : Board) (st : Server) :
  ended (games st g) = false ->
  assoc "type" items = Some (VStr "move") ->
  assoc "uci" items = Some (VStr uci) ->
  color (clients st sender) = Some (turn_color (board (games st g))) ->
  new_move uci = Some mv ->
  make_move (board (games st g)) mv = ((true, reason), b') ->
  let w := white (games st g) in
  let b := black (games st g) in
  w <> b ->
  accepts (clients st w) = false ->
  let st' := exec (process_message g sender (VDict items)) st in
  outbox (clients st' b) = outbox (clients st b) /\
  outbox (clients st' w) = outbox (clients st w) /\
  alive (clients st' w) = false /\
  board (games st' g) = b' /\
  ended (games st' g) =
    match terminal_message (board_result b') with Some _ => true | None => false end.
Proof.
  intros E Ht Hu Hc Hm Hmk w b Hwb Hw st'.
  set (st1 := upd_game g (set_board b') st).
  set (o1 := MoveOk (move_uci mv) (color (clients st sender))).
  set (o2 := State (board_fen b') (turn_color b') (_in_check b' (board_turn b'))).
  set (st3 := deliver w o2 (deliver w o1 st1)).
  assert (Hst : st' = exec (check_terminal g) st3).
  { unfold st'. rewrite (process_message_live g sender items _ st E Ht). simpl.
    rewrite (handle_move_accepted g sender items uci mv reason b' st Hu Hc Hm Hmk).
    fold w b st1 o1 o2.
    rewrite (broadcast_refused w b o1 st1) by exact Hw.
    rewrite (broadcast_refused w b o2) by (rewrite accepts_deliver; exact Hw).
    reflexivity. }
  assert (Hg3 : games st3 g = set_board b' (games st g)).
  { unfold st3. rewrite !games_deliver. simpl. rewrite Nat.eqb_refl. reflexivity. }
  assert (Ha3 : accepts (clients st3 w) = false).
  { unfold st3. rewrite !accepts_deliver. exact Hw. }
  assert (Hbw : Nat.eqb b w = false) by (apply Nat.eqb_neq; congruence).
  assert (Hob : outbox (clients st3 b) = outbox (clients st b)).
  { unfold st3. rewrite !outbox_deliver, Hbw. reflexivity. }
  assert (How : outbox (clients st3 w) = outbox (clients st w)).
  { unfold st3. rewrite !outbox_deliver, !Nat.eqb_refl. unfold written.
    rewrite accepts_deliver. change (accepts (clients st1 w)) with (accepts (clients st w)).
    rewrite Hw, !app_nil_r. reflexivity. }
  assert (Hal : alive (clients st3 w) = false).
  { unfold st3. rewrite alive_deliver, Nat.eqb_refl, accepts_deliver.
    change (accepts (clients st1 w)) with (accepts (clients st w)).
    rewrite Hw. apply andb_false_r. }
  rewrite Hst, check_terminal_spec, Hg3. cbn [board set_board white black].
  fold w b.
  destruct (terminal_message (board_result b')) as [res | ].
  - rewrite (broadcast_refused w b res st3 Ha3).
    rewrite !outbox_detach, !outbox_deliver, Hbw, Nat.eqb_refl, alive_detach.
    rewrite alive_deliver, Nat.eqb_refl, Ha3, andb_false_r. unfold written. rewrite Ha3.
    rewrite app_nil_r, board_detach, games_deliver, Hg3, ended_detach. auto.
  - rewrite Hg3. cbn [board ended set_board]. auto.
Qed.

Lemma dead_white_hides_move_witness :
  let st := upd_client 0 (set_closed true) Scripted.paired in
  let st' := exec (process_message 0 0
                     (VDict [("type", VStr "move"); ("uci", VStr "e2e4")])) st in
  outbox (clients st' 1) = outbox (clients st 1) /\
  outbox (clients st' 0) = outbox (clients st 0) /\
  alive (clients st' 0) = false /\
  board (games st' 0) = Scripted.mkBoard "b" None ["e2e4"] /\
  ended (games st' 0) = false.
Proof.
  intros st st'.
  exact (dead_white_hides_move (RE := Scripted.engine) 0 0
           [("type", VStr "move"); ("uci", VStr "e2e4")] "e2e4" "e2e4" ""
           (Scripted.mkBoard "b" None ["e2e4"]) st
           ltac:(by_computation) ltac:(by_computation) ltac:(by_computation)
           ltac:(by_computation) ltac:(by_computation) ltac:(by_computation)
           ltac:(by_computation) ltac:(by_computation)).
Defined.

(** ** The session thread from its read loop on *)

Section Resume.
Context {RE : RulesEngine}.

(** [client_thread] is the handshake followed by [client_resume]. *)
Lemma client_thread_resumes (c : nat) (r : read_outcome) (rest : list read_outcome)
    (st st1 : Server) :
  (ClientHandler_init c;; send c (Welcome true);; handshake c r) st = (Ok true, st1) ->
  client_thread c (r :: rest) st = client_resume c rest st1.
Proof.
  intro H. unfold client_thread, client_resume.
  rewrite (bind_ok (ClientHandler_init c) _ st tt _ eq_refl).
  rewrite (bind_ok (ClientHandler_init c) _ st tt _ eq_refl) in H.
  unfold client_try. unfold bind at 1. unfold bind at 1 in H.
  destruct (send c (Welcome true) _) as [[u | e] st0]; [ | discriminate H].
  unfold bind at 1. rewrite H. reflexivity.
Qed.

Lemma read_loop_break (c : nat) (r : read_outcome) (rest : list read_outcome)
    (st st' : Server) :
  alive (clients st c) = true ->
  loop_body c r st = (Ok Break, st') ->
  read_loop c (r :: rest) st = (Ok Done, st').
Proof.
  intros Ha Hb. simpl.
  rewrite (bind_ok (gets _) _ st (alive (clients st c)) st) by reflexivity.
  rewrite Ha. cbn [negb]. rewrite (bind_ok _ _ st Break st' Hb). reflexivity.
Qed.

Lemma read_loop_raise (c : nat) (r : read_outcome) (rest : list read_outcome)
    (st st' : Server) (e : exn) :
  alive (clients st c) = true ->
  loop_body c r st = (Raise e, st') ->
  read_loop c (r :: rest) st = (Raise e, st').
Proof.
  intros Ha Hb. simpl.
  rewrite (bind_ok (gets _) _ st (alive (clients st c)) st) by reflexivity.
  rewrite Ha. cbn [negb]. unfold bind. rewrite Hb. reflexivity.
Qed.

(** The read loop on a decoded object that is not the marker *)
Lemma loop_body_message (c : nat) (items : list (string * value)) (st : Server) :
  taken_as (VDict items) = AsMessage ->
  loop_body c (Line (Decoded (VDict items))) st =
    (mtype <- dict_get (VDict items) "type";;
     ig <- gets (fun st => in_game (clients st c));;
     if negb ig then
       if eq_str mtype "quit" then
         send c (Welcome false);; close c;; ret Break
       else if eq_str mtype "chat" then
         send c (Chat (Some "server")
                      (Text "(lobby) message ignored; waiting for pairing"));;
         ret Continue
       else
         q <- gets waiting_queue;;
         send c (Queued (if existsb (Nat.eqb c) q then index c q + 1 else 0));;
         ret Continue
     else
       gm <- gets (fun st => game (clients st c));;
       match gm with
       | Some g => process_message g c (VDict items);; ret Continue
       | None => send c (Illegal "no game yet");; ret Continue
       end) st.
Proof.
  intro H. unfold loop_body. cbv zeta.
  change (recv_line (Line (Decoded (VDict items)))) with (VDict items).
  cbn [is_None is_dict]. unfold taken_as in H. cbn [is_None] in H.
  destruct (assoc "__bad_json__" items) as [v | ] eqn:Ea.
  - destruct (truthy v) eqn:Et; [discriminate H | ].
    rewrite (bind_ok _ _ st false st); [reflexivity | ].
    rewrite (bind_ok _ _ st v st (dict_get_found items _ v st Ea)).
    unfold ret. rewrite Et. reflexivity.
  - rewrite (bind_ok _ _ st false st); [reflexivity | ].
    rewrite (bind_ok _ _ st VNone st (dict_get_absent items _ st Ea)). reflexivity.
Qed.

Lemma index_spec (c : nat) (q : list nat) :
  In c q ->
  nth_error q (index c q) = Some c /\
  forall j, j < index c q -> nth_error q j <> Some c.
Proof.
  induction q as [ | x q IH]; intro H; [destruct H | ].
  simpl. destruct (Nat.eqb x c) eqn:E.
  - apply Nat.eqb_eq in E. subst x. split; [reflexivity | ]. intros j Hj. lia.
  - apply Nat.eqb_neq in E. destruct H as [H | H]; [congruence | ].
    destruct (IH H) as [Hn Hb]. split; [exact Hn | ].
    intros [ | j] Hj; simpl.
    + intro Hx. inversion Hx. congruence.
    + apply Hb. lia.
Qed.

Lemma existsb_in (c : nat) (q : list nat) : existsb (Nat.eqb c) q = true <-> In c q.
Proof.
  rewrite existsb_exists. split.
  - intros (x & Hx & E). apply Nat.eqb_eq in E. subst x. exact Hx.
  - intro H. exists c. split; [exact H | apply Nat.eqb_refl].
Qed.

Lemma queue_pos_spec (c : nat) (q : list nat) :
  (In c q ->
   1 <= queue_pos c q <= List.length q /\
   nth_error q (queue_pos c q - 1) = Some c /\
   forall j, j < queue_pos c q - 1 -> nth_error q j <> Some c) /\
  (~ In c q -> queue_pos c q = 0).
Proof.
  unfold queue_pos. split.
  - intro H. rewrite (proj2 (existsb_in c q) H).
    destruct (index_spec c q H) as [Hn Hb].
    replace (index c q + 1 - 1) with (index c q) by lia.
    repeat split; auto; try lia.
    assert (index c q < List.length q); [ | lia].
    apply nth_error_Some. rewrite Hn. discriminate.
  - intro H. rewrite (existsb_not_in c q H). reflexivity.
Qed.

Lemma remove_first_split (c : nat) (q : list nat) :
  In c q ->
  exists q1 q2, q = (q1 ++ c :: q2)%list /\ ~ In c q1 /\
                remove_first c q = (q1 ++ q2)%list.
Proof.
  induction q as [ | x q IH]; intro H; [destruct H | ].
  simpl. destruct (Nat.eqb x c) eqn:E.
  - apply Nat.eqb_eq in E. subst x. exists [], q. auto.
  - apply Nat.eqb_neq in E. destruct H as [H | H]; [congruence | ].
    destruct (IH H) as (q1 & q2 & Hq & Hn & Hr).
    exists (x :: q1), q2. simpl. rewrite Hr, <- Hq. repeat split.
    intros [Hx | Hx]; [congruence | contradiction].
Qed.

Lemma remove_first_absent (c : nat) (q : list nat) :
  ~ In c q -> remove_first c q = q.
Proof.
  induction q as [ | x q IH]; intro H; [reflexivity | ].
  simpl. destruct (Nat.eqb x c) eqn:E.
  - apply Nat.eqb_eq in E. subst x. exfalso. apply H. left. reflexivity.
  - rewrite IH; [reflexivity | ]. intro Hx. apply H. right. exact Hx.
Qed.

(** The [finally] block for a session that is not in a game *)
Lemma client_finally_lobby (c : nat) (st : Server) :
  in_game (clients st c) = false ->
  client_finally c st =
    (Ok tt, shut c (if existsb (Nat.eqb c) (waiting_queue st)
                    then set_queue (remove_first c (waiting_queue st)) st else st)).
Proof.
  intro Hg. unfold client_finally, close, bind, gets, modify, ret.
  destruct (existsb (Nat.eqb c) (waiting_queue st)).
  - cbn [clients set_queue]. rewrite Hg. reflexivity.
  - rewrite Hg. reflexivity.
Qed.

(** A session thread that leaves its read loop while not in a game: its
    session leaves the queue and is closed, and nothing else changes. *)
Lemma lobby_exit (c : nat) (inputs : list read_outcome) (st st1 : Server)
    (res : result progress) :
  read_loop c inputs st = (res, st1) ->
  res <> Ok Waiting ->
  in_game (clients st1 c) = false ->
  let st' := exec (client_resume c inputs) st in
  outcome (client_resume c inputs) st = Ok Done /\
  waiting_queue st' = remove_first c (waiting_queue st1) /\
  closed (clients st' c) = true /\
  alive (clients st' c) = false /\
  outbox (clients st' c) = outbox (clients st1 c) /\
  (forall c', c' <> c -> clients st' c' = clients st1 c') /\
  games st' = games st1.
Proof.
  intros Hr Hres Hg st'.
  assert (Hrun : client_resume c inputs st =
                 (Ok Done, shut c (if existsb (Nat.eqb c) (waiting_queue st1)
                                   then set_queue (remove_first c (waiting_queue st1)) st1
                                   else st1))).
  { unfold client_resume. rewrite Hr.
    assert (Hf : (client_finally c;; ret Done) st1 =
                 (Ok Done, shut c (if existsb (Nat.eqb c) (waiting_queue st1)
                                   then set_queue (remove_first c (waiting_queue st1)) st1
                                   else st1))).
    { rewrite (bind_ok _ _ st1 tt _ (client_finally_lobby c st1 Hg)). reflexivity. }
    destruct res as [[ | ] | e]; [congruence | exact Hf | exact Hf]. }
  subst st'. unfold outcome, exec. rewrite Hrun. cbn [fst snd].
  split; [reflexivity | ].
  destruct (existsb (Nat.eqb c) (waiting_queue st1)) eqn:Ex.
  - unfold shut. simpl. rewrite Nat.eqb_refl. repeat split.
    intros c' H. apply Nat.eqb_neq in H. rewrite H. reflexivity.
  - assert (Hn : ~ In c (waiting_queue st1)).
    { intro H. apply existsb_in in H. congruence. }
    rewrite (remove_first_absent c _ Hn). unfold shut. simpl. rewrite Nat.eqb_refl.
    repeat split. intros c' H. apply Nat.eqb_neq in H. rewrite H. reflexivity.
Qed.

End Resume.

(** ** The lobby *)

Section LobbyReplies.
Context {RE : RulesEngine}.

Lemma eq_str_other (v : value) (a b : string) :
  eq_str v a = true -> a <> b -> eq_str v b = false.
Proof.
  destruct v; try discriminate. simpl. intros H Hab.
  apply String.eqb_eq in H. subst s. apply String.eqb_neq. exact Hab.
Qed.

(** What the lobby branch of the read loop answers to a message that is
    neither [quit] nor [chat] *)
Lemma loop_body_status (c : nat) (items : list (string * value)) (st : Server) :
  taken_as (VDict items) = AsMessage ->
  in_game (clients st c) = false ->
  match assoc "type" items with
  | Some mtype => eq_str mtype "quit" = false /\ eq_str mtype "chat" = false
  | None => True
  end ->
  loop_body c (Line (Decoded (VDict items))) st =
    (if accepts (clients st c) then Ok Continue else Raise OSError,
     deliver c (Queued (queue_pos c (waiting_queue st))) st).
Proof.
  intros Hm Hg Ht. rewrite (loop_body_message c items st Hm).
  assert (Hd : exists mtype, dict_get (VDict items) "type" st = (Ok mtype, st) /\
                             eq_str mtype "quit" = false /\ eq_str mtype "chat" = false).
  { destruct (assoc "type" items) as [mtype | ] eqn:Ea.
    - exists mtype. split; [apply dict_get_found, Ea | exact Ht].
    - exists VNone. split; [apply dict_get_absent, Ea | split; reflexivity]. }
  destruct Hd as (mtype & Hd & Hq & Hc).
  rewrite (bind_ok _ _ st mtype st Hd).
  rewrite (bind_ok (gets _) _ st false st) by (unfold gets; rewrite Hg; reflexivity).
  cbn [negb]. rewrite Hq, Hc.
  rewrite (bind_ok (gets waiting_queue) _ st (waiting_queue st) st) by reflexivity.
  rewrite bind_send. fold (queue_pos c (waiting_queue st)).
  destruct (accepts (clients st c)); reflexivity.
Qed.

(** The read loop on a [quit] line of a session that is not in a game *)
Lemma read_loop_quit (c : nat) (items : list (string * value)) (mtype : value)
    (rest : list read_outcome) (st : Server) :
  taken_as (VDict items) = AsMessage ->
  alive (clients st c) = true ->
  in_game (clients st c) = false ->
  assoc "type" items = Some mtype ->
  eq_str mtype "quit" = true ->
  exists res,
    res <> Ok Waiting /\
    read_loop c (Line (Decoded (VDict items)) :: rest) st =
      (res, if accepts (clients st c) then shut c (deliver c (Welcome false) st)
            else deliver c (Welcome false) st).
Proof.
  intros Hm Ha Hg Ht Hq.
  assert (Hb : loop_body c (Line (Decoded (VDict items))) st =
               (if accepts (clients st c) then Ok Break else Raise OSError,
                if accepts (clients st c) then shut c (deliver c (Welcome false) st)
                else deliver c (Welcome false) st)).
  { rewrite (loop_body_message c items st Hm).
    rewrite (bind_ok _ _ st mtype st (dict_get_found items _ _ st Ht)).
    rewrite (bind_ok (gets _) _ st false st) by (unfold gets; rewrite Hg; reflexivity).
    cbn [negb]. rewrite Hq. rewrite bind_send.
    destruct (accepts (clients st c)); reflexivity. }
  destruct (accepts (clients st c)).
  - exists (Ok Done). split; [discriminate | ]. apply read_loop_break; assumption.
  - exists (Raise OSError). split; [discriminate | ]. apply read_loop_raise; assumption.
Qed.

End LobbyReplies.

(** X6. In the lobby a message that is neither [quit] nor [chat] is
    answered with [queued] and the position of the session in the queue,
    counted from 1: the session is at that place of the queue and at no
    earlier one, and the position is 0 for a session that is not queued.
    Nothing else changes, and the loop goes on when the write succeeded. *)
Theorem lobby_status_reply `{RE : RulesEngine}
    (c : nat) (items : list (string * value)) (st : Server) :
  taken_as (VDict items) = AsMessage ->
  in_game (clients st c) = false ->
  match assoc "type" items with
  | Some mtype => eq_str mtype "quit" = false /\ eq_str mtype "chat" = false
  | None => True
  end ->
  let q := waiting_queue st in
  let st' := exec (loop_body c (Line (Decoded (VDict items)))) st in
  only_reply c (Queued (queue_pos c q)) st st' /\
  (accepts (clients st c) = true ->
   outcome (loop_body c (Line (Decoded (VDict items)))) st = Ok Continue) /\
  (In c q ->
   1 <= queue_pos c q <= List.length q /\
   nth_error q (queue_pos c q - 1) = Some c /\
   forall j, j < queue_pos c q - 1 -> nth_error q j <> Some c) /\
  (~ In c q -> queue_pos c q = 0).
Proof.
  intros Hm Hg Ht q st'. subst st'. unfold exec, outcome.
  rewrite (loop_body_status c items st Hm Hg Ht). cbn [fst snd].
  split; [apply deliver_only_reply | ].
  split; [intro Ha; rewrite Ha; reflexivity | ].
  apply queue_pos_spec.
Qed.

Lemma lobby_status_reply_witness :
  let line := Line (Decoded (VDict [("type", VStr "status")])) in
  let st := Scripted.lobby in
  only_reply 1 (Queued 2) st (exec (loop_body 1 line) st) /\
  outcome (loop_body 1 line) st = Ok Continue /\
  nth_error (waiting_queue st) 1 = Some 1.
Proof.
  intros line st.
  destruct (lobby_status_reply 1 [("type", VStr "status")] st
              ltac:(by_computation) ltac:(by_computation) ltac:(by_computation))
    as (H1 & H2 & H3 & _).
  split; [exact H1 | ]. split; [exact (H2 ltac:(by_computation)) | ].
  destruct H3 as (_ & H3 & _); [vm_compute; auto | exact H3].
Defined.

(** X7. A [chat] message in the lobby is forwarded to nobody: the
    sender alone is written the notice of the server, nothing else changes,
    and the loop goes on when the write succeeded. *)
Theorem lobby_chat_acknowledged `{RE : RulesEngine}
    (c : nat) (items : list (string * value))
    (mtype : value) (st : Server) :
  taken_as (VDict items) = AsMessage ->
  in_game (clients st c) = false ->
  assoc "type" items = Some mtype ->
  eq_str mtype "chat" = true ->
  let ack := Chat (Some "server") (Text "(lobby) message ignored; waiting for pairing") in
  let st' := exec (loop_body c (Line (Decoded (VDict items)))) st in
  only_reply c ack st st' /\
  (accepts (clients st c) = true ->
   outcome (loop_body c (Line (Decoded (VDict items)))) st = Ok Continue).
Proof.
  intros Hm Hg Ht Hc ack st'. subst st'. unfold exec, outcome.
  rewrite (loop_body_message c items st Hm).
  rewrite (bind_ok _ _ st mtype st (dict_get_found items _ _ st Ht)).
  rewrite (bind_ok (gets _) _ st false st) by (unfold gets; rewrite Hg; reflexivity).
  cbn [negb]. rewrite (eq_str_other mtype "chat" "quit" Hc) by discriminate. rewrite Hc.
  rewrite bind_send. fold ack.
  destruct (accepts (clients st c)) eqn:Ea; cbn [fst snd].
  - split; [ | reflexivity]. apply deliver_only_reply.
  - split; [ | discriminate]. apply deliver_only_reply.
Qed.

Lemma lobby_chat_acknowledged_witness :
  let line := Line (Decoded (VDict [("type", VStr "chat"); ("text", VStr "hi")])) in
  let st := Scripted.lobby in
  only_reply 0 (Chat (Some "server") (Text "(lobby) message ignored; waiting for pairing"))
             st (exec (loop_body 0 line) st) /\
  outcome (loop_body 0 line) st = Ok Continue.
Proof.
  intros line st.
  destruct (lobby_chat_acknowledged 0 [("type", VStr "chat"); ("text", VStr "hi")]
              (VStr "chat") st
              ltac:(by_computation) ltac:(by_computation) ltac:(by_computation)
              ltac:(by_computation))
    as (H1 & H2).
  split; [exact H1 | exact (H2 ltac:(by_computation))].
Defined.

(** X8. [quit] in the lobby.  The session is written [welcome] with
    [ok] false, its thread runs to its end whatever lines follow, and the
    session is closed and out of the queue; no other session and no game
    change. *)
Theorem lobby_quit_leaves `{RE : RulesEngine}
    (c : nat) (items : list (string * value)) (mtype : value)
    (rest : list read_outcome) (st : Server) :
  taken_as (VDict items) = AsMessage ->
  alive (clients st c) = true ->
  in_game (clients st c) = false ->
  assoc "type" items = Some mtype ->
  eq_str mtype "quit" = true ->
  let thread := client_resume c (Line (Decoded (VDict items)) :: rest) in
  let st' := exec thread st in
  outcome thread st = Ok Done /\
  outbox (clients st' c) =
    (outbox (clients st c) ++ written (clients st c) [Welcome false])%list /\
  closed (clients st' c) = true /\
  alive (clients st' c) = false /\
  waiting_queue st' = remove_first c (waiting_queue st) /\
  (forall c', c' <> c -> clients st' c' = clients st c') /\
  games st' = games st.
Proof.
  intros Hm Ha Hg Ht Hq thread st'.
  destruct (read_loop_quit c items mtype rest st Hm Ha Hg Ht Hq) as (res & Hres & Hr).
  set (st1 := if accepts (clients st c) then shut c (deliver c (Welcome false) st)
              else deliver c (Welcome false) st) in *.
  assert (H1 : in_game (clients st1 c) = false /\
               outbox (clients st1 c) =
                 (outbox (clients st c) ++ written (clients st c) [Welcome false])%list /\
               waiting_queue st1 = waiting_queue st /\
               (forall c', c' <> c -> clients st1 c' = clients st c') /\
               games st1 = games st).
  { subst st1. unfold written. destruct (accepts (clients st c)) eqn:Ea.
    - unfold shut. simpl. rewrite Nat.eqb_refl, Ea. simpl. repeat split; try assumption.
      intros c' H. apply Nat.eqb_neq in H. rewrite H. reflexivity.
    - rewrite in_game_deliver, outbox_deliver, Nat.eqb_refl. unfold written. rewrite Ea.
      repeat split; try assumption. intros c' H. apply clients_deliver_other, H. }
  destruct H1 as (Hg1 & Ho1 & Hq1 & Hc1 & Hgm1).
  destruct (lobby_exit c _ st st1 res Hr Hres Hg1) as (Hd & Hq' & Hcl & Hal & Ho & Hc' & Hgm').
  fold thread in Hd, Hq', Hcl, Hal, Ho, Hc', Hgm'. fold st' in Hq', Hcl, Hal, Ho, Hc', Hgm'.
  repeat split; try assumption; try congruence.
  intros c' H. rewrite (Hc' c' H). apply Hc1, H.
Qed.

Lemma lobby_quit_leaves_witness :
  let thread := client_resume 0 [Line (Decoded (VDict [("type", VStr "quit")]))] in
  let st := Scripted.lobby in
  outcome thread st = Ok Done /\
  outbox (clients (exec thread st) 0) = (outbox (clients st 0) ++ [Welcome false])%list /\
  closed (clients (exec thread st) 0) = true /\
  waiting_queue (exec thread st) = [1].
Proof.
  intros thread st.
  destruct (lobby_quit_leaves 0 [("type", VStr "quit")] (VStr "quit") [] st
              ltac:(by_computation) ltac:(by_computation) ltac:(by_computation)
              ltac:(by_computation) ltac:(by_computation))
    as (H1 & H2 & H3 & _ & H5 & _).
  split; [exact H1 | ]. split; [exact H2 | ]. split; [exact H3 | exact H5].
Defined.

(** ** The end of a session thread *)

Section Departure.
Context {RE : RulesEngine}.

Lemma clients_dequeue (c : nat) (st : Server) : clients (dequeue c st) = clients st.
Proof. unfold dequeue. destruct (existsb _ _); reflexivity. Qed.

Lemma games_dequeue (c : nat) (st : Server) : games (dequeue c st) = games st.
Proof. unfold dequeue. destruct (existsb _ _); reflexivity. Qed.

Lemma queue_dequeue (c : nat) (st : Server) :
  waiting_queue (dequeue c st) = remove_first c (waiting_queue st).
Proof.
  unfold dequeue. destruct (existsb _ _) eqn:E; [reflexivity | ].
  symmetry. apply remove_first_absent. intro H. apply existsb_in in H. congruence.
Qed.

Lemma client_finally_spec (c : nat) (st : Server) :
  client_finally c st = (Ok tt, departed c st).
Proof.
  unfold client_finally, departed.
  assert (Hd : (q <- gets waiting_queue;;
                if existsb (Nat.eqb c) q then modify (set_queue (remove_first c q))
                else ret tt) st = (Ok tt, dequeue c st)).
  { unfold dequeue, bind, gets, modify, ret.
    destruct (existsb (Nat.eqb c) (waiting_queue st)); reflexivity. }
  unfold bind at 1. unfold bind at 1. unfold bind at 1 in Hd.
  destruct (gets waiting_queue st) as [[q | e] st0] eqn:Eg; [ | discriminate Eg].
  rewrite Hd. set (st1 := dequeue c st).
  rewrite (bind_ok (gets _) _ st1 (in_game (clients st1 c)) st1) by reflexivity.
  rewrite (bind_ok (gets _) _ st1 (game (clients st1 c)) st1) by reflexivity.
  destruct (in_game (clients st1 c)).
  - destruct (game (clients st1 c)) as [g | ].
    + rewrite bind_try_pass. reflexivity.
    + reflexivity.
  - reflexivity.
Qed.

Lemma client_resume_ends (c : nat) (inputs : list read_outcome) (st st1 : Server)
    (res : result progress) :
  read_loop c inputs st = (res, st1) ->
  res <> Ok Waiting ->
  client_resume c inputs st = (Ok Done, departed c st1).
Proof.
  intros Hr Hres. unfold client_resume. rewrite Hr.
  assert (Hf : (client_finally c;; ret Done) st1 = (Ok Done, departed c st1)).
  { rewrite (bind_ok _ _ st1 tt _ (client_finally_spec c st1)). reflexivity. }
  destruct res as [[ | ] | e]; [congruence | exact Hf | exact Hf].
Qed.

Lemma read_loop_dead (c : nat) (inputs : list read_outcome) (st : Server) :
  alive (clients st c) = false -> read_loop c inputs st = (Ok Done, st).
Proof.
  intro Ha. destruct inputs; simpl;
    rewrite (bind_ok (gets _) _ st (alive (clients st c)) st) by reflexivity;
    rewrite Ha; reflexivity.
Qed.

Lemma detach_clients (g : nat) (st : Server) (c : nat) :
  let gm := games st g in
  let off := fun p => set_color None (set_game None (set_in_game false p)) in
  clients (detach g st) c =
    if Nat.eqb c (black gm)
    then off (if Nat.eqb (black gm) (white gm) then off (clients st (white gm))
              else clients st (black gm))
    else if Nat.eqb c (white gm) then off (clients st (white gm))
    else clients st c.
Proof.
  unfold detach, _end_game, bind, modify, gets. simpl. rewrite Nat.eqb_refl. simpl.
  reflexivity.
Qed.

Lemma detach_session (g : nat) (st : Server) (c : nat) :
  outbox (clients (detach g st) c) = outbox (clients st c) /\
  closed (clients (detach g st) c) = closed (clients st c) /\
  alive (clients (detach g st) c) = alive (clients st c) /\
  writable (clients (detach g st) c) = writable (clients st c) /\
  name (clients (detach g st) c) = name (clients st c) /\
  (c = white (games st g) \/ c = black (games st g) ->
   in_game (clients (detach g st) c) = false /\
   game (clients (detach g st) c) = None /\
   color (clients (detach g st) c) = None) /\
  (c <> white (games st g) -> c <> black (games st g) ->
   clients (detach g st) c = clients st c).
Proof.
  rewrite (detach_clients g st c). cbv zeta.
  destruct (Nat.eqb c (black (games st g))) eqn:Eb.
  - apply Nat.eqb_eq in Eb. subst c.
    destruct (Nat.eqb (black (games st g)) (white (games st g))) eqn:Ew.
    + apply Nat.eqb_eq in Ew. rewrite <- Ew. simpl. intuition congruence.
    + simpl. intuition congruence.
  - apply Nat.eqb_neq in Eb.
    destruct (Nat.eqb c (white (games st g))) eqn:Ew.
    + apply Nat.eqb_eq in Ew. subst c. simpl. intuition congruence.
    + apply Nat.eqb_neq in Ew. simpl. intuition congruence.
Qed.

Lemma detach_frame (g : nat) (st : Server) :
  waiting_queue (detach g st) = waiting_queue st /\
  n_games (detach g st) = n_games st /\
  (forall g', white (games (detach g st) g') = white (games st g') /\
              black (games (detach g st) g') = black (games st g') /\
              board (games (detach g st) g') = board (games st g')) /\
  (forall g', g' <> g -> games (detach g st) g' = games st g').
Proof.
  unfold detach, _end_game, bind, modify, gets. simpl. repeat split.
  - destruct (Nat.eqb g' g) eqn:E; [apply Nat.eqb_eq in E; subst g' | ]; reflexivity.
  - destruct (Nat.eqb g' g) eqn:E; [apply Nat.eqb_eq in E; subst g' | ]; reflexivity.
  - destruct (Nat.eqb g' g) eqn:E; [apply Nat.eqb_eq in E; subst g' | ]; reflexivity.
  - intros g' H. apply Nat.eqb_neq in H. rewrite H. reflexivity.
Qed.

End Departure.

(** X9. The end of the stream (or a failed read, or the line [null])
    for a session that is not in a game: the thread ends, the session is
    taken out of the queue, where the sessions before it and after it keep
    their order, and is closed; it is written nothing, and no other session
    and no game change. *)
Theorem disconnect_leaves_queue `{RE : RulesEngine}
    (c : nat) (r : read_outcome) (rest : list read_outcome)
    (st : Server) :
  taken_as (recv_line r) = AsDisconnect ->
  alive (clients st c) = true ->
  in_game (clients st c) = false ->
  let thread := client_resume c (r :: rest) in
  let q := waiting_queue st in
  let st' := exec thread st in
  outcome thread st = Ok Done /\
  waiting_queue st' = remove_first c q /\
  (In c q -> exists q1 q2, q = (q1 ++ c :: q2)%list /\ ~ In c q1 /\
                           waiting_queue st' = (q1 ++ q2)%list) /\
  (~ In c q -> waiting_queue st' = q) /\
  outbox (clients st' c) = outbox (clients st c) /\
  closed (clients st' c) = true /\
  alive (clients st' c) = false /\
  (forall c', c' <> c -> clients st' c' = clients st c') /\
  games st' = games st.
Proof.
  intros Hd Ha Hg thread q st'.
  assert (Hr : read_loop c (r :: rest) st = (Ok Done, upd_client c (set_alive false) st)).
  { apply read_loop_break; [exact Ha | apply loop_body_disconnect, Hd]. }
  destruct (lobby_exit c _ st _ (Ok Done) Hr) as (Ho & Hq & Hcl & Hal & Hob & Hc & Hgm).
  { discriminate. }
  { simpl. rewrite Nat.eqb_refl. exact Hg. }
  fold thread in Ho, Hq, Hcl, Hal, Hob, Hc, Hgm. fold st' in Hq, Hcl, Hal, Hob, Hc, Hgm.
  simpl in Hq, Hob, Hgm. rewrite Nat.eqb_refl in Hob. simpl in Hob. fold q in Hq.
  repeat split; try assumption.
  - intro Hin. destruct (remove_first_split c q Hin) as (q1 & q2 & E1 & E2 & E3).
    exists q1, q2. repeat split; try assumption. congruence.
  - intro Hn. rewrite Hq. apply remove_first_absent, Hn.
  - intros c' H. rewrite (Hc c' H). simpl. apply Nat.eqb_neq in H. rewrite H. reflexivity.
Qed.

Lemma disconnect_leaves_queue_witness :
  let thread := client_resume 0 [EndOfStream] in
  let st := Scripted.lobby in
  outcome thread st = Ok Done /\
  waiting_queue (exec thread st) = [1] /\
  outbox (clients (exec thread st) 0) = outbox (clients st 0) /\
  closed (clients (exec thread st) 0) = true.
Proof.
  intros thread st.
  destruct (disconnect_leaves_queue 0 EndOfStream [] st
              ltac:(by_computation) ltac:(by_computation) ltac:(by_computation))
    as (H1 & H2 & _ & _ & H5 & H6 & _).
  split; [exact H1 | ]. split; [exact H2 | ]. split; [exact H5 | exact H6].
Defined.

(** X10. The end of the stream for a session in a live game: the
    [finally] block forfeits the game.  The peer is written [opponent_left]
    and the [result] of a forfeit that it won, the session itself is
    written nothing and is closed, the game has ended, neither player is in
    a game any more, and the connection of the peer is as open as it was. *)
Theorem disconnect_in_game_forfeits `{RE : RulesEngine}
    (c g : nat) (r : read_outcome)
    (rest : list read_outcome) (st : Server) :
  taken_as (recv_line r) = AsDisconnect ->
  alive (clients st c) = true ->
  in_game (clients st c) = true ->
  game (clients st c) = Some g ->
  ended (games st g) = false ->
  white (games st g) <> black (games st g) ->
  c = white (games st g) \/ c = black (games st g) ->
  let thread := client_resume c (r :: rest) in
  let peer := _peer (games st g) c in
  let st' := exec thread st in
  outcome thread st = Ok Done /\
  outbox (clients st' peer) =
    (outbox (clients st peer) ++
     written (clients st peer)
       [OpponentLeft; Result "forfeit" (color (clients st peer))])%list /\
  outbox (clients st' c) = outbox (clients st c) /\
  ended (games st' g) = true /\
  closed (clients st' c) = true /\
  in_game (clients st' c) = false /\
  in_game (clients st' peer) = false /\
  closed (clients st' peer) = closed (clients st peer).
Proof.
  intros Hd Ha Hg Hgm E Hwb Hc thread peer st'.
  set (st1 := upd_client c (set_alive false) st).
  assert (Hr : read_loop c (r :: rest) st = (Ok Done, st1)).
  { apply read_loop_break; [exact Ha | apply loop_body_disconnect, Hd]. }
  assert (Hrun := client_resume_ends c _ st st1 (Ok Done) Hr).
  fold thread in Hrun. specialize (Hrun ltac:(discriminate)).
  assert (Hne : peer <> c) by (apply peer_differs, Hwb).
  assert (Hpl : peer = white (games st g) \/ peer = black (games st g)).
  { unfold peer, _peer. destruct (Nat.eqb c (white (games st g))); auto. }
  set (st2 := dequeue c st1).
  assert (Hc2 : clients st2 = clients st1) by apply clients_dequeue.
  assert (Hg2 : games st2 = games st) by (unfold st2; rewrite games_dequeue; reflexivity).
  assert (Hp2 : clients st2 peer = clients st peer).
  { rewrite Hc2. simpl. apply Nat.eqb_neq in Hne. rewrite Hne. reflexivity. }
  assert (Hst : st' = shut c (exec (_handle_disconnect g c) st2)).
  { unfold st', exec. rewrite Hrun. cbn [snd]. unfold departed. fold st2.
    rewrite Hc2. simpl. rewrite Nat.eqb_refl. simpl. rewrite Hg, Hgm. reflexivity. }
  assert (E2 : ended (games st2 g) = false) by (rewrite Hg2; exact E).
  assert (Hlive := handle_disconnect_live g c st2 E2). cbv zeta in Hlive.
  destruct (forfeit_effect g c st2 E2) as (Ho & Hothers & He).
  rewrite Hg2 in Ho, Hothers, Hlive. fold peer in Ho, Hothers, Hlive.
  rewrite Hp2 in Ho, Hlive.
  set (st3 := exec (_handle_disconnect g c) st2) in *.
  assert (Hshut : forall x, outbox (clients (shut c st3) x) = outbox (clients st3 x) /\
                            in_game (clients (shut c st3) x) = in_game (clients st3 x)).
  { intro x. unfold shut. simpl. destruct (Nat.eqb x c) eqn:Ex; [ | split; reflexivity].
    apply Nat.eqb_eq in Ex. subst x. split; reflexivity. }
  assert (Hdet : forall x, x = white (games st g) \/ x = black (games st g) ->
                           in_game (clients st3 x) = false).
  { intros x Hx. rewrite Hlive.
    match goal with |- context [detach g ?s] =>
      assert (Hgs : games s = games st)
        by (destruct (accepts (clients st peer)); rewrite ?games_deliver; exact Hg2);
      destruct (detach_session g s x) as (_ & _ & _ & _ & _ & Hin & _)
    end.
    rewrite Hgs in Hin. apply Hin, Hx. }
  rewrite Hst. split; [unfold outcome; rewrite Hrun; reflexivity | ].
  split; [rewrite (proj1 (Hshut peer)); exact Ho | ].
  split.
  { rewrite (proj1 (Hshut c)), (Hothers c (not_eq_sym Hne)), Hc2. simpl.
    rewrite Nat.eqb_refl. reflexivity. }
  split; [exact He | ].
  split; [unfold shut; simpl; rewrite Nat.eqb_refl; reflexivity | ].
  split; [rewrite (proj2 (Hshut c)); apply Hdet, Hc | ].
  split; [rewrite (proj2 (Hshut peer)); apply Hdet, Hpl | ].
  unfold shut. simpl. apply Nat.eqb_neq in Hne. rewrite Hne.
  rewrite Hlive.
  match goal with |- context [detach g ?s] =>
    destruct (detach_session g s peer) as (_ & Hcl & _)
  end.
  rewrite Hcl. destruct (accepts (clients st peer));
    rewrite ?closed_deliver; rewrite Hp2; reflexivity.
Qed.

Lemma disconnect_in_game_forfeits_witness :
  let thread := client_resume 0 [EndOfStream] in
  let st := Scripted.paired in
  outcome thread st = Ok Done /\
  outbox (clients (exec thread st) 1) =
    (outbox (clients st 1) ++ [OpponentLeft; Result "forfeit" (Some "black")])%list /\
  ended (games (exec thread st) 0) = true /\
  closed (clients (exec thread st) 0) = true /\
  closed (clients (exec thread st) 1) = closed (clients st 1).
Proof.
  intros thread st.
  destruct (disconnect_in_game_forfeits 0 0 EndOfStream [] st
              ltac:(by_computation) ltac:(by_computation) ltac:(by_computation)
              ltac:(by_computation) ltac:(by_computation) ltac:(by_computation)
              ltac:(by_computation))
    as (H1 & H2 & _ & H4 & H5 & _ & _ & H8).
  split; [exact H1 | ]. split; [exact H2 | ]. split; [exact H4 | ].
  split; [exact H5 | exact H8].
Defined.

(** ** What the methods of a game change *)

Section Changes.
Context {RE : RulesEngine}.

Lemma changes_trans g a b c : changes g a b -> changes g b c -> changes g a c.
Proof.
  intros Hab Hbc. induction Hab; [exact Hbc | ].
  eapply changes_step; [eassumption | apply IHHab, Hbc].
Qed.

Lemma changes_one g st st' : change g st st' -> changes g st st'.
Proof. intro H. eapply changes_step; [exact H | apply changes_none]. Qed.

Lemma goes_on_refl g st : goes_on g st st.
Proof. split; [apply changes_none | reflexivity]. Qed.

Lemma goes_on_trans g a b c : goes_on g a b -> goes_on g b c -> goes_on g a c.
Proof.
  intros [H1 E1] [H2 E2]. split; [eapply changes_trans; eassumption | congruence].
Qed.

Lemma goes_on_deliver g c obj st : goes_on g st (deliver c obj st).
Proof. split; [apply changes_one, change_write | rewrite games_deliver; reflexivity]. Qed.

Lemma goes_on_board g b st : goes_on g st (upd_game g (set_board b) st).
Proof.
  split; [apply changes_one, change_board | ]. simpl. rewrite Nat.eqb_refl. reflexivity.
Qed.

Lemma goes_on_send g c obj : always (goes_on g) (send c obj).
Proof. exact (always_send (goes_on g) (goes_on_deliver g) c obj). Qed.

Lemma goes_on_bind g {A B} (m : M A) (k : A -> M B) :
  always (goes_on g) m -> (forall a, always (goes_on g) (k a)) ->
  always (goes_on g) (bind m k).
Proof. exact (always_bind (goes_on g) (goes_on_trans g) m k). Qed.

Lemma goes_on_gets g {A} (f : Server -> A) : always (goes_on g) (gets f).
Proof. exact (always_gets (goes_on g) (goes_on_refl g) f). Qed.

Lemma goes_on_broadcast g a b obj :
  always (goes_on g) (try_pass (send a obj;; send b obj)).
Proof.
  apply always_try_pass, goes_on_bind; [apply goes_on_send | intro; apply goes_on_send].
Qed.

Lemma goes_on_send_state g g' : always (goes_on g) (_send_state g').
Proof.
  exact (always_send_state (goes_on g) (goes_on_refl g) (goes_on_trans g)
           (goes_on_deliver g) g').
Qed.

Lemma tame_goes_on g {A} (m : M A) : always (goes_on g) m -> tame g m.
Proof. intros H st _. apply H. Qed.

Lemma tame_bind g {A B} (m : M A) (k : A -> M B) :
  always (goes_on g) m -> (forall a, tame g (k a)) -> tame g (bind m k).
Proof.
  intros Hm Hk st E. unfold bind. destruct (Hm st) as [Hc He].
  destruct (m st) as [[a | e] st1]; simpl in *; [ | exact Hc].
  eapply changes_trans; [exact Hc | ]. apply Hk. congruence.
Qed.

Lemma tame_then g {A B} (m : M A) (b : B) : tame g m -> tame g (m;; ret b).
Proof.
  intros Hm st E. specialize (Hm st E). unfold bind, ret.
  destruct (m st) as [[a | e] st1]; exact Hm.
Qed.

Lemma tame_try_pass g (m : M unit) : tame g m -> tame g (try_pass m).
Proof. intros Hm st E. apply Hm, E. Qed.

Lemma tame_try_except g (m h : M unit) :
  always (goes_on g) m -> tame g h -> tame g (try_except m h).
Proof.
  intros Hm Hh st E. unfold try_except. destruct (Hm st) as [Hc He].
  destruct (m st) as [[a | e] st1]; simpl in *; [exact Hc | ].
  eapply changes_trans; [exact Hc | ]. apply Hh. congruence.
Qed.

Lemma tame_end_game g : tame g (_end_game g).
Proof. intros st E. rewrite end_game_detach. apply changes_one, change_end, E. Qed.

Lemma tame_handle_disconnect g c : tame g (_handle_disconnect g c).
Proof.
  unfold _handle_disconnect. apply tame_bind; [apply goes_on_gets | intro gm].
  destruct (ended gm); [apply tame_goes_on, (always_ret _ (goes_on_refl g)) | ].
  apply tame_bind; [ | intros _; apply tame_end_game].
  apply always_try_pass, goes_on_bind; [apply goes_on_send | intros _].
  apply goes_on_bind; [apply goes_on_gets | intro; apply goes_on_send].
Qed.

Lemma tame_handle_chat g c msg : tame g (_handle_chat g c msg).
Proof.
  unfold _handle_chat.
  apply tame_bind; [apply (always_dict_get_default _ (goes_on_refl g)) | intro v].
  apply tame_bind; [apply goes_on_gets | intro gm].
  apply tame_bind; [apply goes_on_gets | intro from].
  apply tame_try_except; [apply goes_on_send | apply tame_handle_disconnect].
Qed.

Lemma tame_handle_resign g c : tame g (_handle_resign g c).
Proof.
  unfold _handle_resign. apply tame_bind; [apply goes_on_gets | intro gm].
  destruct (ended gm); [apply tame_goes_on, (always_ret _ (goes_on_refl g)) | ].
  apply tame_bind; [apply goes_on_gets | intro k].
  apply tame_bind; [apply always_try_pass, goes_on_send | intros _].
  apply tame_bind; [apply always_try_pass, goes_on_send | intros _].
  apply tame_end_game.
Qed.

Lemma tame_check_terminal g : tame g (check_terminal g).
Proof.
  unfold check_terminal. apply tame_bind; [apply goes_on_gets | intro gm].
  destruct (board_result (board gm)) as [r | ];
    [ | apply tame_goes_on, (always_ret _ (goes_on_refl g))].
  destruct (String.eqb r ""); [apply tame_goes_on, (always_ret _ (goes_on_refl g)) | ].
  destruct (if String.eqb r "1-0" then _ else _) as [winner outcome].
  apply tame_bind; [apply goes_on_broadcast | intros _; apply tame_end_game].
Qed.

Lemma tame_handle_move g c msg : tame g (_handle_move g c msg).
Proof.
  unfold _handle_move.
  apply tame_bind; [apply (always_dict_get _ (goes_on_refl g)) | intro uci].
  destruct (as_str uci) as [s | ]; [ | apply tame_goes_on, goes_on_send].
  apply tame_bind; [apply goes_on_gets | intro gm].
  apply tame_bind; [apply goes_on_gets | intro k].
  destruct (negb _); [apply tame_goes_on, goes_on_send | ].
  destruct (new_move s) as [mv | ]; [ | apply tame_goes_on, goes_on_send].
  destruct (make_move (board gm) mv) as [[ok reason] b'].
  apply tame_bind; [apply always_modify; intro; apply goes_on_board | intros _].
  destruct (negb ok); [apply tame_goes_on, goes_on_send | ].
  apply tame_bind; [apply goes_on_gets | intro by_color].
  apply tame_bind; [apply goes_on_broadcast | intros _].
  apply tame_bind; [apply goes_on_send_state | intros _; apply tame_check_terminal].
Qed.

Lemma tame_process_message g c msg : tame g (process_message g c msg).
Proof.
  unfold process_message. apply tame_bind; [apply goes_on_gets | intro gm].
  destruct (ended gm); [apply tame_goes_on, (always_ret _ (goes_on_refl g)) | ].
  apply tame_try_pass, tame_bind; [apply (always_dict_get _ (goes_on_refl g)) | intro mtype].
  destruct (eq_str mtype "move"); [apply tame_handle_move | ].
  destruct (eq_str mtype "chat"); [apply tame_handle_chat | ].
  destruct (eq_str mtype "resign"); [apply tame_handle_resign | ].
  destruct (eq_str mtype "quit"); [apply tame_handle_disconnect | ].
  apply tame_goes_on, goes_on_send.
Qed.

Lemma tame_monitor_loop g : tame g (monitor_loop g).
Proof.
  unfold monitor_loop. apply tame_bind; [apply goes_on_gets | intro gm].
  destruct (ended gm); [apply tame_goes_on, (always_ret _ (goes_on_refl g)) | ].
  apply tame_bind; [apply goes_on_gets | intro wa].
  destruct (negb wa); [apply tame_then, tame_handle_disconnect | ].
  apply tame_bind; [apply goes_on_gets | intro ba].
  destruct (negb ba); [apply tame_then, tame_handle_disconnect | ].
  apply tame_goes_on, (always_ret _ (goes_on_refl g)).
Qed.

Lemma fire_changes g t st : changes g st (exec (fire g t) st).
Proof.
  destruct (ended (games st g)) eqn:E.
  - unfold exec. rewrite (fire_ended_noop g t st E). apply changes_none.
  - destruct t; [apply tame_process_message, E | apply tame_handle_disconnect, E].
Qed.

Lemma monitor_loop_changes g st : changes g st (exec (monitor_loop g) st).
Proof.
  destruct (ended (games st g)) eqn:E.
  - unfold exec, monitor_loop, bind, gets. rewrite E. apply changes_none.
  - apply tame_monitor_loop, E.
Qed.

Lemma run_changes g ts st : changes g st (run g ts st).
Proof.
  revert st. induction ts as [ | t ts IH]; intro st; [apply changes_none | ].
  simpl. eapply changes_trans; [apply fire_changes | apply IH].
Qed.

End Changes.

(** ** What a game leaves as it is *)

Section Frames.
Context {RE : RulesEngine}.

Lemma deliver_session (c : nat) (obj : message) (st : Server) (c' : nat) :
  writable (clients (deliver c obj st) c') = writable (clients st c') /\
  in_game (clients (deliver c obj st) c') = in_game (clients st c') /\
  game (clients (deliver c obj st) c') = game (clients st c') /\
  color (clients (deliver c obj st) c') = color (clients st c') /\
  name (clients (deliver c obj st) c') = name (clients st c') /\
  closed (clients (deliver c obj st) c') = closed (clients st c').
Proof.
  unfold deliver. simpl. destruct (Nat.eqb c' c) eqn:E; [ | repeat split].
  apply Nat.eqb_eq in E. subst c'. destruct (accepts (clients st c)); repeat split.
Qed.

Lemma session_kept_refl st : session_kept st st.
Proof. intro c. repeat split; auto. exists []. symmetry. apply app_nil_r. Qed.

Lemma session_kept_trans a b c : session_kept a b -> session_kept b c -> session_kept a c.
Proof.
  intros H1 H2 x.
  destruct (H1 x) as ((l1 & Ho1) & Hn1 & Hw1 & Hc1 & Hm1 & Ha1).
  destruct (H2 x) as ((l2 & Ho2) & Hn2 & Hw2 & Hc2 & Hm2 & Ha2).
  repeat split; try congruence.
  - exists (l1 ++ l2)%list. rewrite Ho2, Ho1, app_assoc. reflexivity.
  - intro Hx. rewrite Hn2, Hn1; [reflexivity | exact Hx | ].
    unfold accepts in *. rewrite Hw1, Hc1. exact Hx.
  - intro Hx. apply Ha2, Ha1, Hx.
Qed.

Lemma change_session_kept g st st' : change g st st' -> session_kept st st'.
Proof.
  intros [c obj | b | E] x.
  - destruct (deliver_session c obj st x) as (Hw & _ & _ & _ & Hn & Hc).
    rewrite outbox_deliver, alive_deliver. repeat split; try assumption.
    + destruct (Nat.eqb x c) eqn:Ex; [ | exists []; symmetry; apply app_nil_r].
      apply Nat.eqb_eq in Ex. subst x. eexists. reflexivity.
    + intro Ha. destruct (Nat.eqb x c) eqn:Ex; [ | reflexivity].
      apply Nat.eqb_eq in Ex. subst x. unfold written. rewrite Ha. apply app_nil_r.
    + intro Ha. destruct (Nat.eqb x c) eqn:Ex; [ | exact Ha].
      apply Nat.eqb_eq in Ex. subst x. rewrite Ha. reflexivity.
  - exact (session_kept_refl st x).
  - destruct (detach_session g st x) as (Ho & Hc & Ha & Hw & Hn & _).
    repeat split; try assumption; try congruence.
    exists []. rewrite Ho. symmetry. apply app_nil_r.
Qed.

Lemma changes_session_kept g st st' : changes g st st' -> session_kept st st'.
Proof.
  induction 1; [apply session_kept_refl | ].
  eapply session_kept_trans; [eapply change_session_kept; eassumption | assumption].
Qed.

Lemma lobby_kept_refl g st : lobby_kept g st st.
Proof. repeat split. Qed.

Lemma lobby_kept_trans g a b c : lobby_kept g a b -> lobby_kept g b c -> lobby_kept g a c.
Proof.
  intros (Hq1 & Hn1 & Hg1 & Hw1 & Hb1 & Hc1) (Hq2 & Hn2 & Hg2 & Hw2 & Hb2 & Hc2).
  repeat split; try congruence.
  - intros g' H. rewrite Hg2, Hg1; auto.
  - destruct (Hc1 c0 H H0) as (E1 & _). rewrite Hw1, Hb1 in Hc2.
    destruct (Hc2 c0 H H0) as (E2 & _). congruence.
  - destruct (Hc1 c0 H H0) as (_ & E1 & _). rewrite Hw1, Hb1 in Hc2.
    destruct (Hc2 c0 H H0) as (_ & E2 & _). congruence.
  - destruct (Hc1 c0 H H0) as (_ & _ & E1). rewrite Hw1, Hb1 in Hc2.
    destruct (Hc2 c0 H H0) as (_ & _ & E2). congruence.
Qed.

Lemma change_lobby_kept g st st' : change g st st' -> lobby_kept g st st'.
Proof.
  intros [c obj | b | E].
  - repeat split; apply deliver_session.
  - unfold lobby_kept. simpl. rewrite Nat.eqb_refl. repeat split.
    intros g' H. apply Nat.eqb_neq in H. rewrite H. reflexivity.
  - destruct (detach_frame g st) as (Hq & Hn & Hp & Hg).
    destruct (Hp g) as (Hw & Hb & _).
    repeat split; auto;
      destruct (detach_session g st c) as (_ & _ & _ & _ & _ & _ & Hs);
      rewrite (Hs H H0); reflexivity.
Qed.

Lemma changes_lobby_kept g st st' : changes g st st' -> lobby_kept g st st'.
Proof.
  induction 1; [apply lobby_kept_refl | ].
  eapply lobby_kept_trans; [eapply change_lobby_kept; eassumption | assumption].
Qed.

End Frames.

(** X11. Whatever messages and disconnects reach a game, and when its
    monitor takes a turn: no outbox loses a message, a session whose
    connection takes no write is written nothing, no connection is closed
    or reopened, no session is renamed, and no dead session comes alive. *)
Theorem game_keeps_sessions `{RE : RulesEngine}
    (g : nat) (ts : list trigger) (st : Server) :
  session_kept st (run g ts st) /\ session_kept st (exec (monitor_loop g) st).
Proof.
  split; eapply changes_session_kept; [apply run_changes | apply monitor_loop_changes].
Qed.

(** X12. Whatever messages and disconnects reach a game, and when its
    monitor takes a turn: the queue and the number of games are as they
    were, so is every other game, the two players of the game are the same,
    and a session that is not one of them keeps its game, its colour and
    its [in_game] flag. *)
Theorem game_keeps_lobby `{RE : RulesEngine}
    (g : nat) (ts : list trigger) (st : Server) :
  lobby_kept g st (run g ts st) /\ lobby_kept g st (exec (monitor_loop g) st).
Proof.
  split; eapply changes_lobby_kept; [apply run_changes | apply monitor_loop_changes].
Qed.

(** ** Well-formed states *)

Section Shape.
Context {RE : RulesEngine}.

Lemma triple_bind (P Q' Q : Server -> Prop) {A B} (m : M A) (k : A -> M B) :
  triple P m Q' -> (forall st, Q' st -> Q st) -> (forall a, triple Q' (k a) Q) ->
  triple P (bind m k) Q.
Proof.
  intros Hm Hw Hk st HP. unfold bind. specialize (Hm st HP).
  destruct (m st) as [[a | e] st1]; simpl in *; [apply Hk, Hm | apply Hw, Hm].
Qed.

Lemma keeps_bind (P : Server -> Prop) {A B} (m : M A) (k : A -> M B) :
  triple P m P -> (forall a, triple P (k a) P) -> triple P (bind m k) P.
Proof. intros Hm Hk. apply (triple_bind P P P); auto. Qed.

Lemma triple_pure (P Q : Server -> Prop) {A} (m : M A) :
  (forall st, snd (m st) = st) -> (forall st, P st -> Q st) -> triple P m Q.
Proof. intros Hm Hw st HP. rewrite Hm. apply Hw, HP. Qed.

Lemma keeps_ret (P : Server -> Prop) {A} (a : A) : triple P (ret a) P.
Proof. apply triple_pure; auto. Qed.

Lemma keeps_gets (P : Server -> Prop) {A} (f : Server -> A) : triple P (gets f) P.
Proof. apply triple_pure; auto. Qed.

Lemma keeps_dict_get (P : Server -> Prop) (v : value) (k : string) :
  triple P (dict_get v k) P.
Proof.
  apply triple_pure; auto. intro st. unfold dict_get. destruct v; try reflexivity.
  destruct (assoc k items); reflexivity.
Qed.

Lemma triple_modify (P Q : Server -> Prop) (f : Server -> Server) :
  (forall st, P st -> Q (f st)) -> triple P (modify f) Q.
Proof. intros H st HP. apply H, HP. Qed.

Lemma keeps_try_pass (P : Server -> Prop) (m : M unit) :
  triple P m P -> triple P (try_pass m) P.
Proof. intros H st HP. apply H, HP. Qed.

Lemma same_shape_refl st : same_shape st st.
Proof. repeat split. Qed.

Lemma same_shape_deliver c obj st : same_shape st (deliver c obj st).
Proof. repeat split; apply deliver_session. Qed.

Lemma same_shape_board g b st : same_shape st (upd_game g (set_board b) st).
Proof.
  repeat split; simpl; destruct (Nat.eqb g0 g) eqn:E; try reflexivity;
    apply Nat.eqb_eq in E; subst g0; reflexivity.
Qed.

Lemma same_shape_client c f st :
  (forall cl, in_game (f cl) = in_game cl /\ game (f cl) = game cl /\
              color (f cl) = color cl) ->
  same_shape st (upd_client c f st).
Proof.
  intro Hf. repeat split; simpl; destruct (Nat.eqb c0 c) eqn:E; try reflexivity;
    apply Nat.eqb_eq in E; subst c0; apply Hf.
Qed.

Lemma well_formed_shape st st' : same_shape st st' -> well_formed st -> well_formed st'.
Proof.
  intros (Hq & Hn & Hg & Hc) (W1 & W2 & W3 & W4). unfold well_formed, linked in *.
  rewrite Hq, Hn. split; [exact W1 | ]. split; [ | split].
  - intros c Hin. rewrite (proj1 (Hc c)). apply W2, Hin.
  - intros g E. destruct (Hg g) as (He & Hw & Hb). rewrite He in E. rewrite Hw, Hb.
    destruct (W3 g E) as (A1 & A2 & A3 & A4).
    destruct (Hc (white (games st g))) as (B1 & B2 & B3).
    destruct (Hc (black (games st g))) as (C1 & C2 & C3).
    rewrite B1, B2, B3, C1, C2, C3. auto.
  - intros c Hin. destruct (Hc c) as (B1 & B2 & B3). rewrite B1 in Hin. rewrite B2.
    destruct (W4 c Hin) as (g & E & Hgm & Hp). exists g.
    destruct (Hg g) as (He & Hw & Hb). rewrite He, Hw, Hb. auto.
Qed.

Lemma sound_shape seen st st' : same_shape st st' -> sound seen st -> sound seen st'.
Proof.
  intros Hs [W S]. split; [eapply well_formed_shape; eassumption | ].
  destruct Hs as (Hq & _ & _ & Hc). intros c. rewrite Hq, (proj1 (Hc c)). apply S.
Qed.

Lemma well_formed_detach g st :
  ended (games st g) = false -> well_formed st -> well_formed (detach g st).
Proof.
  intros E (W1 & W2 & W3 & W4).
  destruct (detach_frame g st) as (Hq & Hn & Hp & Hg).
  destruct (W3 g E) as (G1 & G2 & (G3 & G4 & _) & (G5 & G6 & _)).
  unfold well_formed. rewrite Hq, Hn. split; [exact W1 | ]. split; [ | split].
  - intros c Hin. specialize (W2 c Hin).
    destruct (detach_session g st c) as (_ & _ & _ & _ & _ & Hpl & Hot).
    destruct (Nat.eq_dec c (white (games st g))) as [Hw | Hw]; [apply Hpl; auto | ].
    destruct (Nat.eq_dec c (black (games st g))) as [Hb | Hb]; [apply Hpl; auto | ].
    rewrite (Hot Hw Hb). exact W2.
  - intros g' E'.
    assert (Hne : g' <> g).
    { intro H. subst g'. rewrite ended_detach in E'. discriminate. }
    rewrite (Hg g' Hne) in *.
    destruct (W3 g' E') as (A1 & A2 & A3 & A4). split; [exact A1 | ]. split; [exact A2 | ].
    assert (Hfar : forall x k, linked g' k (clients st x) ->
                               linked g' k (clients (detach g st) x)).
    { intros x k L. destruct (detach_session g st x) as (_ & _ & _ & _ & _ & _ & Hot).
      rewrite Hot; [exact L | | ]; intro H; subst x;
        destruct L as (_ & L & _); congruence. }
    split; apply Hfar; assumption.
  - intros c Hin.
    destruct (detach_session g st c) as (_ & _ & _ & _ & _ & Hpl & Hot).
    destruct (Nat.eq_dec c (white (games st g))) as [Hw | Hw];
      [destruct Hpl as (Hpl & _); auto; congruence | ].
    destruct (Nat.eq_dec c (black (games st g))) as [Hb | Hb];
      [destruct Hpl as (Hpl & _); auto; congruence | ].
    rewrite (Hot Hw Hb) in *. destruct (W4 c Hin) as (g' & E' & Hgm & Hc).
    assert (Hne : g' <> g) by (intro H; subst g'; destruct Hc; contradiction).
    exists g'. rewrite (Hg g' Hne). auto.
Qed.

Lemma sound_detach seen g st :
  ended (games st g) = false -> sound seen st -> sound seen (detach g st).
Proof.
  intros E [W S]. split; [apply well_formed_detach; assumption | ].
  intros c [Hin | Hin].
  - apply S. left. destruct (detach_frame g st) as (Hq & _). rewrite <- Hq. exact Hin.
  - apply S. right.
    destruct (detach_session g st c) as (_ & _ & _ & _ & _ & Hpl & Hot).
    destruct (Nat.eq_dec c (white (games st g))) as [Hw | Hw];
      [destruct Hpl as (Hpl & _); auto; congruence | ].
    destruct (Nat.eq_dec c (black (games st g))) as [Hb | Hb];
      [destruct Hpl as (Hpl & _); auto; congruence | ].
    rewrite (Hot Hw Hb) in Hin. exact Hin.
Qed.

Lemma sound_changes seen g st st' : changes g st st' -> sound seen st -> sound seen st'.
Proof.
  induction 1 as [ | st st1 st2 Hc _ IH]; [auto | ]. intro HS. apply IH.
  destruct Hc as [c obj | b | E].
  - eapply sound_shape; [apply same_shape_deliver | exact HS].
  - eapply sound_shape; [apply same_shape_board | exact HS].
  - apply sound_detach; assumption.
Qed.

Lemma remove_first_incl c q x : In x (remove_first c q) -> In x q.
Proof.
  induction q as [ | y q IH]; simpl; [auto | ].
  destruct (Nat.eqb y c); [auto | ]. intros [H | H]; auto.
Qed.

Lemma remove_first_NoDup c q : NoDup q -> NoDup (remove_first c q).
Proof.
  induction 1 as [ | y q Hy Hq IH]; simpl; [constructor | ].
  destruct (Nat.eqb y c); [exact Hq | ]. constructor; [ | exact IH].
  intro H. apply Hy. eapply remove_first_incl, H.
Qed.

Lemma sound_dequeue seen c st : sound seen st -> sound seen (dequeue c st).
Proof.
  intros [(W1 & W2 & W3 & W4) S].
  assert (Hc := clients_dequeue c st). assert (Hg := games_dequeue c st).
  assert (Hq := queue_dequeue c st).
  assert (Hn : n_games (dequeue c st) = n_games st).
  { unfold dequeue. destruct (existsb _ _); reflexivity. }
  split; [unfold well_formed; rewrite Hc, Hg, Hq, Hn | rewrite Hc, Hq].
  - split; [apply remove_first_NoDup, W1 | ]. split; [ | split; assumption].
    intros x Hx. apply W2. eapply remove_first_incl, Hx.
  - intros x [Hx | Hx]; apply S; [left; eapply remove_first_incl, Hx | right; exact Hx].
Qed.

Section Keeps.
Variable seen : list nat.

Lemma keeps_send c obj : triple (sound seen) (send c obj) (sound seen).
Proof.
  intros st HS. rewrite send_deliver. simpl.
  eapply sound_shape; [apply same_shape_deliver | exact HS].
Qed.

Lemma keeps_client c f :
  (forall cl, in_game (f cl) = in_game cl /\ game (f cl) = game cl /\
              color (f cl) = color cl) ->
  triple (sound seen) (modify (upd_client c f)) (sound seen).
Proof.
  intros Hf st HS. eapply sound_shape; [apply same_shape_client, Hf | exact HS].
Qed.

Lemma keeps_close c : triple (sound seen) (close c) (sound seen).
Proof. apply keeps_client. intro cl. repeat split. Qed.

Lemma keeps_process_message g c msg :
  triple (sound seen) (process_message g c msg) (sound seen).
Proof.
  intros st HS. eapply sound_changes; [ | exact HS].
  apply (fire_changes g (Message c msg) st).
Qed.

Lemma keeps_handle_disconnect g c :
  triple (sound seen) (_handle_disconnect g c) (sound seen).
Proof.
  intros st HS. eapply sound_changes; [ | exact HS].
  apply (fire_changes g (Disconnected c) st).
Qed.

Lemma keeps_monitor_loop g : triple (sound seen) (monitor_loop g) (sound seen).
Proof.
  intros st HS. eapply sound_changes; [ | exact HS]. apply monitor_loop_changes.
Qed.

Lemma keeps_loop_body c r : triple (sound seen) (loop_body c r) (sound seen).
Proof.
  unfold loop_body. cbv zeta. destruct (is_None (recv_line r)).
  { apply keeps_bind; [ | intro; apply keeps_ret].
    apply keeps_client. intro cl. repeat split. }
  apply keeps_bind.
  { destruct (is_dict (recv_line r)); [ | apply keeps_ret].
    apply keeps_bind; [apply keeps_dict_get | intro; apply keeps_ret]. }
  intros [ | ].
  { apply keeps_bind; [apply keeps_send | intro; apply keeps_ret]. }
  apply keeps_bind; [apply keeps_dict_get | intro mtype].
  apply keeps_bind; [apply keeps_gets | intro ig].
  destruct (negb ig).
  - destruct (eq_str mtype "quit").
    { apply keeps_bind; [apply keeps_send | intro].
      apply keeps_bind; [apply keeps_close | intro; apply keeps_ret]. }
    destruct (eq_str mtype "chat").
    { apply keeps_bind; [apply keeps_send | intro; apply keeps_ret]. }
    apply keeps_bind; [apply keeps_gets | intro q].
    apply keeps_bind; [apply keeps_send | intro; apply keeps_ret].
  - apply keeps_bind; [apply keeps_gets | intros [g | ]].
    + apply keeps_bind; [apply keeps_process_message | intro; apply keeps_ret].
    + apply keeps_bind; [apply keeps_send | intro; apply keeps_ret].
Qed.

Lemma keeps_read_loop c inputs : triple (sound seen) (read_loop c inputs) (sound seen).
Proof.
  induction inputs as [ | r rest IH]; simpl.
  - apply keeps_bind; [apply keeps_gets | intro a]. destruct (negb a); apply keeps_ret.
  - apply keeps_bind; [apply keeps_gets | intro a]. destruct (negb a); [apply keeps_ret | ].
    apply keeps_bind; [apply keeps_loop_body | intros [ | ]]; [exact IH | apply keeps_ret].
Qed.

Lemma keeps_client_finally c : triple (sound seen) (client_finally c) (sound seen).
Proof.
  intros st HS. rewrite client_finally_spec. simpl. unfold departed.
  assert (H1 := sound_dequeue seen c st HS). set (st1 := dequeue c st) in *.
  assert (Hshut : forall s, sound seen s -> sound seen (shut c s)).
  { intros s Hs. eapply sound_shape; [ | exact Hs].
    apply same_shape_client. intro cl. repeat split. }
  apply Hshut. destruct (in_game (clients st1 c)); [ | exact H1].
  destruct (game (clients st1 c)) as [g | ]; [ | exact H1].
  apply keeps_handle_disconnect, H1.
Qed.

End Keeps.

End Shape.

(** ** Runs of the server *)

Section Soundness.
Context {RE : RulesEngine}.

Lemma same_shape_trans a b c : same_shape a b -> same_shape b c -> same_shape a c.
Proof.
  intros (Hq1 & Hn1 & Hg1 & Hc1) (Hq2 & Hn2 & Hg2 & Hc2).
  split; [congruence | ]. split; [congruence | ]. split.
  - intro g. destruct (Hg1 g) as (A1 & A2 & A3). destruct (Hg2 g) as (B1 & B2 & B3).
    repeat split; congruence.
  - intro x. destruct (Hc1 x) as (A1 & A2 & A3). destruct (Hc2 x) as (B1 & B2 & B3).
    repeat split; congruence.
Qed.

Lemma start_same_shape g st : same_shape st (exec (start g) st).
Proof.
  exact (always_start (fun a b => same_shape a b) same_shape_refl same_shape_trans
           same_shape_deliver g st).
Qed.

(** The state in which the matchmaker starts the game that it made *)
Lemma matchmaking_state (st : Server) (a b : nat) (rest : list nat) :
  waiting_queue st = a :: b :: rest ->
  exec matchmaking_thread st =
    exec (start (n_games st))
         (paired_state a b (set_queue rest (set_queue (b :: rest) st))).
Proof.
  intro Hq. unfold exec, matchmaking_thread.
  rewrite (bind_ok (gets waiting_queue) _ st (waiting_queue st) st) by reflexivity.
  rewrite Hq.
  change (Nat.ltb (List.length (a :: b :: rest)) 2) with false. cbv iota.
  rewrite (bind_ok pop0 _ st a (set_queue (b :: rest) st)) by (apply pop0_cons, Hq).
  rewrite (bind_ok pop0 _ _ b (set_queue rest (set_queue (b :: rest) st)))
    by (apply pop0_cons; reflexivity).
  rewrite (bind_ok (Game_init a b) _ _ _ _ (Game_init_ok a b _)).
  rewrite bind_try_pass. reflexivity.
Qed.

Lemma paired_fields (a b : nat) (st : Server) :
  a <> b ->
  let st' := paired_state a b st in
  waiting_queue st' = waiting_queue st /\
  n_games st' = S (n_games st) /\
  games st' (n_games st) = mkGame a b new_board false /\
  (forall g, g <> n_games st -> games st' g = games st g) /\
  linked (n_games st) "white" (clients st' a) /\
  linked (n_games st) "black" (clients st' b) /\
  (forall c, c <> a -> c <> b -> clients st' c = clients st c).
Proof.
  intros Hab st'. subst st'.
  unfold paired_state, Game_init, bind, gets, modify, ret, linked. simpl.
  rewrite !Nat.eqb_refl.
  assert (E1 : Nat.eqb a b = false) by (apply Nat.eqb_neq; exact Hab).
  assert (E2 : Nat.eqb b a = false) by (apply Nat.eqb_neq; congruence).
  rewrite ?E1, ?E2. simpl. repeat split.
  - intros g Hg. apply Nat.eqb_neq in Hg. rewrite Hg. reflexivity.
  - intros c Ha Hb. apply Nat.eqb_neq in Ha, Hb. rewrite Ha, Hb. reflexivity.
Qed.

Lemma sound_paired seen (a b : nat) (rest : list nat) (st : Server) :
  waiting_queue st = a :: b :: rest ->
  sound seen st ->
  sound seen (paired_state a b (set_queue rest (set_queue (b :: rest) st))).
Proof.
  intros Hq [(W1 & W2 & W3 & W4) S]. rewrite Hq in W1, W2.
  apply NoDup_cons_iff in W1. destruct W1 as [Ha1 W1].
  apply NoDup_cons_iff in W1. destruct W1 as [Hrb Hrest].
  assert (Hab : a <> b) by (intro Hx; apply Ha1; left; congruence).
  assert (Hra : ~ In a rest) by (intro Hx; apply Ha1; right; exact Hx).
  assert (Ia : in_game (clients st a) = false) by (apply W2; left; reflexivity).
  assert (Ib : in_game (clients st b) = false) by (apply W2; right; left; reflexivity).
  set (st0 := set_queue rest (set_queue (b :: rest) st)).
  destruct (paired_fields a b st0 Hab) as (Pq & Pn & Pg & Pgo & La & Lb & Pc).
  change (waiting_queue st0) with rest in Pq.
  change (n_games st0) with (n_games st) in Pn, Pg, Pgo, La, Lb.
  change (games st0) with (games st) in Pgo. change (clients st0) with (clients st) in Pc.
  set (st' := paired_state a b st0) in *.
  assert (Hold : forall g, ended (games st g) = false ->
                  white (games st g) <> a /\ white (games st g) <> b /\
                  black (games st g) <> a /\ black (games st g) <> b /\
                  g <> n_games st).
  { intros g E. destruct (W3 g E) as (A1 & _ & (A2 & _) & (A3 & _)).
    repeat split; try congruence. lia. }
  split; [unfold well_formed; rewrite Pq, Pn; split; [exact Hrest | split; [ | split]] | ].
  - intros c Hc. rewrite Pc; [ | intro; subst c; contradiction | intro; subst c; contradiction].
    apply W2. right. right. exact Hc.
  - intros g E. destruct (Nat.eq_dec g (n_games st)) as [Hg | Hg].
    + subst g. rewrite Pg. simpl. split; [lia | ]. split; [exact Hab | ]. split; assumption.
    + rewrite (Pgo g Hg) in *. destruct (W3 g E) as (A1 & A2 & A3 & A4).
      destruct (Hold g E) as (B1 & B2 & B3 & B4 & _).
      split; [lia | ]. split; [exact A2 | ]. rewrite !Pc by assumption. split; assumption.
  - intros c Hc. destruct (Nat.eq_dec c a) as [Ha | Ha].
    { subst c. exists (n_games st). rewrite Pg. simpl. destruct La as (_ & La & _). auto. }
    destruct (Nat.eq_dec c b) as [Hb | Hb].
    { subst c. exists (n_games st). rewrite Pg. simpl. destruct Lb as (_ & Lb & _). auto. }
    rewrite (Pc c Ha Hb) in *. destruct (W4 c Hc) as (g & E & Hgm & Hp).
    destruct (Hold g E) as (_ & _ & _ & _ & Hg). exists g. rewrite (Pgo g Hg). auto.
  - intros c [Hc | Hc].
    + rewrite Pq in Hc. apply S. left. rewrite Hq. right. right. exact Hc.
    + destruct (Nat.eq_dec c a) as [Ha | Ha].
      { subst c. apply S. left. rewrite Hq. left. reflexivity. }
      destruct (Nat.eq_dec c b) as [Hb | Hb].
      { subst c. apply S. left. rewrite Hq. right. left. reflexivity. }
      rewrite (Pc c Ha Hb) in Hc. apply S. right. exact Hc.
Qed.

Lemma keeps_matchmaking seen :
  triple (sound seen) matchmaking_thread (sound seen).
Proof.
  intros st HS. destruct (waiting_queue st) as [ | a [ | b rest]] eqn:Hq.
  - rewrite matchmaking_waits; [exact HS | rewrite Hq; simpl; lia].
  - rewrite matchmaking_waits; [exact HS | rewrite Hq; simpl; lia].
  - change (snd (matchmaking_thread st)) with (exec matchmaking_thread st).
    rewrite (matchmaking_state st a b rest Hq).
    eapply sound_shape; [apply start_same_shape | ].
    apply sound_paired; assumption.
Qed.

Lemma fresh_shape seen c st st' : same_shape st st' -> fresh_in seen c st -> fresh_in seen c st'.
Proof.
  intros Hs (H1 & H2 & H3). split; [eapply sound_shape; eassumption | ].
  destruct Hs as (Hq & _ & _ & Hc). rewrite Hq, (proj1 (Hc c)). auto.
Qed.

Lemma fresh_init seen c st :
  sound seen st -> ~ In c seen ->
  fresh_in seen c (exec (ClientHandler_init c) st).
Proof.
  intros [(W1 & W2 & W3 & W4) S] Hc.
  assert (Hq : ~ In c (waiting_queue st)) by (intro H; apply Hc, S; auto).
  assert (Hi : in_game (clients st c) = false).
  { destruct (in_game (clients st c)) eqn:E; [ | reflexivity]. exfalso. apply Hc, S. auto. }
  unfold exec, ClientHandler_init, modify. cbn [snd].
  set (f := fun cl => mkClient (writable cl) (outbox cl) (closed cl) None false None None true).
  assert (Hother : forall x, x <> c -> clients (upd_client c f st) x = clients st x).
  { intros x Hx. simpl. apply Nat.eqb_neq in Hx. rewrite Hx. reflexivity. }
  assert (Hself : in_game (clients (upd_client c f st) c) = false).
  { simpl. rewrite Nat.eqb_refl. reflexivity. }
  split; [split | split; [exact Hq | exact Hself]].
  - unfold well_formed. change (waiting_queue (upd_client c f st)) with (waiting_queue st).
    change (games (upd_client c f st)) with (games st).
    change (n_games (upd_client c f st)) with (n_games st).
    split; [exact W1 | ]. split; [ | split].
    + intros x Hx. rewrite Hother; [apply W2, Hx | intro; subst x; contradiction].
    + intros g E. destruct (W3 g E) as (A1 & A2 & A3 & A4).
      split; [exact A1 | ]. split; [exact A2 | ].
      rewrite !Hother; [split; assumption | | ]; intro H; rewrite H in *;
        [destruct A4 as (A4 & _) | destruct A3 as (A3 & _)]; congruence.
    + intros x Hx. destruct (Nat.eq_dec x c) as [E | E]; [subst x; congruence | ].
      rewrite (Hother x E) in *. apply W4, Hx.
  - intros x [Hx | Hx]; [right; apply S; left; exact Hx | ].
    destruct (Nat.eq_dec x c) as [E | E]; [left; auto | ].
    rewrite (Hother x E) in Hx. right. apply S. right. exact Hx.
Qed.

Lemma fresh_sound seen c st : fresh_in seen c st -> sound (c :: seen) st.
Proof. intros (H & _). exact H. Qed.

Lemma fresh_send seen c obj : triple (fresh_in seen c) (send c obj) (fresh_in seen c).
Proof.
  intros st H. rewrite send_deliver. simpl.
  eapply fresh_shape; [apply same_shape_deliver | exact H].
Qed.

Lemma fresh_refuse seen c reason :
  triple (fresh_in seen c) (send c (Illegal reason);; close c;; ret false)
         (sound (c :: seen)).
Proof.
  apply (triple_bind _ (sound (c :: seen)) _); [ | auto | intro].
  - intros st H. apply fresh_sound. apply fresh_send, H.
  - apply keeps_bind; [apply keeps_close | intro; apply keeps_ret].
Qed.

Lemma fresh_name seen c n :
  triple (fresh_in seen c) (modify (upd_client c (set_name n))) (fresh_in seen c).
Proof.
  intros st H. eapply fresh_shape; [ | exact H].
  apply same_shape_client. intro cl. repeat split.
Qed.

Lemma fresh_enqueue seen c st :
  fresh_in seen c st -> sound (c :: seen) (set_queue (waiting_queue st ++ [c]) st).
Proof.
  intros ([(W1 & W2 & W3 & W4) S] & Hq & Hi). split; [unfold well_formed; simpl | simpl].
  - split; [ | split; [ | split; assumption]].
    + apply NoDup_app; [exact W1 | repeat constructor; intros [] | ].
      intros x Hx [Hc | []]. subst x. contradiction.
    + intros x Hx. apply in_app_or in Hx. destruct Hx as [Hx | [Hx | []]];
        [apply W2, Hx | subst x; exact Hi].
  - intros x [Hx | Hx]; [ | apply S; right; exact Hx].
    apply in_app_or in Hx. destruct Hx as [Hx | [Hx | []]];
      [apply S; left; exact Hx | left; exact Hx].
Qed.

Lemma fresh_handshake seen c r :
  triple (fresh_in seen c) (handshake c r) (sound (c :: seen)).
Proof.
  unfold handshake. cbv zeta.
  destruct (negb (truthy (recv_line r))); [apply fresh_refuse | ].
  destruct (negb (is_dict (recv_line r))); [apply fresh_refuse | ].
  apply (triple_bind _ (fresh_in seen c) _);
    [apply keeps_dict_get | apply fresh_sound | intro t].
  destruct (negb (eq_str t "hello")); [apply fresh_refuse | ].
  apply (triple_bind _ (fresh_in seen c) _);
    [apply keeps_dict_get | apply fresh_sound | intro n].
  destruct (as_str n) as [s | ]; [ | apply fresh_refuse].
  destruct (negb (truthy (VStr (strip s)))); [apply fresh_refuse | ].
  apply (triple_bind _ (fresh_in seen c) _); [apply fresh_name | apply fresh_sound | intros _].
  apply (triple_bind _ (fresh_in seen c) _);
    [intros st H; exact H | apply fresh_sound | intro taken].
  apply (triple_bind _ (fresh_in seen c) _); [apply fresh_name | apply fresh_sound | intros _].
  apply (triple_bind _ (sound (c :: seen)) _);
    [intros st H; apply fresh_enqueue, H | auto | intros _].
  apply keeps_bind; [apply keeps_gets | intro pos].
  apply keeps_bind; [apply keeps_send | intro; apply keeps_ret].
Qed.

Lemma sound_accept seen c inputs st :
  sound seen st -> ~ In c seen ->
  sound (c :: seen) (exec (client_thread c inputs) st).
Proof.
  intros HS Hc. assert (H0 := fresh_init seen c st HS Hc).
  unfold exec, client_thread.
  rewrite (bind_ok (ClientHandler_init c) _ st tt (exec (ClientHandler_init c) st))
    by reflexivity.
  set (st0 := exec (ClientHandler_init c) st) in *.
  assert (Htry : sound (c :: seen) (snd (client_try c inputs st0))).
  { revert H0. generalize st0. change (triple (fresh_in seen c) (client_try c inputs)
                                              (sound (c :: seen))).
    unfold client_try.
    apply (triple_bind _ (fresh_in seen c) _); [apply fresh_send | apply fresh_sound | intros _].
    destruct inputs as [ | r rest].
    - intros s H. apply fresh_sound, H.
    - apply (triple_bind _ (sound (c :: seen)) _); [apply fresh_handshake | auto | ].
      intros [ | ]; [apply keeps_read_loop | apply keeps_ret]. }
  destruct (client_try c inputs st0) as [res st1]. cbn [snd] in Htry.
  assert (Hf : sound (c :: seen) (snd ((client_finally c;; ret Done) st1))).
  { revert Htry. generalize st1.
    change (triple (sound (c :: seen)) (client_finally c;; ret Done) (sound (c :: seen))).
    apply keeps_bind; [apply keeps_client_finally | intro; apply keeps_ret]. }
  destruct res as [[ | ] | e]; [exact Htry | exact Hf | exact Hf].
Qed.

Lemma sound_step seen e st :
  sound seen st ->
  match e with Accept c _ => ~ In c seen | _ => True end ->
  sound (match e with Accept c _ => c :: seen | _ => seen end) (step e st).
Proof.
  intros HS He. destruct e as [c inputs | c r | c | | g]; simpl.
  - apply sound_accept; assumption.
  - apply keeps_loop_body, HS.
  - apply keeps_client_finally, HS.
  - apply keeps_matchmaking, HS.
  - apply keeps_monitor_loop, HS.
Qed.

Lemma sound_run es : forall seen st,
  sound seen st ->
  NoDup (accepted es) ->
  (forall c, In c (accepted es) -> ~ In c seen) ->
  exists seen', sound seen' (server_run es st).
Proof.
  induction es as [ | e es IH]; intros seen st HS Hn Hd; [exists seen; exact HS | ].
  simpl. destruct e as [c inputs | c r | c | | g]; simpl in Hn, Hd.
  - inversion Hn as [ | ? ? Hc Hn']. subst.
    apply (IH (c :: seen)); [ | exact Hn' | ].
    + apply (sound_step seen (Accept c inputs) st HS). apply Hd. left. reflexivity.
    + intros x Hx [E | E]; [subst x; contradiction | ]. apply (Hd x); auto.
  - apply (IH seen); auto. apply (sound_step seen (Turn c r) st HS I).
  - apply (IH seen); auto. apply (sound_step seen (Leave c) st HS I).
  - apply (IH seen); auto. apply (sound_step seen Pair st HS I).
  - apply (IH seen); auto. apply (sound_step seen (Monitor g) st HS I).
Qed.

Lemma sound_initial conn_ok : sound [] (initial_server conn_ok).
Proof.
  split; [unfold well_formed; simpl | simpl].
  - split; [constructor | ]. split; [intros c [] | ]. split; intros; discriminate.
  - intros c [[] | H]. discriminate.
Qed.

End Soundness.

(** X13. From the start of the server, over every order in which the
    threads run the bodies of their handlers (session threads started on
    accepted connections, turns of read loops, [finally] blocks, turns of
    the matchmaker and of the monitors), each body running to its end and
    no connection accepted twice, the state is well formed: no session is
    queued twice, a queued session is in no game, a live game has two
    different players that are linked to it as white and black, and a
    session that is in a game is a player of a live game. *)
Theorem server_run_well_formed `{RE : RulesEngine}
    (es : list event) (conn_ok : nat -> bool) :
  NoDup (accepted es) ->
  well_formed (server_run es (initial_server conn_ok)).
Proof.
  intro Hn.
  destruct (sound_run es [] (initial_server conn_ok) (sound_initial conn_ok) Hn)
    as (seen & W & _); [intros c _ [] | exact W].
Qed.

Lemma server_run_well_formed_witness :
  let es := [Accept 0 [Scripted.hello "Ann"]; Accept 1 [Scripted.hello "Bob"]; Pair;
             Turn 0 (Line (Decoded (Scripted.in_move "e2e4"))); Monitor 0; Leave 1] in
  NoDup (accepted es) /\
  well_formed (RE := Scripted.engine)
    (server_run es (initial_server (fun _ => true))).
Proof.
  assert (H : NoDup [0; 1]).
  { constructor; [intros [E | []]; discriminate E | ].
    constructor; [intros [] | constructor]. }
  split; [exact H | ].
  apply (server_run_well_formed (RE := Scripted.engine)). exact H.
Defined.

(** ** The start of a game, and a first line that is no hello *)

Section Pairing.
Context {RE : RulesEngine}.

(** The state that [start] leaves *)
Lemma start_state (g : nat) (st : Server) :
  let w := white (games st g) in
  let b := black (games st g) in
  let st1 := deliver w (Start "white" (name (clients st b))) st in
  let st2 := deliver b (Start "black" (name (clients st1 w))) st1 in
  exec (start g) st =
    if accepts (clients st w)
    then if accepts (clients st1 b) then exec (_send_state g) st2 else st2
    else st1.
Proof.
  intros w b st1 st2. unfold exec, start, bind at 1, gets at 1. unfold try_pass. cbn [snd].
  fold w b. unfold bind at 1, gets at 1. rewrite bind_send. fold st1.
  destruct (accepts (clients st w)); [ | reflexivity].
  unfold bind at 1, gets at 1. rewrite bind_send. fold st2.
  destruct (accepts (clients st1 b)); reflexivity.
Qed.

Lemma paired_session (a b : nat) (st : Server) (c : nat) :
  outbox (clients (paired_state a b st) c) = outbox (clients st c) /\
  writable (clients (paired_state a b st) c) = writable (clients st c) /\
  closed (clients (paired_state a b st) c) = closed (clients st c) /\
  name (clients (paired_state a b st) c) = name (clients st c) /\
  alive (clients (paired_state a b st) c) = alive (clients st c).
Proof.
  unfold paired_state, Game_init, bind, gets, modify, ret. simpl.
  rewrite !Nat.eqb_refl.
  destruct (Nat.eqb_spec c b) as [Eb | Eb]; destruct (Nat.eqb_spec c a) as [Ea | Ea];
    destruct (Nat.eqb_spec b a) as [Eba | Eba]; destruct (Nat.eqb_spec a b) as [Eab | Eab];
    subst; simpl; try (repeat split; fail); exfalso; congruence.
Qed.

Lemma handshake_not_hello (c : nat) (r : read_outcome) (st : Server) :
  says_hello (recv_line r) = false ->
  handshake c r st =
    (if accepts (clients st c) then Ok false else Raise OSError,
     refused c "expected hello" st).
Proof.
  unfold says_hello, handshake. cbv zeta. intro H.
  destruct (truthy (recv_line r)); cbn [negb andb] in *; [ | apply refuse_spec].
  destruct (recv_line r) as [ | | | | | | items] eqn:Ev;
    cbn [is_dict negb andb] in *; try apply refuse_spec.
  destruct (assoc "type" items) as [t | ] eqn:Et.
  - rewrite (bind_ok _ _ st _ st (dict_get_found items "type" _ st Et)).
    rewrite H. apply refuse_spec.
  - rewrite (bind_ok _ _ st _ st (dict_get_absent items "type" st Et)).
    apply refuse_spec.
Qed.

(** [client_thread] on a first line that the handshake refuses *)
Lemma client_thread_refusal (c : nat) (r : read_outcome) (reason : string)
    (rest : list read_outcome) (st : Server) :
  (forall s, handshake c r s =
             (if accepts (clients s c) then Ok false else Raise OSError,
              refused c reason s)) ->
  ~ In c (waiting_queue st) ->
  let st' := exec (client_thread c (r :: rest)) st in
  outcome (client_thread c (r :: rest)) st = Ok Done /\
  outbox (clients st' c) =
    (outbox (clients st c) ++ written (clients st c) [Welcome true; Illegal reason])%list /\
  closed (clients st' c) = true /\
  alive (clients st' c) = false /\
  name (clients st' c) = None /\
  (forall c', c' <> c -> clients st' c' = clients st c') /\
  waiting_queue st' = waiting_queue st /\
  games st' = games st.
Proof.
  intros Hh Hq st'.
  set (st0 := upd_client c (fun cl => mkClient (writable cl) (outbox cl) (closed cl)
                                        None false None None true) st).
  assert (Ha0 : accepts (clients st0 c) = accepts (clients st c)).
  { unfold st0. simpl. rewrite Nat.eqb_refl. reflexivity. }
  assert (Hi0 : in_game (clients st0 c) = false).
  { unfold st0. simpl. rewrite Nat.eqb_refl. reflexivity. }
  assert (Hn0 : name (clients st0 c) = None).
  { unfold st0. simpl. rewrite Nat.eqb_refl. reflexivity. }
  assert (Ho0 : outbox (clients st0 c) = outbox (clients st c)).
  { unfold st0. simpl. rewrite Nat.eqb_refl. reflexivity. }
  assert (Hc0 : forall c', c' <> c -> clients st0 c' = clients st c').
  { intros c' H. unfold st0. simpl. apply Nat.eqb_neq in H. rewrite H. reflexivity. }
  set (st1 := deliver c (Welcome true) st0).
  assert (Hrun : client_thread c (r :: rest) st =
                 (Ok Done,
                  shut c (if accepts (clients st c) then refused c reason st1 else st1))).
  { unfold client_thread.
    rewrite (bind_ok (ClientHandler_init c) _ st tt st0) by reflexivity.
    unfold client_try. rewrite bind_send, Ha0. fold st1.
    destruct (accepts (clients st c)) eqn:Ea.
    - unfold bind at 1. rewrite (Hh st1).
      unfold st1 at 1. rewrite accepts_deliver, Ha0. cbv iota beta.
      unfold ret at 1. cbv iota beta.
      rewrite (bind_ok (client_finally c) _ _ tt (shut c (refused c reason st1)));
        [reflexivity | ].
      destruct (refused_fields c reason st1 c) as (Hi & _ & _ & _ & Hw & _).
      apply client_finally_idle.
      + rewrite Hw. exact Hq.
      + rewrite Hi. unfold st1. rewrite in_game_deliver. exact Hi0.
    - rewrite (bind_ok (client_finally c) _ _ tt (shut c st1)); [reflexivity | ].
      apply client_finally_idle; [exact Hq | ].
      unfold st1. rewrite in_game_deliver. exact Hi0. }
  subst st'. unfold outcome, exec. rewrite Hrun. cbn [fst snd].
  split; [reflexivity | ].
  assert (Hfin : forall X,
            outbox (clients (shut c X) c) = outbox (clients X c) /\
            closed (clients (shut c X) c) = true /\
            alive (clients (shut c X) c) = false /\
            name (clients (shut c X) c) = name (clients X c) /\
            (forall c', c' <> c -> clients (shut c X) c' = clients X c') /\
            waiting_queue (shut c X) = waiting_queue X /\ games (shut c X) = games X).
  { intro X. unfold shut. simpl. rewrite Nat.eqb_refl. repeat split.
    intros c' H. apply Nat.eqb_neq in H. rewrite H. reflexivity. }
  match goal with |- context [shut c ?X] =>
    destruct (Hfin X) as (Ho & Hcl & Hal & Hnm & Hot & Hwq & Hgm)
  end.
  rewrite Ho, Hcl, Hal, Hnm, Hwq, Hgm. unfold written.
  destruct (accepts (clients st c)) eqn:Ea.
  - cbv iota in *.
    destruct (refused_fields c reason st1 c) as (_ & Hrn & Hro & _ & Hrw & Hrg).
    rewrite Hrn, Hro, Hrw, Hrg.
    assert (Hothers : forall c', c' <> c ->
              clients (shut c (refused c reason st1)) c' = clients st c').
    { intros c' H. rewrite (Hot c' H).
      destruct (refused_fields c reason st1 c') as (_ & _ & _ & Hrc & _).
      rewrite (Hrc H). unfold st1. rewrite (clients_deliver_other _ _ _ _ H).
      apply Hc0, H. }
    unfold st1.
    rewrite !outbox_deliver, Nat.eqb_refl, name_deliver. unfold written.
    rewrite accepts_deliver, Ha0, Ho0, <- app_assoc. repeat split; auto.
  - cbv iota in *.
    assert (Hothers : forall c', c' <> c -> clients (shut c st1) c' = clients st c').
    { intros c' H. rewrite (Hot c' H). unfold st1.
      rewrite (clients_deliver_other _ _ _ _ H). apply Hc0, H. }
    unfold st1. rewrite outbox_deliver, Nat.eqb_refl, name_deliver. unfold written.
    rewrite Ha0, Ho0. repeat split; auto.
Qed.

End Pairing.

(** X14. When the matchmaker pairs two sessions whose connections take
    writes, the first is written [start] with colour white and the name of
    the second, the second [start] with colour black and the name of the
    first, and each then the [state] of the opening position; no other
    session is written to. *)
Theorem pairing_announced `{RE : RulesEngine}
    (st : Server) (a b : nat) (rest : list nat) :
  waiting_queue st = a :: b :: rest ->
  a <> b ->
  accepts (clients st a) = true ->
  accepts (clients st b) = true ->
  let st' := exec matchmaking_thread st in
  let opening := State (board_fen new_board) (turn_color new_board)
                       (_in_check new_board (board_turn new_board)) in
  outbox (clients st' a) =
    (outbox (clients st a) ++ [Start "white" (name (clients st b)); opening])%list /\
  outbox (clients st' b) =
    (outbox (clients st b) ++ [Start "black" (name (clients st a)); opening])%list /\
  (forall c, c <> a -> c <> b -> outbox (clients st' c) = outbox (clients st c)).
Proof.
  intros Hq Hab Ha Hb st' opening.
  set (st0 := set_queue rest (set_queue (b :: rest) st)).
  set (p := paired_state a b st0).
  destruct (paired_fields a b st0 Hab) as (_ & _ & Pg & _).
  change (n_games st0) with (n_games st) in Pg. fold p in Pg.
  assert (Hs : forall c, outbox (clients p c) = outbox (clients st c) /\
                         accepts (clients p c) = accepts (clients st c) /\
                         name (clients p c) = name (clients st c)).
  { intro c. destruct (paired_session a b st0 c) as (H1 & H2 & H3 & H4 & _).
    fold p in H1, H2, H3, H4. unfold accepts. rewrite H1, H2, H3, H4. repeat split. }
  assert (Hst : st' = exec (start (n_games st)) p)
    by (apply matchmaking_state, Hq).
  rewrite (start_state (n_games st) p) in Hst. rewrite Pg in Hst. cbn [white black] in Hst.
  rewrite (proj1 (proj2 (Hs a))), Ha in Hst.
  rewrite accepts_deliver, (proj1 (proj2 (Hs b))), Hb in Hst.
  unfold exec in Hst. rewrite send_state_broadcast in Hst. cbn [snd] in Hst.
  rewrite !games_deliver, Pg in Hst. cbn [white black board] in Hst. fold opening in Hst.
  rewrite name_deliver in Hst. rewrite (proj2 (proj2 (Hs a))) in Hst.
  rewrite (proj2 (proj2 (Hs b))) in Hst.
  assert (Hout : forall c,
            outbox (clients st' c) =
              (outbox (clients st c) ++
               (if Nat.eqb c a then [Start "white" (name (clients st b))] else []) ++
               (if Nat.eqb c b then [Start "black" (name (clients st a))] else []) ++
               (if Nat.eqb c a || Nat.eqb c b then [opening] else []))%list).
  { intro c. rewrite Hst. rewrite outbox_broadcast; [ | exact Hab | | ].
    - rewrite !outbox_deliver. unfold written.
      rewrite accepts_deliver, (proj1 (proj2 (Hs a))), (proj1 (proj2 (Hs b))), Ha, Hb.
      assert (Eba : Nat.eqb b a = false) by (apply Nat.eqb_neq; congruence).
      destruct (Nat.eqb c b) eqn:Eb.
      + apply Nat.eqb_eq in Eb. subst c. rewrite Eba, (proj1 (Hs b)).
        rewrite <- !app_assoc. reflexivity.
      + destruct (Nat.eqb c a) eqn:Ea.
        * apply Nat.eqb_eq in Ea. subst c. rewrite (proj1 (Hs a)).
          rewrite <- !app_assoc. reflexivity.
        * rewrite (proj1 (Hs c)). reflexivity.
    - rewrite !accepts_deliver, (proj1 (proj2 (Hs a))). exact Ha.
    - rewrite !accepts_deliver, (proj1 (proj2 (Hs b))). exact Hb. }
  assert (Eab : Nat.eqb a b = false) by (apply Nat.eqb_neq; exact Hab).
  assert (Eba : Nat.eqb b a = false) by (apply Nat.eqb_neq; congruence).
  repeat split.
  - rewrite (Hout a), Nat.eqb_refl, Eab. reflexivity.
  - rewrite (Hout b), Nat.eqb_refl, Eba. reflexivity.
  - intros c Hca Hcb. apply Nat.eqb_neq in Hca, Hcb. rewrite (Hout c), Hca, Hcb.
    simpl. apply app_nil_r.
Qed.

Lemma pairing_announced_witness :
  let st' := exec matchmaking_thread Scripted.lobby in
  outbox (clients st' 0) =
    (outbox (clients Scripted.lobby 0) ++
     [Start "white" (Some "Bob"); State "" "white" false])%list /\
  outbox (clients st' 1) =
    (outbox (clients Scripted.lobby 1) ++
     [Start "black" (Some "Ann"); State "" "white" false])%list.
Proof.
  intro st'.
  destruct (pairing_announced (RE := Scripted.engine) Scripted.lobby 0 1 []
              ltac:(by_computation) ltac:(by_computation) ltac:(by_computation)
              ltac:(by_computation))
    as (H1 & H2 & _).
  split; [exact H1 | exact H2].
Defined.

(** X15. When the connection of the first of two paired sessions
    takes no write, [start] gives up at its first write: the second session
    is told nothing of the game.  The game is live all the same, and the
    next turn of its monitor forfeits it: the second session is written
    [opponent_left] and the [result] of a forfeit won by black. *)
Theorem dead_white_forfeits_unannounced `{RE : RulesEngine}
    (st : Server) (a b : nat) (rest : list nat) :
  waiting_queue st = a :: b :: rest ->
  a <> b ->
  accepts (clients st a) = false ->
  let g := n_games st in
  let st1 := exec matchmaking_thread st in
  let st2 := exec (monitor_loop g) st1 in
  outbox (clients st1 a) = outbox (clients st a) /\
  outbox (clients st1 b) = outbox (clients st b) /\
  ended (games st1 g) = false /\
  outcome (monitor_loop g) st1 = Ok false /\
  outbox (clients st2 b) =
    (outbox (clients st b) ++
     written (clients st b) [OpponentLeft; Result "forfeit" (Some "black")])%list /\
  outbox (clients st2 a) = outbox (clients st a) /\
  ended (games st2 g) = true.
Proof.
  intros Hq Hab Ha g st1 st2.
  set (st0 := set_queue rest (set_queue (b :: rest) st)).
  set (p := paired_state a b st0).
  destruct (paired_fields a b st0 Hab) as (_ & _ & Pg & _ & _ & (_ & _ & Lb) & _).
  change (n_games st0) with g in Pg. fold p in Pg, Lb.
  assert (Hs : forall c, outbox (clients p c) = outbox (clients st c) /\
                         accepts (clients p c) = accepts (clients st c)).
  { intro c. destruct (paired_session a b st0 c) as (H1 & H2 & H3 & _).
    fold p in H1, H2, H3. unfold accepts. rewrite H1, H2, H3. repeat split. }
  assert (Hst : st1 = deliver a (Start "white" (name (clients p b))) p).
  { unfold st1. rewrite (matchmaking_state st a b rest Hq). fold g st0 p.
    rewrite (start_state g p). rewrite Pg. cbn [white black].
    rewrite (proj2 (Hs a)), Ha. reflexivity. }
  assert (Hg1 : games st1 g = mkGame a b new_board false).
  { rewrite Hst, games_deliver. exact Pg. }
  assert (Ho1 : forall c, outbox (clients st1 c) = outbox (clients st c)).
  { intro c. rewrite Hst, outbox_deliver. unfold written. rewrite (proj2 (Hs a)), Ha.
    destruct (Nat.eqb c a) eqn:E; [apply Nat.eqb_eq in E; subst c; rewrite app_nil_r | ];
      apply Hs. }
  assert (Hal : alive (clients st1 a) = false).
  { rewrite Hst, alive_deliver, Nat.eqb_refl, (proj2 (Hs a)), Ha. apply andb_false_r. }
  assert (E1 : ended (games st1 g) = false) by (rewrite Hg1; reflexivity).
  destruct (monitor_loop_forfeits g st1 E1) as (Hm & _).
  rewrite Hg1 in Hm. cbn [white] in Hm. specialize (Hm Hal).
  destruct (forfeit_effect g a st1 E1) as (Hf & Hfo & He).
  rewrite Hg1 in Hf, Hfo. unfold _peer in Hf, Hfo. cbn [white black] in Hf, Hfo.
  rewrite Nat.eqb_refl in Hf, Hfo.
  assert (Hx : st2 = exec (_handle_disconnect g a) st1).
  { unfold st2, exec at 1. rewrite Hm. reflexivity. }
  assert (Hb1 : clients st1 b = clients p b).
  { rewrite Hst. apply clients_deliver_other. congruence. }
  repeat split.
  - apply Ho1.
  - apply Ho1.
  - exact E1.
  - unfold outcome. rewrite Hm. reflexivity.
  - rewrite Hx, Hf, Ho1. unfold written. rewrite Hb1, Lb.
    rewrite (proj2 (Hs b)). reflexivity.
  - rewrite Hx, (Hfo a Hab). apply Ho1.
  - rewrite Hx. exact He.
Qed.

Lemma dead_white_forfeits_unannounced_witness :
  let st := upd_client 0 (set_closed true) Scripted.lobby in
  let st1 := exec matchmaking_thread st in
  let st2 := exec (monitor_loop 0) st1 in
  outbox (clients st1 1) = outbox (clients st 1) /\
  ended (games st1 0) = false /\
  outbox (clients st2 1) =
    (outbox (clients st 1) ++ [OpponentLeft; Result "forfeit" (Some "black")])%list /\
  ended (games st2 0) = true.
Proof.
  intros st st1 st2.
  destruct (dead_white_forfeits_unannounced (RE := Scripted.engine) st 0 1 []
              ltac:(by_computation) ltac:(by_computation) ltac:(by_computation))
    as (_ & H2 & H3 & _ & H5 & _ & H7).
  split; [exact H2 | ]. split; [exact H3 | ]. split; [exact H5 | exact H7].
Defined.

(** X16. A first line that is not a hello (the end of the stream, a
    line that is not JSON, a value that is not an object, an empty object,
    an object whose type is not "hello") is refused: the session is written
    [welcome] and then [illegal] with reason "expected hello", its thread
    ends, the session is closed and has no name, and the queue, the other
    sessions and the games are as they were. *)
Theorem first_line_must_be_hello `{RE : RulesEngine}
    (c : nat) (r : read_outcome)
    (rest : list read_outcome) (st : Server) :
  says_hello (recv_line r) = false ->
  ~ In c (waiting_queue st) ->
  let st' := exec (client_thread c (r :: rest)) st in
  outcome (client_thread c (r :: rest)) st = Ok Done /\
  outbox (clients st' c) =
    (outbox (clients st c) ++
     written (clients st c) [Welcome true; Illegal "expected hello"])%list /\
  closed (clients st' c) = true /\
  alive (clients st' c) = false /\
  name (clients st' c) = None /\
  (forall c', c' <> c -> clients st' c' = clients st c') /\
  waiting_queue st' = waiting_queue st /\
  games st' = games st.
Proof.
  intros Hh Hq. apply client_thread_refusal; [ | exact Hq].
  intro s. apply handshake_not_hello, Hh.
Qed.

Lemma first_line_must_be_hello_witness :
  let st := initial_server (RE := Scripted.engine) (fun _ => true) in
  let st' := exec (client_thread 0 [Line JSONDecodeError]) st in
  outcome (client_thread 0 [Line JSONDecodeError]) st = Ok Done /\
  outbox (clients st' 0) = [Welcome true; Illegal "expected hello"] /\
  closed (clients st' 0) = true /\
  waiting_queue st' = [].
Proof.
  intros st st'.
  destruct (first_line_must_be_hello 0 (Line JSONDecodeError) [] st
              ltac:(by_computation) ltac:(by_computation))
    as (H1 & H2 & H3 & _ & _ & _ & H7 & _).
  split; [exact H1 | ]. split; [exact H2 | ]. split; [exact H3 | exact H7].
Defined.

(** ** Lines in the lobby and in a game *)

Section Lines.
Context {RE : RulesEngine}.

Lemma index_last (c : nat) (q : list nat) :
  ~ In c q -> index c (q ++ [c]) = List.length q.
Proof.
  induction q as [ | x q IH]; simpl; intro H; [rewrite Nat.eqb_refl; reflexivity | ].
  destruct (Nat.eqb x c) eqn:E.
  - apply Nat.eqb_eq in E. exfalso. apply H. left. exact E.
  - rewrite IH; [reflexivity | ]. intro Hx. apply H. right. exact Hx.
Qed.

Lemma queue_pos_last (c : nat) (q : list nat) :
  ~ In c q -> queue_pos c (q ++ [c]) = S (List.length q).
Proof.
  intro H. unfold queue_pos.
  rewrite (proj2 (existsb_in c (q ++ [c])%list)) by (apply in_or_app; right; left; reflexivity).
  rewrite (index_last c q H). lia.
Qed.

Lemma init_session (c : nat) (st : Server) :
  let st0 := exec (ClientHandler_init c) st in
  accepts (clients st0 c) = accepts (clients st c) /\
  alive (clients st0 c) = true /\
  in_game (clients st0 c) = false /\
  outbox (clients st0 c) = outbox (clients st c) /\
  waiting_queue st0 = waiting_queue st.
Proof.
  unfold exec, ClientHandler_init, modify. simpl. rewrite Nat.eqb_refl. repeat split.
Qed.

Lemma named_session (c : nat) (n1 n2 : option string) (q : list nat) (st : Server) :
  let st2 := set_queue q (upd_client c (set_name n2) (upd_client c (set_name n1) st)) in
  accepts (clients st2 c) = accepts (clients st c) /\
  alive (clients st2 c) = alive (clients st c) /\
  in_game (clients st2 c) = in_game (clients st c) /\
  outbox (clients st2 c) = outbox (clients st c).
Proof. simpl. rewrite Nat.eqb_refl. repeat split. Qed.

Lemma loop_body_non_object (c : nat) (v : value) (st : Server) :
  is_None v = false -> is_dict v = false ->
  loop_body c (Line (Decoded v)) st = (Raise AttributeError, st).
Proof.
  intros Hn Hd. unfold loop_body. cbv zeta.
  change (recv_line (Line (Decoded v))) with v. rewrite Hn, Hd.
  rewrite (bind_ok (ret false) _ st false st) by reflexivity.
  destruct v; try discriminate; reflexivity.
Qed.

Lemma alike_fields c st st' x :
  alike c st st' ->
  accepts (clients st' x) = accepts (clients st x) /\
  color (clients st' x) = color (clients st x) /\
  in_game (clients st' x) = in_game (clients st x) /\
  game (clients st' x) = game (clients st x).
Proof.
  intros (_ & _ & _ & Ho & Hc). destruct (Nat.eq_dec x c) as [E | E].
  - subst x. destruct (clients st' c), (clients st c). unfold accepts. simpl in *.
    inversion Hc. subst. repeat split.
  - rewrite (Ho x E). repeat split.
Qed.

Lemma alike_deliver c p obj st st' :
  alike c st st' -> alike c (deliver p obj st) (deliver p obj st').
Proof.
  intro H. destruct (alike_fields c st st' p H) as (Ha & _).
  unfold deliver. rewrite Ha.
  destruct H as (Hq & Hg & Hn & Ho & Hc). repeat split; simpl; try assumption.
  - intros y Hy. destruct (Nat.eqb y p) eqn:E; [ | apply Ho, Hy].
    apply Nat.eqb_eq in E. subst y. rewrite (Ho p Hy). reflexivity.
  - destruct (Nat.eqb c p) eqn:E; [ | exact Hc].
    apply Nat.eqb_eq in E. subst p.
    destruct (clients st' c), (clients st c). simpl in *. inversion Hc. subst.
    destruct (accepts _); reflexivity.
Qed.

Lemma alike_detach c g st st' : alike c st st' -> alike c (detach g st) (detach g st').
Proof.
  intro H. assert (Hf := fun x => alike_fields c st st' x H).
  destruct H as (Hq & Hg & Hn & Ho & Hc).
  destruct (detach_frame g st) as (Dq & Dn & _). destruct (detach_frame g st') as (Dq' & Dn' & _).
  assert (Hoff : forall cl cl',
            set_alive false cl' = set_alive false cl ->
            set_alive false (set_color None (set_game None (set_in_game false cl'))) =
            set_alive false (set_color None (set_game None (set_in_game false cl)))).
  { intros cl cl' E. destruct cl, cl'. simpl in *. inversion E. subst. reflexivity. }
  assert (Hany : forall x, set_alive false (clients st' x) = set_alive false (clients st x)).
  { intro x. destruct (Nat.eq_dec x c) as [E | E]; [subst x; exact Hc | ].
    rewrite (Ho x E). reflexivity. }
  assert (Hgm : games (detach g st') = games (detach g st)).
  { unfold detach, _end_game, bind, modify, gets. simpl. rewrite Hg. reflexivity. }
  assert (Hcl : forall x, set_alive false (clients (detach g st') x) =
                          set_alive false (clients (detach g st) x)).
  { intro x. rewrite !detach_clients. cbv zeta. rewrite Hg.
    destruct (Nat.eqb x (black (games st g))); [ | destruct (Nat.eqb x (white (games st g)))].
    - apply Hoff. destruct (Nat.eqb (black (games st g)) (white (games st g)));
        [apply Hoff | ]; apply Hany.
    - apply Hoff, Hany.
    - apply Hany. }
  split; [congruence | ]. split; [exact Hgm | ]. split; [congruence | ].
  split; [ | apply Hcl].
  intros x Hx. specialize (Hcl x).
  assert (Hal : alive (clients (detach g st') x) = alive (clients (detach g st) x)).
  { destruct (detach_session g st x) as (_ & _ & A1 & _).
    destruct (detach_session g st' x) as (_ & _ & A2 & _).
    rewrite A1, A2, (Ho x Hx). reflexivity. }
  destruct (clients (detach g st') x), (clients (detach g st) x). simpl in *.
  inversion Hcl. subst. reflexivity.
Qed.

Lemma alike_dequeue c st st' : alike c st st' -> alike c (dequeue c st) (dequeue c st').
Proof.
  intros (Hq & Hg & Hn & Ho & Hc). unfold dequeue. rewrite Hq.
  destruct (existsb _ _); repeat split; simpl; assumption.
Qed.

Lemma alike_handle_disconnect c g d st st' :
  alike c st st' ->
  alike c (exec (_handle_disconnect g d) st) (exec (_handle_disconnect g d) st').
Proof.
  intro H. assert (Hg : games st' = games st) by apply H.
  destruct (ended (games st g)) eqn:E.
  - unfold exec. change (_handle_disconnect g d) with (fire g (Disconnected d)).
    rewrite (fire_ended_noop g (Disconnected d) st E).
    rewrite (fire_ended_noop g (Disconnected d) st') by (rewrite Hg; exact E).
    exact H.
  - rewrite (handle_disconnect_live g d st E).
    rewrite (handle_disconnect_live g d st') by (rewrite Hg; exact E).
    cbv zeta. rewrite Hg.
    destruct (alike_fields c st st' (_peer (games st g) d) H) as (Ha & Hk & _).
    rewrite Ha, Hk. apply alike_detach.
    destruct (accepts (clients st (_peer (games st g) d)));
      repeat apply alike_deliver; exact H.
Qed.

Lemma alike_departed c st st' :
  alike c st st' ->
  (forall x, clients (departed c st') x = clients (departed c st) x) /\
  games (departed c st') = games (departed c st) /\
  waiting_queue (departed c st') = waiting_queue (departed c st).
Proof.
  intro H. apply alike_dequeue in H. unfold departed.
  destruct (alike_fields c _ _ c H) as (_ & _ & Hi & Hg). rewrite Hi, Hg.
  set (s := dequeue c st) in *. set (s' := dequeue c st') in *.
  assert (Hshut : forall a b, alike c a b ->
            (forall x, clients (shut c b) x = clients (shut c a) x) /\
            games (shut c b) = games (shut c a) /\
            waiting_queue (shut c b) = waiting_queue (shut c a)).
  { intros a b (Hq & Hgm & _ & Ho & Hc). unfold shut. simpl. repeat split; try assumption.
    intro x. destruct (Nat.eqb x c) eqn:E; [ | apply Ho, Nat.eqb_neq, E].
    destruct (clients b c), (clients a c). simpl in *. inversion Hc. subst. reflexivity. }
  apply Hshut. destruct (in_game (clients s c)); [ | exact H].
  destruct (game (clients s c)) as [g | ]; [ | exact H].
  apply alike_handle_disconnect, H.
Qed.

End Lines.

(** X17. The position that the handshake reports, the length of the
    queue after the session joined it, is the position that the session is
    told when it next asks in the lobby: its index in the queue plus one. *)
Theorem queued_position_agrees `{RE : RulesEngine}
    (c : nat) (hello items : list (string * value))
    (s : string) (st : Server) :
  assoc "type" hello = Some (VStr "hello") ->
  assoc "name" hello = Some (VStr s) ->
  strip s <> "" ->
  ~ In c (waiting_queue st) ->
  accepts (clients st c) = true ->
  taken_as (VDict items) = AsMessage ->
  match assoc "type" items with
  | Some mtype => eq_str mtype "quit" = false /\ eq_str mtype "chat" = false
  | None => True
  end ->
  let thread := client_thread c [Line (Decoded (VDict hello)); Line (Decoded (VDict items))] in
  let n := S (List.length (waiting_queue st)) in
  let st' := exec thread st in
  outcome thread st = Ok Waiting /\
  outbox (clients st' c) =
    (outbox (clients st c) ++ [Welcome true; Queued n; Queued n])%list /\
  waiting_queue st' = (waiting_queue st ++ [c])%list.
Proof.
  intros Ht Hn Hs Hq Ha Hm Hty thread n st'.
  destruct (init_session c st) as (Ha0 & Hal0 & Hi0 & Ho0 & Hq0).
  set (st0 := exec (ClientHandler_init c) st) in *.
  rewrite Ha in Ha0.
  set (st1 := deliver c (Welcome true) st0).
  assert (Ha1 : accepts (clients st1 c) = true).
  { unfold st1. rewrite accepts_deliver. exact Ha0. }
  assert (Hq1 : waiting_queue st1 = waiting_queue st) by exact Hq0.
  assert (Hh := handshake_named_state c hello s st1 Ht Hn Hs).
  rewrite Hq1 in Hh. specialize (Hh Hq Ha1).
  destruct (named_session c (Some (strip s))
              (Some (unique_name (strip s) (taken_names st1)))
              (waiting_queue st ++ [c])%list st1) as (Ha2 & Hal2 & Hi2 & Ho2).
  set (st2 := set_queue (waiting_queue st ++ [c])
                (upd_client c (set_name (Some (unique_name (strip s) (taken_names st1))))
                   (upd_client c (set_name (Some (strip s))) st1))) in *.
  fold n in Hh. set (st3 := deliver c (Queued n) st2) in *.
  assert (Hpre : (ClientHandler_init c;; send c (Welcome true);;
                  handshake c (Line (Decoded (VDict hello)))) st = (Ok true, st3)).
  { rewrite (bind_ok (ClientHandler_init c) _ st tt st0) by reflexivity.
    rewrite bind_send, Ha0. fold st1. exact Hh. }
  assert (Hrun := client_thread_resumes c _ [Line (Decoded (VDict items))] st st3 Hpre).
  fold thread in Hrun.
  rewrite Ha1 in Ha2.
  assert (Ha3 : accepts (clients st3 c) = true).
  { unfold st3. rewrite accepts_deliver. exact Ha2. }
  assert (Hal3 : alive (clients st3 c) = true).
  { unfold st3. rewrite alive_deliver, Nat.eqb_refl, Ha2, Hal2. unfold st1.
    rewrite alive_deliver, Nat.eqb_refl, Ha0, Hal0. reflexivity. }
  assert (Hi3 : in_game (clients st3 c) = false).
  { unfold st3. rewrite in_game_deliver, Hi2. unfold st1. rewrite in_game_deliver.
    exact Hi0. }
  assert (Hq3 : waiting_queue st3 = (waiting_queue st ++ [c])%list) by reflexivity.
  assert (Hb := loop_body_status c items st3 Hm Hi3 Hty). rewrite Ha3, Hq3 in Hb.
  rewrite (queue_pos_last c _ Hq) in Hb. fold n in Hb.
  set (st4 := deliver c (Queued n) st3) in *.
  assert (Hal4 : alive (clients st4 c) = true).
  { unfold st4. rewrite alive_deliver, Nat.eqb_refl, Ha3, Hal3. reflexivity. }
  assert (Hloop : read_loop c [Line (Decoded (VDict items))] st3 = (Ok Waiting, st4)).
  { rewrite (read_loop_step c _ [] st3 st4 Hal3 Hb). simpl.
    unfold bind, gets, ret. rewrite Hal4. reflexivity. }
  assert (Hfin : thread st = (Ok Waiting, st4)).
  { rewrite Hrun. unfold client_resume. rewrite Hloop. reflexivity. }
  unfold st', outcome, exec. rewrite Hfin. cbn [fst snd].
  split; [reflexivity | ]. split; [ | reflexivity].
  unfold st4. rewrite outbox_deliver, Nat.eqb_refl. unfold written. rewrite Ha3.
  unfold st3. rewrite outbox_deliver, Nat.eqb_refl. unfold written. rewrite Ha2, Ho2.
  unfold st1. rewrite outbox_deliver, Nat.eqb_refl. unfold written. rewrite Ha0, Ho0.
  rewrite <- !app_assoc. reflexivity.
Qed.

Lemma queued_position_agrees_witness :
  let st := Scripted.lobby in
  let thread := client_thread 2 [Line (Decoded (VDict [("type", VStr "hello");
                                                         ("name", VStr "Cyd")]));
                                 Line (Decoded (VDict [("type", VStr "move")]))] in
  outcome thread st = Ok Waiting /\
  outbox (clients (exec thread st) 2) =
    (outbox (clients st 2) ++ [Welcome true; Queued 3; Queued 3])%list /\
  waiting_queue (exec thread st) = [0; 1; 2].
Proof.
  intros st thread.
  exact (queued_position_agrees 2 [("type", VStr "hello"); ("name", VStr "Cyd")]
           [("type", VStr "move")] "Cyd" st
           ltac:(by_computation) ltac:(by_computation) ltac:(by_computation)
           ltac:(by_computation) ltac:(by_computation) ltac:(by_computation)
           ltac:(by_computation)).
Defined.

(** X18. [quit] in a game forfeits the game and keeps the connection:
    the peer is written [opponent_left] and the [result] of a forfeit that
    it won, the game has ended, and the session that quit is written
    nothing, is as open and alive as before, is in no game and in no queue
    it was not in, and its read loop goes on. *)
Theorem quit_in_game_keeps_connection `{RE : RulesEngine}
    (c g : nat) (items : list (string * value))
    (mtype : value) (st : Server) :
  taken_as (VDict items) = AsMessage ->
  in_game (clients st c) = true ->
  game (clients st c) = Some g ->
  ended (games st g) = false ->
  white (games st g) <> black (games st g) ->
  c = white (games st g) \/ c = black (games st g) ->
  assoc "type" items = Some mtype ->
  eq_str mtype "quit" = true ->
  let turn := loop_body c (Line (Decoded (VDict items))) in
  let peer := _peer (games st g) c in
  let st' := exec turn st in
  outcome turn st = Ok Continue /\
  outbox (clients st' peer) =
    (outbox (clients st peer) ++
     written (clients st peer)
       [OpponentLeft; Result "forfeit" (color (clients st peer))])%list /\
  outbox (clients st' c) = outbox (clients st c) /\
  closed (clients st' c) = closed (clients st c) /\
  alive (clients st' c) = alive (clients st c) /\
  ended (games st' g) = true /\
  in_game (clients st' c) = false /\
  waiting_queue st' = waiting_queue st.
Proof.
  intros Hm Hi Hg E Hwb Hc Ht Hq turn peer st'.
  assert (Hne : peer <> c) by (apply peer_differs, Hwb).
  assert (Hdisp : process_message g c (VDict items) st =
                  (Ok tt, exec (_handle_disconnect g c) st)).
  { unfold process_message, bind at 1, gets at 1. rewrite E. unfold try_pass. f_equal.
    unfold exec. f_equal.
    rewrite (bind_ok _ _ st mtype st (dict_get_found items _ _ st Ht)).
    rewrite (eq_str_other mtype "quit" "move" Hq) by discriminate.
    rewrite (eq_str_other mtype "quit" "chat" Hq) by discriminate.
    rewrite (eq_str_other mtype "quit" "resign" Hq) by discriminate.
    rewrite Hq. reflexivity. }
  assert (Hturn : turn st = (Ok Continue, exec (_handle_disconnect g c) st)).
  { unfold turn. rewrite (loop_body_message c items st Hm).
    rewrite (bind_ok _ _ st mtype st (dict_get_found items _ _ st Ht)).
    rewrite (bind_ok (gets _) _ st true st) by (unfold gets; rewrite Hi; reflexivity).
    cbn [negb].
    rewrite (bind_ok (gets _) _ st (Some g) st) by (unfold gets; rewrite Hg; reflexivity).
    rewrite (bind_ok _ _ st tt _ Hdisp). reflexivity. }
  destruct (forfeit_effect g c st E) as (Ho & Hothers & He). fold peer in Ho, Hothers.
  assert (Hlive := handle_disconnect_live g c st E). cbv zeta in Hlive. fold peer in Hlive.
  set (st1 := if accepts (clients st peer)
              then deliver peer (Result "forfeit" (color (clients st peer)))
                     (deliver peer OpponentLeft st)
              else deliver peer OpponentLeft st) in *.
  assert (H1 : clients st1 c = clients st c /\ games st1 = games st /\
               waiting_queue st1 = waiting_queue st).
  { unfold st1. destruct (accepts (clients st peer));
      rewrite ?clients_deliver_other by congruence; repeat split. }
  destruct H1 as (Hc1 & Hg1 & Hq1).
  destruct (detach_session g st1 c) as (_ & Dc & Da & _ & _ & Dp & _).
  destruct (detach_frame g st1) as (Dq & _).
  rewrite Hg1 in Dp. rewrite Hlive in Ho, Hothers, He.
  assert (Hst' : st' = detach g st1).
  { unfold st', exec at 1. rewrite Hturn. exact Hlive. }
  rewrite Hst'.
  split; [unfold outcome; rewrite Hturn; reflexivity | ]. split; [exact Ho | ].
  split; [apply Hothers; congruence | ].
  split; [rewrite Dc, Hc1; reflexivity | ].
  split; [rewrite Da, Hc1; reflexivity | ].
  split; [exact He | ].
  split; [apply Dp, Hc | ].
  rewrite Dq. exact Hq1.
Qed.

Lemma quit_in_game_keeps_connection_witness :
  let turn := loop_body 1 (Line (Decoded (VDict [("type", VStr "quit")]))) in
  let st := Scripted.paired in
  outcome turn st = Ok Continue /\
  outbox (clients (exec turn st) 0) =
    (outbox (clients st 0) ++ [OpponentLeft; Result "forfeit" (Some "white")])%list /\
  closed (clients (exec turn st) 1) = closed (clients st 1) /\
  alive (clients (exec turn st) 1) = alive (clients st 1) /\
  ended (games (exec turn st) 0) = true.
Proof.
  intros turn st.
  destruct (quit_in_game_keeps_connection 1 0 [("type", VStr "quit")] (VStr "quit") st
              ltac:(by_computation) ltac:(by_computation) ltac:(by_computation)
              ltac:(by_computation) ltac:(by_computation) ltac:(by_computation)
              ltac:(by_computation) ltac:(by_computation))
    as (H1 & H2 & _ & H4 & H5 & H6 & _).
  split; [exact H1 | ]. split; [exact H2 | ]. split; [exact H4 | ].
  split; [exact H5 | exact H6].
Defined.

(** X19. A line of valid JSON that is neither an object nor [null]
    (a number, a string, a list, a boolean) ends the session as the end of
    the stream does: [msg.get] raises, and the [finally] block leaves every
    session, every game and the queue as it does after a disconnect. *)
Theorem non_object_line_is_disconnect `{RE : RulesEngine}
    (c : nat) (v : value) (rest : list read_outcome)
    (st : Server) :
  is_None v = false ->
  is_dict v = false ->
  let crash := client_resume c (Line (Decoded v) :: rest) in
  let leave := client_resume c (EndOfStream :: rest) in
  outcome crash st = Ok Done /\
  outcome leave st = Ok Done /\
  (forall x, clients (exec crash st) x = clients (exec leave st) x) /\
  games (exec crash st) = games (exec leave st) /\
  waiting_queue (exec crash st) = waiting_queue (exec leave st).
Proof.
  intros Hn Hd crash leave.
  destruct (alive (clients st c)) eqn:Ha.
  - assert (Hc : crash st = (Ok Done, departed c st)).
    { apply (client_resume_ends c _ st st (Raise AttributeError)); [ | discriminate].
      apply read_loop_raise; [exact Ha | apply loop_body_non_object; assumption]. }
    assert (Hl : leave st = (Ok Done, departed c (upd_client c (set_alive false) st))).
    { apply (client_resume_ends c _ st _ (Ok Done)); [ | discriminate].
      apply read_loop_break; [exact Ha | apply loop_body_disconnect; reflexivity]. }
    unfold outcome, exec. rewrite Hc, Hl. cbn [fst snd].
    split; [reflexivity | ]. split; [reflexivity | ].
    assert (Hal : alike c (upd_client c (set_alive false) st) st).
    { repeat split; simpl.
      - intros x Hx. apply Nat.eqb_neq in Hx. rewrite Hx. reflexivity.
      - rewrite Nat.eqb_refl. reflexivity. }
    apply (alike_departed c _ _ Hal).
  - assert (Hc : crash st = (Ok Done, departed c st)).
    { apply (client_resume_ends c _ st st (Ok Done)); [ | discriminate].
      apply read_loop_dead, Ha. }
    assert (Hl : leave st = (Ok Done, departed c st)).
    { apply (client_resume_ends c _ st st (Ok Done)); [ | discriminate].
      apply read_loop_dead, Ha. }
    unfold outcome, exec. rewrite Hc, Hl. repeat split.
Qed.

Lemma non_object_line_is_disconnect_witness :
  let crash := client_resume 1 [Line (Decoded (VInt 5))] in
  let leave := client_resume 1 [EndOfStream] in
  outcome crash Scripted.paired = Ok Done /\
  outbox (clients (exec crash Scripted.paired) 0) =
    outbox (clients (exec leave Scripted.paired) 0) /\
  games (exec crash Scripted.paired) = games (exec leave Scripted.paired).
Proof.
  intros crash leave.
  destruct (non_object_line_is_disconnect 1 (VInt 5) [] Scripted.paired
              ltac:(by_computation) ltac:(by_computation))
    as (H1 & _ & H3 & H4 & _).
  split; [exact H1 | ]. split; [exact (f_equal outbox (H3 0)) | exact H4].
Defined.

(** ** Stored names *)

Section StoredNames.
Context {RE : RulesEngine}.

Lemma lstrip_clean (t : string) : starts_with_space t = false -> lstrip t = t.
Proof. destruct t as [ | c t]; simpl; [reflexivity | ]. intro H. rewrite H. reflexivity. Qed.

Lemma rstrip_clean (t : string) : ends_with_space t = false -> rstrip t = t.
Proof.
  induction t as [ | c t IH]; simpl; [reflexivity | ].
  destruct t as [ | a t]; [intro H; simpl; rewrite H; reflexivity | ].
  intro H. rewrite (IH H). reflexivity.
Qed.

Lemma strip_clean (t : string) :
  starts_with_space t = false -> ends_with_space t = false -> strip t = t.
Proof.
  intros Hs He. unfold strip. rewrite (lstrip_clean t Hs). apply rstrip_clean, He.
Qed.

Lemma ends_with_space_app (p t : string) :
  t <> "" -> ends_with_space (p ++ t) = ends_with_space t.
Proof.
  intro Ht. induction p as [ | c p IH]; simpl; [reflexivity | ].
  destruct (p ++ t) as [ | a r] eqn:E; [ | exact IH].
  destruct p; simpl in E; [congruence | discriminate E].
Qed.

Lemma starts_with_space_app (p t : string) :
  p <> "" -> starts_with_space (p ++ t) = starts_with_space p.
Proof. destruct p; [congruence | reflexivity]. Qed.

Lemma digits_end (d : Decimal.uint) :
  d <> Decimal.Nil -> ends_with_space (NilEmpty.string_of_uint d) = false.
Proof.
  induction d as [ | d IH | d IH | d IH | d IH | d IH | d IH | d IH | d IH | d IH | d IH];
    intro H; [congruence | ..];
    simpl; (destruct d; [reflexivity | ..]; apply IH; discriminate).
Qed.

Lemma to_uint_nonnil (i : nat) : Nat.to_uint i <> Decimal.Nil.
Proof.
  rewrite <- (Unsigned.of_to i) at 1. rewrite Unsigned.to_of.
  unfold Decimal.unorm. destruct (Decimal.nzhead (Nat.to_uint i)); discriminate.
Qed.

Lemma decimal_end (i : nat) : decimal i <> "" /\ ends_with_space (decimal i) = false.
Proof.
  unfold decimal. split; [ | apply digits_end, to_uint_nonnil].
  assert (H := to_uint_nonnil i). destruct (Nat.to_uint i); [congruence | ..];
    discriminate.
Qed.

Lemma candidate_clean (original : string) (k : nat) :
  original <> "" -> strip original = original ->
  candidate original k <> "" /\ strip (candidate original k) = candidate original k.
Proof.
  intros Hne Hs. unfold candidate. destruct (Nat.eqb k 1); [auto | ].
  destruct (strip_spec original) as (_ & _ & _ & _ & _ & Hst & Hen). rewrite Hs in Hst, Hen.
  destruct (decimal_end k) as (Hd & He). split.
  - destruct original; [congruence | discriminate].
  - apply strip_clean.
    + rewrite starts_with_space_app; assumption.
    + rewrite ends_with_space_app; [ | discriminate].
      change ("_" ++ decimal k) with (String "_" (decimal k)).
      simpl. destruct (decimal k); [congruence | exact He].
Qed.

Lemma strip_idempotent (s : string) : strip (strip s) = strip s.
Proof.
  destruct (strip_spec s) as (_ & _ & _ & _ & _ & Hst & Hen). apply strip_clean; assumption.
Qed.

End StoredNames.

(** X20. The name that a successful handshake stores is not empty, has
    no whitespace at either end, with or without the suffix that made it
    unique, and is the name of no session that was queued before. *)
Theorem stored_name_clean `{RE : RulesEngine}
    (c : nat) (items : list (string * value)) (s : string)
    (st : Server) :
  assoc "type" items = Some (VStr "hello") ->
  assoc "name" items = Some (VStr s) ->
  strip s <> "" ->
  ~ In c (waiting_queue st) ->
  accepts (clients st c) = true ->
  let st' := exec (handshake c (Line (Decoded (VDict items)))) st in
  exists n, name (clients st' c) = Some n /\ n <> "" /\ strip n = n /\
            ~ In n (taken_names st).
Proof.
  intros Ht Hn Hs Hq Ha st'.
  destruct (handshake_named c items s st Ht Hn Hs Hq Ha) as (_ & Hname & _).
  fold st' in Hname.
  destruct (unique_name_spec (strip s) (taken_names st)) as (k & _ & _ & Hu & Hfree & _).
  destruct (candidate_clean (strip s) k Hs (strip_idempotent s)) as (H1 & H2).
  exists (candidate (strip s) k). rewrite Hname, Hu. repeat split; try assumption.
  intro Hin. apply mem_In in Hin. congruence.
Qed.

Lemma stored_name_clean_witness :
  let hello := [("type", VStr "hello"); ("name", VStr " Ann ")] in
  let st' := exec (handshake 2 (Line (Decoded (VDict hello)))) Scripted.lobby in
  exists n, name (clients st' 2) = Some n /\ n <> "" /\ strip n = n /\
            ~ In n (taken_names Scripted.lobby).
Proof.
  intros hello st'.
  exact (stored_name_clean 2 hello " Ann " Scripted.lobby
           ltac:(by_computation) ltac:(by_computation) ltac:(by_computation)
           ltac:(by_computation) ltac:(by_computation)).
Defined.

(** ** After a game; broken connections; names of players *)

Section Aftermath.
Context {RE : RulesEngine}.

Lemma broadcast_half a b obj st :
  a <> b ->
  accepts (clients st a) = true -> accepts (clients st b) = false ->
  outbox (clients (broadcast a b obj st) a) = (outbox (clients st a) ++ [obj])%list /\
  outbox (clients (broadcast a b obj st) b) = outbox (clients st b).
Proof.
  intros Hab Ha Hb. unfold broadcast. rewrite Ha.
  assert (E1 : Nat.eqb a b = false) by (apply Nat.eqb_neq; exact Hab).
  assert (E2 : Nat.eqb b a = false) by (apply Nat.eqb_neq; congruence).
  split.
  - rewrite outbox_deliver, E1, outbox_deliver, Nat.eqb_refl. unfold written.
    rewrite Ha. reflexivity.
  - rewrite outbox_deliver, Nat.eqb_refl, outbox_deliver, E2. unfold written.
    rewrite accepts_deliver, Hb. apply app_nil_r.
Qed.

(** After the end of [g], however it came, its players are in no game. *)
Lemma changes_after_end g st st' :
  changes g st st' ->
  ended (games st g) = true ->
  forall c, in_game (clients st' c) = in_game (clients st c).
Proof.
  induction 1 as [ | st st1 st2 Hc _ IH]; intros E c; [reflexivity | ].
  destruct Hc as [x obj | b | E'].
  - rewrite IH by (rewrite games_deliver; exact E). apply in_game_deliver.
  - rewrite IH by (simpl; rewrite Nat.eqb_refl; exact E). reflexivity.
  - congruence.
Qed.

Lemma changes_end_frees g st st' :
  changes g st st' ->
  ended (games st g) = false ->
  ended (games st' g) = true ->
  forall c, c = white (games st g) \/ c = black (games st g) ->
            in_game (clients st' c) = false.
Proof.
  induction 1 as [ | st st1 st2 Hc Hrest IH]; intros E E' c Hp; [congruence | ].
  destruct Hc as [x obj | b | _].
  - apply IH; [rewrite games_deliver; exact E | exact E' | rewrite games_deliver; exact Hp].
  - apply IH; [simpl; rewrite Nat.eqb_refl; exact E | exact E' | ].
    simpl. rewrite Nat.eqb_refl. exact Hp.
  - rewrite (changes_after_end g _ _ Hrest (ended_detach g st) c).
    destruct (detach_session g st c) as (_ & _ & _ & _ & _ & Hin & _).
    apply Hin, Hp.
Qed.

Lemma shut_fields (c : nat) (st : Server) :
  outbox (clients (shut c st) c) = outbox (clients st c) /\
  closed (clients (shut c st) c) = true /\
  alive (clients (shut c st) c) = false /\
  name (clients (shut c st) c) = name (clients st c) /\
  (forall c', c' <> c -> clients (shut c st) c' = clients st c') /\
  waiting_queue (shut c st) = waiting_queue st /\
  games (shut c st) = games st.
Proof.
  unfold shut. simpl. rewrite Nat.eqb_refl. repeat split.
  intros c' H. apply Nat.eqb_neq in H. rewrite H. reflexivity.
Qed.

Lemma unique_name_free (original : string) (taken : list string) :
  mem original taken = false -> unique_name original taken = original.
Proof.
  intro H. unfold unique_name. rewrite rename_loop_eq, H. reflexivity.
Qed.

Lemma taken_names_In (st : Server) (n : string) :
  In n (taken_names st) ->
  exists q, In q (waiting_queue st) /\ name (clients st q) = Some n.
Proof.
  unfold taken_names. intro H. apply in_flat_map in H. destruct H as (q & Hq & Hn).
  exists q. split; [exact Hq | ].
  destruct (name (clients st q)) as [m | ]; [ | destruct Hn].
  destruct (String.eqb m ""); [destruct Hn | ].
  destruct Hn as [Hn | []]. congruence.
Qed.

End Aftermath.

(** X21. When black's connection takes no write and white's does, an
    accepted move is announced to white in full: white is written
    [move_ok], the new [state], and the [result] when the board reports
    one; black is written nothing and is marked dead, and the board has the
    move. *)
Theorem dead_black_still_informs_white `{RE : RulesEngine}
    (g sender : nat) (items : list (string * value))
    (uci : string) (mv : Move) (reason : string) (b' : Board) (st : Server) :
  ended (games st g) = false ->
  assoc "type" items = Some (VStr "move") ->
  assoc "uci" items = Some (VStr uci) ->
  color (clients st sender) = Some (turn_color (board (games st g))) ->
  new_move uci = Some mv ->
  make_move (board (games st g)) mv = ((true, reason), b') ->
  let w := white (games st g) in
  let b := black (games st g) in
  w <> b ->
  accepts (clients st w) = true ->
  accepts (clients st b) = false ->
  let st' := exec (process_message g sender (VDict items)) st in
  let accepted :=
    [MoveOk (move_uci mv) (color (clients st sender));
     State (board_fen b') (turn_color b') (_in_check b' (board_turn b'))] in
  outbox (clients st' w) =
    (outbox (clients st w) ++ accepted ++
     match terminal_message (board_result b') with Some res => [res] | None => [] end)%list /\
  outbox (clients st' b) = outbox (clients st b) /\
  alive (clients st' b) = false /\
  board (games st' g) = b'.
Proof.
  intros E Ht Hu Hc Hm Hmk w b Hwb Hw Hb st' accepted.
  set (st1 := upd_game g (set_board b') st).
  set (o1 := MoveOk (move_uci mv) (color (clients st sender))).
  set (o2 := State (board_fen b') (turn_color b') (_in_check b' (board_turn b'))).
  set (st2 := broadcast w b o1 st1).
  set (st3 := broadcast w b o2 st2).
  assert (Hst : st' = exec (check_terminal g) st3).
  { unfold st'. rewrite (process_message_live g sender items _ st E Ht). simpl.
    apply (handle_move_accepted g sender items uci mv reason b' st Hu Hc Hm Hmk). }
  assert (Hg3 : games st3 g = set_board b' (games st g)).
  { unfold st3, st2. rewrite !games_broadcast. simpl. rewrite Nat.eqb_refl. reflexivity. }
  assert (Hw2 : accepts (clients st2 w) = true)
    by (unfold st2; rewrite accepts_broadcast; exact Hw).
  assert (Hb2 : accepts (clients st2 b) = false)
    by (unfold st2; rewrite accepts_broadcast; exact Hb).
  assert (Hw3 : accepts (clients st3 w) = true)
    by (unfold st3; rewrite accepts_broadcast; exact Hw2).
  assert (Hb3 : accepts (clients st3 b) = false)
    by (unfold st3; rewrite accepts_broadcast; exact Hb2).
  destruct (broadcast_half w b o1 st1 Hwb Hw Hb) as (A1 & B1). fold st2 in A1, B1.
  destruct (broadcast_half w b o2 st2 Hwb Hw2 Hb2) as (A2 & B2). fold st3 in A2, B2.
  change (outbox (clients st1 w)) with (outbox (clients st w)) in A1.
  change (outbox (clients st1 b)) with (outbox (clients st b)) in B1.
  assert (Hal2 : alive (clients st2 b) = false).
  { unfold st2, broadcast. change (accepts (clients st1 w)) with (accepts (clients st w)).
    rewrite Hw, alive_deliver, Nat.eqb_refl, accepts_deliver.
    change (accepts (clients st1 b)) with (accepts (clients st b)).
    rewrite Hb. apply andb_false_r. }
  assert (Hdead : forall s o, alive (clients s b) = false ->
                              alive (clients (broadcast w b o s) b) = false).
  { intros s o H. unfold broadcast.
    assert (Ebw : Nat.eqb b w = false) by (apply Nat.eqb_neq; congruence).
    destruct (accepts (clients s w)); rewrite ?alive_deliver, ?Nat.eqb_refl, ?Ebw;
      rewrite ?alive_deliver, ?Ebw, ?H; reflexivity. }
  assert (Hal3 : alive (clients st3 b) = false) by (apply Hdead, Hal2).
  rewrite Hst, check_terminal_spec, Hg3. cbn [board set_board white black]. fold w b.
  destruct (terminal_message (board_result b')) as [res | ].
  - destruct (broadcast_half w b res st3 Hwb Hw3 Hb3) as (A3 & B3).
    rewrite !outbox_detach, alive_detach, board_detach, games_broadcast, Hg3.
    rewrite A3, A2, A1, B3, B2, B1. unfold accepted. fold o1 o2.
    rewrite <- !app_assoc. repeat split. apply Hdead, Hal3.
  - rewrite A2, A1, B2, B1, Hg3. unfold accepted. fold o1 o2.
    rewrite <- !app_assoc, app_nil_r. repeat split. exact Hal3.
Qed.

Lemma dead_black_still_informs_white_witness :
  let st := upd_client 1 (set_closed true) Scripted.paired in
  let st' := exec (process_message 0 0
                     (VDict [("type", VStr "move"); ("uci", VStr "e2e4")])) st in
  outbox (clients st' 0) =
    (outbox (clients st 0) ++
     [MoveOk "e2e4" (Some "white"); State "e2e4" "black" false] ++ [])%list /\
  outbox (clients st' 1) = outbox (clients st 1) /\
  alive (clients st' 1) = false /\
  board (games st' 0) = Scripted.mkBoard "b" None ["e2e4"].
Proof.
  intros st st'.
  exact (dead_black_still_informs_white (RE := Scripted.engine) 0 0
           [("type", VStr "move"); ("uci", VStr "e2e4")] "e2e4" "e2e4" ""
           (Scripted.mkBoard "b" None ["e2e4"]) st
           ltac:(by_computation) ltac:(by_computation) ltac:(by_computation)
           ltac:(by_computation) ltac:(by_computation) ltac:(by_computation)
           ltac:(by_computation) ltac:(by_computation) ltac:(by_computation)).
Defined.

(** X22. Once a game has ended, however it came to its end
    (a resignation, a forfeit, a result on the board), its players are in
    no game and are not put back in the queue: a later message of one of
    them that is neither [quit] nor [chat] is answered [queued] with
    position 0, and changes nothing else. *)
Theorem finished_player_stays_unqueued `{RE : RulesEngine}
    (g c : nat) (ts : list trigger)
    (items : list (string * value)) (st : Server) :
  ended (games st g) = false ->
  c = white (games st g) \/ c = black (games st g) ->
  ~ In c (waiting_queue st) ->
  ended (games (run g ts st) g) = true ->
  taken_as (VDict items) = AsMessage ->
  match assoc "type" items with
  | Some mtype => eq_str mtype "quit" = false /\ eq_str mtype "chat" = false
  | None => True
  end ->
  let st1 := run g ts st in
  let line := Line (Decoded (VDict items)) in
  in_game (clients st1 c) = false /\
  ~ In c (waiting_queue st1) /\
  only_reply c (Queued 0) st1 (exec (loop_body c line) st1).
Proof.
  intros E Hp Hq E' Hm Ht st1 line.
  assert (Hch := run_changes g ts st). fold st1 in Hch.
  assert (Hi : in_game (clients st1 c) = false)
    by (apply (changes_end_frees g st st1 Hch E E' c Hp)).
  assert (Hq1 : waiting_queue st1 = waiting_queue st)
    by (apply (changes_lobby_kept g st st1 Hch)).
  split; [exact Hi | ]. split; [rewrite Hq1; exact Hq | ].
  unfold exec, line. rewrite (loop_body_status c items st1 Hm Hi Ht). cbn [snd].
  replace (queue_pos c (waiting_queue st1)) with 0; [apply deliver_only_reply | ].
  symmetry. apply queue_pos_spec. rewrite Hq1. exact Hq.
Qed.

Lemma finished_player_stays_unqueued_witness :
  let st1 := run 0 [Message 1 (VDict [("type", VStr "resign")])] Scripted.paired in
  let line := Line (Decoded (VDict [("type", VStr "move"); ("uci", VStr "e2e4")])) in
  in_game (clients st1 0) = false /\
  ~ In 0 (waiting_queue st1) /\
  only_reply 0 (Queued 0) st1 (exec (loop_body 0 line) st1).
Proof.
  intros st1 line.
  exact (finished_player_stays_unqueued 0 0 [Message 1 (VDict [("type", VStr "resign")])]
           [("type", VStr "move"); ("uci", VStr "e2e4")] Scripted.paired
           ltac:(by_computation) ltac:(by_computation) ltac:(by_computation)
           ltac:(by_computation) ltac:(by_computation) ltac:(by_computation)).
Defined.

(** X23. A connection that takes no write from the start: the
    [welcome] fails, whatever lines arrive are not read, the thread ends,
    and the session is closed without a name; it is written nothing, the
    queue, the games and the other sessions are as they were. *)
Theorem broken_connection_never_queued `{RE : RulesEngine}
    (c : nat) (inputs : list read_outcome)
    (st : Server) :
  accepts (clients st c) = false ->
  ~ In c (waiting_queue st) ->
  let st' := exec (client_thread c inputs) st in
  outcome (client_thread c inputs) st = Ok Done /\
  outbox (clients st' c) = outbox (clients st c) /\
  name (clients st' c) = None /\
  closed (clients st' c) = true /\
  alive (clients st' c) = false /\
  waiting_queue st' = waiting_queue st /\
  games st' = games st /\
  (forall c', c' <> c -> clients st' c' = clients st c').
Proof.
  intros Ha Hq st'.
  destruct (init_session c st) as (Ha0 & _ & Hi0 & Ho0 & Hq0).
  assert (Hn0 : name (clients (exec (ClientHandler_init c) st) c) = None).
  { unfold exec, ClientHandler_init, modify. simpl. rewrite Nat.eqb_refl. reflexivity. }
  assert (Hc0 : forall c', c' <> c ->
            clients (exec (ClientHandler_init c) st) c' = clients st c').
  { intros c' H. unfold exec, ClientHandler_init, modify. simpl.
    apply Nat.eqb_neq in H. rewrite H. reflexivity. }
  assert (Hg0 : games (exec (ClientHandler_init c) st) = games st) by reflexivity.
  set (st0 := exec (ClientHandler_init c) st) in *.
  rewrite Ha in Ha0.
  set (st1 := deliver c (Welcome true) st0).
  assert (Hrun : client_thread c inputs st = (Ok Done, shut c st1)).
  { unfold client_thread.
    rewrite (bind_ok (ClientHandler_init c) _ st tt st0) by reflexivity.
    unfold client_try. rewrite bind_send, Ha0. fold st1.
    rewrite (bind_ok (client_finally c) _ st1 tt (shut c st1)); [reflexivity | ].
    apply client_finally_idle; [exact (eq_ind _ (fun q => ~ In c q) Hq _ (eq_sym Hq0)) | ].
    unfold st1. rewrite in_game_deliver. exact Hi0. }
  unfold st', outcome, exec. rewrite Hrun. cbn [fst snd].
  split; [reflexivity | ].
  destruct (shut_fields c st1) as (So & Sc & Sa & Sn & Sother & Sq & Sg).
  rewrite So, Sc, Sa, Sn, Sq, Sg.
  assert (Ho1 : outbox (clients st1 c) = outbox (clients st c)).
  { unfold st1. rewrite outbox_deliver, Nat.eqb_refl. unfold written.
    rewrite Ha0, app_nil_r. exact Ho0. }
  assert (Hn1 : name (clients st1 c) = None).
  { unfold st1. rewrite name_deliver. exact Hn0. }
  split; [exact Ho1 | ]. split; [exact Hn1 | ]. split; [reflexivity | ].
  split; [reflexivity | ]. split; [exact Hq0 | ]. split; [exact Hg0 | ].
  intros c' H. rewrite (Sother c' H).
  unfold st1. rewrite (clients_deliver_other _ _ _ _ H). apply Hc0, H.
Qed.

Lemma broken_connection_never_queued_witness :
  let st := initial_server (RE := Scripted.engine) (fun c => negb (Nat.eqb c 3)) in
  let st' := exec (client_thread 3 [Scripted.hello "Dee"]) st in
  outcome (client_thread 3 [Scripted.hello "Dee"]) st = Ok Done /\
  outbox (clients st' 3) = outbox (clients st 3) /\
  name (clients st' 3) = None /\
  closed (clients st' 3) = true /\
  waiting_queue st' = waiting_queue st.
Proof.
  intros st st'.
  destruct (broken_connection_never_queued 3 [Scripted.hello "Dee"] st
              ltac:(by_computation) ltac:(by_computation))
    as (H1 & H2 & H3 & H4 & _ & H6 & _).
  split; [exact H1 | ]. split; [exact H2 | ]. split; [exact H3 | ].
  split; [exact H4 | exact H6].
Defined.

(** X24. The handshake makes a name unique among the queued sessions
    only: when no queued session has the requested name, the new session
    is queued under it, also when a session that is not queued (one that is
    in a game, say) has that very name, and both have it afterwards. *)
Theorem names_unique_only_in_queue `{RE : RulesEngine}
    (c p : nat) (items : list (string * value))
    (s : string) (st : Server) :
  assoc "type" items = Some (VStr "hello") ->
  assoc "name" items = Some (VStr s) ->
  strip s <> "" ->
  ~ In c (waiting_queue st) ->
  accepts (clients st c) = true ->
  (forall q, In q (waiting_queue st) -> name (clients st q) <> Some (strip s)) ->
  p <> c ->
  name (clients st p) = Some (strip s) ->
  let st' := exec (handshake c (Line (Decoded (VDict items)))) st in
  outcome (handshake c (Line (Decoded (VDict items)))) st = Ok true /\
  name (clients st' c) = Some (strip s) /\
  name (clients st' p) = Some (strip s) /\
  In c (waiting_queue st').
Proof.
  intros Ht Hn Hs Hq Ha Hfree Hpc Hp st'.
  assert (Hst := handshake_named_state c items s st Ht Hn Hs Hq Ha).
  destruct (handshake_named c items s st Ht Hn Hs Hq Ha) as (Ho & Hname & Hqueue & _).
  fold st' in Hname, Hqueue.
  assert (Hm : mem (strip s) (taken_names st) = false).
  { destruct (mem (strip s) (taken_names st)) eqn:E; [ | reflexivity].
    apply mem_In, taken_names_In in E. destruct E as (q & Hin & Hq').
    exfalso. exact (Hfree q Hin Hq'). }
  rewrite (unique_name_free _ _ Hm) in Hname.
  split; [exact Ho | ]. split; [exact Hname | ]. split.
  - unfold st', exec. rewrite Hst. cbn [snd]. rewrite name_deliver. simpl.
    apply Nat.eqb_neq in Hpc. rewrite Hpc. exact Hp.
  - rewrite Hqueue. apply in_or_app. right. left. reflexivity.
Qed.

Lemma names_unique_only_in_queue_witness :
  let hello := [("type", VStr "hello"); ("name", VStr "Ann")] in
  let st' := exec (handshake 2 (Line (Decoded (VDict hello)))) Scripted.paired in
  name (clients Scripted.paired 0) = Some "Ann" /\
  in_game (clients Scripted.paired 0) = true /\
  outcome (handshake 2 (Line (Decoded (VDict hello)))) Scripted.paired = Ok true /\
  name (clients st' 2) = Some "Ann" /\
  name (clients st' 0) = Some "Ann" /\
  In 2 (waiting_queue st').
Proof.
  intros hello st'.
  split; [vm_compute; reflexivity | ]. split; [vm_compute; reflexivity | ].
  exact (names_unique_only_in_queue 2 0 hello "Ann" Scripted.paired
           ltac:(by_computation) ltac:(by_computation) ltac:(by_computation)
           ltac:(by_computation) ltac:(by_computation)
           ltac:(vm_compute; intros q [])
           ltac:(by_computation) ltac:(by_computation)).
Defined.
